(** * Generation pipeline of commy-ai: a shallow embedding

    Models [src/src/services/generationPipeline.ts] (the orchestrator
    [runGenerationPipeline] and its helpers) and the parts of
    [src/src/services/geminiService.ts] the claims are about
    ([generateVideoClip], [getFallbackMusic]).

    JavaScript values that reach the orchestrator from injected adapters
    are modelled by [jsval].  The run is a state-and-exception monad over
    the run's mutable locals (logs, issues, projectState, the scene
    accumulators) and the trace of interactions with the outside world
    (callbacks, adapter calls, cancellation checks).  Adapters and the
    cancellation predicate are oracles indexed by their call number, so a
    stateful stand-in (a closure counting its calls) is one oracle. *)

From Stdlib Require Import String Ascii List ZArith Bool Lia Sorting.Sorted.
Import ListNotations.
Open Scope string_scope.
Set Warnings "-register-all".

(* ------------------------------------------------------------------ *)
(** ** JavaScript values *)

Inductive jsval : Type :=
| JUndef
| JNull
| JBool (b : bool)
| JNum (n : Z)
| JNaN
| JStr (s : string)
| JArr (items : list jsval)
| JObj (props : list (string * jsval))
| JFun
(** an [Error] instance: name, message, stack and cause *)
| JErr (name message : string) (stack : option string) (cause : jsval).

(** [Boolean(v)] *)
Definition truthy (v : jsval) : bool :=
  match v with
  | JUndef | JNull | JNaN => false
  | JBool b => b
  | JNum n => negb (Z.eqb n 0)
  | JStr s => negb (String.eqb s "")
  | JArr _ | JObj _ | JFun | JErr _ _ _ _ => true
  end.

(** [typeof v === "object"] *)
Definition is_object_type (v : jsval) : bool :=
  match v with
  | JNull | JArr _ | JObj _ | JErr _ _ _ _ => true
  | _ => false
  end.

Fixpoint assoc {A} (k : string) (ps : list (string * A)) : option A :=
  match ps with
  | [] => None
  | (k', v) :: ps' => if String.eqb k k' then Some v else assoc k ps'
  end.

Definition opt_str (o : option string) : jsval :=
  match o with Some s => JStr s | None => JUndef end.

(** Reading the property [k] of [v]; [None] is the TypeError raised when
    [v] is [null] or [undefined].  The keys read by the modelled code
    ([url], [level], [message], ...) are not index keys and are not on
    [Object.prototype], so arrays, strings, numbers and functions have
    none of them. *)
Definition get_prop (v : jsval) (k : string) : option jsval :=
  match v with
  | JUndef | JNull => None
  | JObj ps => Some (match assoc k ps with Some x => x | None => JUndef end)
  | JErr n m st c =>
      Some (if String.eqb k "name" then JStr n
            else if String.eqb k "message" then JStr m
            else if String.eqb k "stack" then opt_str st
            else if String.eqb k "cause" then c
            else JUndef)
  | _ => Some JUndef
  end.

(** JavaScript builtins whose exact output no claim depends on: the string
    conversion of template literals, [JSON.stringify] ([None]: it throws;
    [Some None]: it returns [undefined]), object spread
    [{...(a || {}), ...(b || {})}] and the TypeError the engine raises when
    reading a property of [null]. *)
Record Builtins : Type := {
  js_string : jsval -> string;
  json_stringify : jsval -> option (option string);
  spread_merge : jsval -> jsval -> jsval;
  nullish_read_error : jsval
}.

(* ------------------------------------------------------------------ *)
(** ** Diagnostic model (generationPipeline.ts, lines 4-165) *)

Inductive PipelineLogLevel := Info | Warn | LError.

Inductive PipelineStage :=
| Planning | Storyboarding | VideoProduction | Voiceover | Scoring | Mixing | Ready.

Record NormalizedProviderDiagnostic : Type := {
  nd_level : PipelineLogLevel;
  nd_code : jsval;
  nd_message : jsval;
  nd_context : jsval;
  nd_error : jsval   (** [JUndef] for [undefined] *)
}.

Record NormalizedAssetResult : Type := {
  na_url : option string;
  na_fallbackUsed : bool;
  na_diagnostics : list NormalizedProviderDiagnostic
}.

Section Diagnostics.
Variable B : Builtins.

Definition isSerializedPipelineError (v : jsval) : bool :=
  match v with
  | JErr _ _ _ _ => true
  | JObj ps => match assoc "message" ps with Some (JStr _) => true | _ => false end
  | _ => false
  end.

Definition toSerializedError (e : jsval) : jsval :=
  match e with
  | JErr n m st c =>
      let cause := match c with
                   | JErr _ cm _ _ => JStr cm
                   | JStr s => JStr s
                   | _ => JUndef
                   end in
      JObj [("name", JStr n); ("message", JStr m); ("stack", opt_str st); ("cause", cause)]
  | JStr s => JObj [("message", JStr s)]
  | _ =>
      match json_stringify B e with
      | Some r => JObj [("message", opt_str r)]
      | None => JObj [("message", JStr "Unknown error")]
      end
  end.

Definition toPipelineLevel (v : jsval) : PipelineLogLevel :=
  match v with
  | JStr s =>
      if String.eqb s "error" then LError
      else if String.eqb s "warn" then Warn
      else Info
  | _ => Info
  end.

(** [entry.error ? (isSerialized ? entry.error : toSerializedError(..)) : undefined] *)
Definition normalize_error (e : jsval) : jsval :=
  if truthy e then (if isSerializedPipelineError e then e else toSerializedError e)
  else JUndef.

Definition normalize_entry (entry : jsval) : option NormalizedProviderDiagnostic :=
  match get_prop entry "level", get_prop entry "code", get_prop entry "message",
        get_prop entry "context", get_prop entry "error" with
  | Some l, Some c, Some m, Some ctx, Some e =>
      Some {| nd_level := toPipelineLevel l; nd_code := c; nd_message := m;
              nd_context := ctx; nd_error := normalize_error e |}
  | _, _, _, _, _ => None
  end.

(** [Array.prototype.map]: a throwing callback makes the whole map throw. *)
Fixpoint map_entries (l : list jsval) : option (list NormalizedProviderDiagnostic) :=
  match l with
  | [] => Some []
  | x :: xs =>
      match normalize_entry x with
      | None => None
      | Some d => match map_entries xs with
                  | None => None
                  | Some ds => Some (d :: ds)
                  end
      end
  end.

(** [normalizeAssetResult]; [None] means it throws (a TypeError). *)
Definition normalizeAssetResult (value : jsval) : option NormalizedAssetResult :=
  match value with
  | JStr s => Some {| na_url := Some s; na_fallbackUsed := false; na_diagnostics := [] |}
  | _ =>
      if negb (truthy value) || negb (is_object_type value) then
        Some {| na_url := None; na_fallbackUsed := false; na_diagnostics := [] |}
      else
        match get_prop value "url", get_prop value "fallbackUsed",
              get_prop value "diagnostics" with
        | Some u, Some f, Some d =>
            let url := match u with JStr s => Some s | _ => None end in
            let fallbackUsed := truthy f in
            match d with
            | JArr entries =>
                match map_entries entries with
                | Some ds => Some {| na_url := url; na_fallbackUsed := fallbackUsed;
                                     na_diagnostics := ds |}
                | None => None
                end
            | _ => Some {| na_url := url; na_fallbackUsed := fallbackUsed;
                           na_diagnostics := [] |}
            end
        | _, _, _ => None
        end
  end.

End Diagnostics.

Definition level_eqb (a b : PipelineLogLevel) : bool :=
  match a, b with
  | Info, Info | Warn, Warn | LError, LError => true
  | _, _ => false
  end.

Definition selectPrimaryDiagnostic (ds : list NormalizedProviderDiagnostic)
  : option NormalizedProviderDiagnostic :=
  match find (fun d => level_eqb (nd_level d) LError) ds with
  | Some d => Some d
  | None => find (fun d => level_eqb (nd_level d) Warn) ds
  end.

(* ------------------------------------------------------------------ *)
(** ** Data model (src/src/types.ts) *)

Inductive AspectRatio := SixteenNine | NineSixteen.
Inductive TTSVoice := Puck | Charon | Kore | Fenrir | Zephyr | Aoede.
Inductive ProjectMode := Commercial | MusicVideo | Trippy | Cinematic.
Inductive OverlayPosition :=
  PosCenter | PosTop | PosBottom | PosTopLeft | PosTopRight | PosBottomLeft | PosBottomRight.
Inductive OverlaySize := SizeSmall | SizeMedium | SizeLarge | SizeXl.
Inductive SceneDuration := Dur4 | Dur6.
Inductive SceneStatus := Pending | Generating | Complete | Failed.
Inductive UseTextOverlays := OverlaysYes | OverlaysNo | OverlaysAuto.
Inductive PreferredVoice := VoiceAuto | VoiceOf (v : TTSVoice).
Inductive ReferenceKind := RefImage | RefPdf | RefText | RefLink.

Record DialogueLine := { speaker : string; text : string }.

Record ReferenceFile := {
  rf_id : string; rf_name : string; rf_type : ReferenceKind; rf_content : string;
  rf_previewUrl : option string; rf_mimeType : option string
}.

Record ProjectSettings := {
  customScript : string;
  musicTheme : string;
  useTextOverlays : UseTextOverlays;
  textOverlayFont : option string;
  settings_preferredVoice : PreferredVoice;
  aspectRatio : AspectRatio;
  mode : ProjectMode
}.

Record OverlayConfig := { position : OverlayPosition; size : OverlaySize }.

Record CharacterDetails := {
  ch_name : string; ch_description : string; ch_hair : string; ch_face : string;
  ch_wardrobe : string
}.

Record EnvironmentDetails := {
  env_location : string; env_look : string; env_lighting : string;
  env_background_motion : string
}.

Record CameraDetails := { cam_framing : string; cam_movement : string; cam_notes : string }.

Record ActionBlocking := { time_window : string; ab_notes : string }.

Record Scene := {
  id : string;
  order : Z;
  duration : SceneDuration;
  character : CharacterDetails;
  environment : EnvironmentDetails;
  camera : CameraDetails;
  action_blocking : list ActionBlocking;
  visual_summary_prompt : string;
  textOverlay : string;
  overlayConfig : option OverlayConfig;
  status : SceneStatus;
  storyboardUrl : option string;
  videoUrl : option string
}.

(** [{...scene, status: st}], [{...scene, storyboardUrl: u}], [{...scene, videoUrl: u}] *)
Definition set_status (sc : Scene) (st : SceneStatus) : Scene :=
  {| id := id sc; order := order sc; duration := duration sc; character := character sc;
     environment := environment sc; camera := camera sc; action_blocking := action_blocking sc;
     visual_summary_prompt := visual_summary_prompt sc; textOverlay := textOverlay sc;
     overlayConfig := overlayConfig sc; status := st; storyboardUrl := storyboardUrl sc;
     videoUrl := videoUrl sc |}.

Definition set_storyboardUrl (sc : Scene) (u : option string) : Scene :=
  {| id := id sc; order := order sc; duration := duration sc; character := character sc;
     environment := environment sc; camera := camera sc; action_blocking := action_blocking sc;
     visual_summary_prompt := visual_summary_prompt sc; textOverlay := textOverlay sc;
     overlayConfig := overlayConfig sc; status := status sc; storyboardUrl := u;
     videoUrl := videoUrl sc |}.

Definition set_videoUrl (sc : Scene) (u : option string) : Scene :=
  {| id := id sc; order := order sc; duration := duration sc; character := character sc;
     environment := environment sc; camera := camera sc; action_blocking := action_blocking sc;
     visual_summary_prompt := visual_summary_prompt sc; textOverlay := textOverlay sc;
     overlayConfig := overlayConfig sc; status := status sc; storyboardUrl := storyboardUrl sc;
     videoUrl := u |}.

Record AdProject := {
  title : string;
  concept : string;
  musicMood : string;
  fullScript : string;
  script : option (list DialogueLine);
  characterProfile : option string;
  visualStyleProfile : option string;
  scenes : list Scene;
  voiceoverUrl : option string;
  musicUrl : option string;
  visualAnchor : option string;
  ffmpegCommand : option string;
  isGenerating : bool;
  currentPhase : PipelineStage;
  project_mode : option ProjectMode
}.

(** The plan is the parsed JSON of [adPlanSchema]
    (title, concept, scenes, musicMood and fullScript are required); its
    fields are spread into the project. *)
Record Plan := {
  plan_title : string;
  plan_concept : string;
  plan_musicMood : string;
  plan_fullScript : string;
  plan_script : option (list DialogueLine);
  plan_characterProfile : option string;
  plan_visualStyleProfile : option string;
  plan_scenes : list Scene;
  plan_voiceoverUrl : option string;
  plan_musicUrl : option string;
  plan_visualAnchor : option string;
  plan_ffmpegCommand : option string
}.

(** [{ ...projectState, scenes }], [{ ...projectState, currentPhase, scenes }], ... *)
Definition with_scenes (p : AdProject) (ss : list Scene) : AdProject :=
  {| title := title p; concept := concept p; musicMood := musicMood p;
     fullScript := fullScript p; script := script p; characterProfile := characterProfile p;
     visualStyleProfile := visualStyleProfile p; scenes := ss;
     voiceoverUrl := voiceoverUrl p; musicUrl := musicUrl p; visualAnchor := visualAnchor p;
     ffmpegCommand := ffmpegCommand p; isGenerating := isGenerating p;
     currentPhase := currentPhase p; project_mode := project_mode p |}.

Definition with_phase_scenes (p : AdProject) (ph : PipelineStage) (ss : list Scene) : AdProject :=
  {| title := title p; concept := concept p; musicMood := musicMood p;
     fullScript := fullScript p; script := script p; characterProfile := characterProfile p;
     visualStyleProfile := visualStyleProfile p; scenes := ss;
     voiceoverUrl := voiceoverUrl p; musicUrl := musicUrl p; visualAnchor := visualAnchor p;
     ffmpegCommand := ffmpegCommand p; isGenerating := isGenerating p;
     currentPhase := ph; project_mode := project_mode p |}.

Definition with_phase_voiceover (p : AdProject) (ph : PipelineStage) (vo : option string)
  : AdProject :=
  {| title := title p; concept := concept p; musicMood := musicMood p;
     fullScript := fullScript p; script := script p; characterProfile := characterProfile p;
     visualStyleProfile := visualStyleProfile p; scenes := scenes p;
     voiceoverUrl := vo; musicUrl := musicUrl p; visualAnchor := visualAnchor p;
     ffmpegCommand := ffmpegCommand p; isGenerating := isGenerating p;
     currentPhase := ph; project_mode := project_mode p |}.

(** [finalProject] *)
Definition finalize (p : AdProject) (ss : list Scene) (vo mu : option string) : AdProject :=
  {| title := title p; concept := concept p; musicMood := musicMood p;
     fullScript := fullScript p; script := script p; characterProfile := characterProfile p;
     visualStyleProfile := visualStyleProfile p; scenes := ss;
     voiceoverUrl := vo; musicUrl := mu; visualAnchor := visualAnchor p;
     ffmpegCommand := ffmpegCommand p; isGenerating := false;
     currentPhase := Ready; project_mode := project_mode p |}.

(* ------------------------------------------------------------------ *)
(** ** Logs, issues, interactions *)

(** [PipelineLogEntry] without [id] and [timestamp], which come from
    [Date.now()], the clock and a module-level counter. *)
Record PipelineLogEntry := {
  le_stage : PipelineStage;
  le_level : PipelineLogLevel;
  le_message : jsval;
  le_context : jsval;
  le_error : jsval
}.

Record PipelineIssue := {
  is_stage : PipelineStage;
  is_message : string;
  is_sceneId : option string;
  is_recoverable : bool;
  is_error : jsval
}.

(** Interactions with the outside world, in the order they happen.  An
    adapter call records its call number and arguments. *)
Inductive Event :=
| EvProjectInitialized (p : AdProject)
| EvProjectUpdate (p : AdProject)
| EvLog (e : PipelineLogEntry)
| EvPlanCall (k : nat) (prompt : string)
| EvStoryboardCall (k : nat) (sc : Scene) (ar : AspectRatio) (anchor : option string)
| EvVideoCall (k : nat) (sc : Scene) (ar : AspectRatio) (source : option string)
| EvVoiceoverCall (k : nat) (txt : string) (voice : TTSVoice) (dialogue : option (list DialogueLine))
| EvMusicCall (k : nat) (mood : string).

Inductive outcome (A : Type) := Returns (a : A) | Throws (e : jsval).
Arguments Returns {A} a.
Arguments Throws {A} e.

(** The injected adapters ([GenerationPipelineDependencies]), each an
    oracle of its call number and its arguments.  An entry missing from
    [options.deps] falls back to the Gemini adapter of the same name,
    which is just another such oracle here. *)
Record Deps := {
  generateAdPlan : nat -> string -> ProjectSettings -> list ReferenceFile -> outcome Plan;
  generateStoryboardImage : nat -> Scene -> AspectRatio -> option string -> outcome jsval;
  generateVideoClip : nat -> Scene -> AspectRatio -> option string -> outcome jsval;
  generateVoiceover : nat -> string -> TTSVoice -> option (list DialogueLine) -> outcome jsval;
  generateMusic : nat -> string -> outcome jsval
}.

(** [GenerationPipelineOptions]; the callbacks are the [Ev*] events of the
    trace, [shouldCancel] answers by its call number. *)
Record GenerationPipelineOptions := {
  prompt : string;
  settings : ProjectSettings;
  files : list ReferenceFile;
  visualAnchorDataUrl : option string;
  preferredVoice : TTSVoice;
  shouldCancel : option (nat -> bool);
  deps : Deps
}.

Record GenerationPipelineRunResult := {
  rr_plan : Plan;
  rr_project : AdProject;
  rr_scenes : list Scene;
  rr_voiceoverUrl : option string;
  rr_musicUrl : option string;
  rr_logs : list PipelineLogEntry;
  rr_issues : list PipelineIssue
}.

(** The state of one run: the mutable locals of [runGenerationPipeline]
    and the trace of interactions with the outside world. *)
Record St := {
  st_projectState : option AdProject;
  st_logs : list PipelineLogEntry;
  st_issues : list PipelineIssue;
  st_storyboardedScenes : list Scene;
  st_videoScenes : list Scene;
  st_voiceoverUrl : option string;
  st_musicUrl : option string;
  st_trace : list Event;
  st_cancel_calls : nat;
  st_plan_calls : nat;
  st_storyboard_calls : nat;
  st_video_calls : nat;
  st_voiceover_calls : nat;
  st_music_calls : nat
}.

Definition upd_projectState (u : option AdProject -> option AdProject) (s : St) : St :=
  {| st_projectState := u (st_projectState s); st_logs := st_logs s; st_issues := st_issues s; st_storyboardedScenes := st_storyboardedScenes s; st_videoScenes := st_videoScenes s; st_voiceoverUrl := st_voiceoverUrl s; st_musicUrl := st_musicUrl s; st_trace := st_trace s; st_cancel_calls := st_cancel_calls s; st_plan_calls := st_plan_calls s; st_storyboard_calls := st_storyboard_calls s; st_video_calls := st_video_calls s; st_voiceover_calls := st_voiceover_calls s; st_music_calls := st_music_calls s |}.

Definition upd_logs (u : list PipelineLogEntry -> list PipelineLogEntry) (s : St) : St :=
  {| st_projectState := st_projectState s; st_logs := u (st_logs s); st_issues := st_issues s; st_storyboardedScenes := st_storyboardedScenes s; st_videoScenes := st_videoScenes s; st_voiceoverUrl := st_voiceoverUrl s; st_musicUrl := st_musicUrl s; st_trace := st_trace s; st_cancel_calls := st_cancel_calls s; st_plan_calls := st_plan_calls s; st_storyboard_calls := st_storyboard_calls s; st_video_calls := st_video_calls s; st_voiceover_calls := st_voiceover_calls s; st_music_calls := st_music_calls s |}.

Definition upd_issues (u : list PipelineIssue -> list PipelineIssue) (s : St) : St :=
  {| st_projectState := st_projectState s; st_logs := st_logs s; st_issues := u (st_issues s); st_storyboardedScenes := st_storyboardedScenes s; st_videoScenes := st_videoScenes s; st_voiceoverUrl := st_voiceoverUrl s; st_musicUrl := st_musicUrl s; st_trace := st_trace s; st_cancel_calls := st_cancel_calls s; st_plan_calls := st_plan_calls s; st_storyboard_calls := st_storyboard_calls s; st_video_calls := st_video_calls s; st_voiceover_calls := st_voiceover_calls s; st_music_calls := st_music_calls s |}.

Definition upd_storyboardedScenes (u : list Scene -> list Scene) (s : St) : St :=
  {| st_projectState := st_projectState s; st_logs := st_logs s; st_issues := st_issues s; st_storyboardedScenes := u (st_storyboardedScenes s); st_videoScenes := st_videoScenes s; st_voiceoverUrl := st_voiceoverUrl s; st_musicUrl := st_musicUrl s; st_trace := st_trace s; st_cancel_calls := st_cancel_calls s; st_plan_calls := st_plan_calls s; st_storyboard_calls := st_storyboard_calls s; st_video_calls := st_video_calls s; st_voiceover_calls := st_voiceover_calls s; st_music_calls := st_music_calls s |}.

Definition upd_videoScenes (u : list Scene -> list Scene) (s : St) : St :=
  {| st_projectState := st_projectState s; st_logs := st_logs s; st_issues := st_issues s; st_storyboardedScenes := st_storyboardedScenes s; st_videoScenes := u (st_videoScenes s); st_voiceoverUrl := st_voiceoverUrl s; st_musicUrl := st_musicUrl s; st_trace := st_trace s; st_cancel_calls := st_cancel_calls s; st_plan_calls := st_plan_calls s; st_storyboard_calls := st_storyboard_calls s; st_video_calls := st_video_calls s; st_voiceover_calls := st_voiceover_calls s; st_music_calls := st_music_calls s |}.

Definition upd_voiceoverUrl (u : option string -> option string) (s : St) : St :=
  {| st_projectState := st_projectState s; st_logs := st_logs s; st_issues := st_issues s; st_storyboardedScenes := st_storyboardedScenes s; st_videoScenes := st_videoScenes s; st_voiceoverUrl := u (st_voiceoverUrl s); st_musicUrl := st_musicUrl s; st_trace := st_trace s; st_cancel_calls := st_cancel_calls s; st_plan_calls := st_plan_calls s; st_storyboard_calls := st_storyboard_calls s; st_video_calls := st_video_calls s; st_voiceover_calls := st_voiceover_calls s; st_music_calls := st_music_calls s |}.

Definition upd_musicUrl (u : option string -> option string) (s : St) : St :=
  {| st_projectState := st_projectState s; st_logs := st_logs s; st_issues := st_issues s; st_storyboardedScenes := st_storyboardedScenes s; st_videoScenes := st_videoScenes s; st_voiceoverUrl := st_voiceoverUrl s; st_musicUrl := u (st_musicUrl s); st_trace := st_trace s; st_cancel_calls := st_cancel_calls s; st_plan_calls := st_plan_calls s; st_storyboard_calls := st_storyboard_calls s; st_video_calls := st_video_calls s; st_voiceover_calls := st_voiceover_calls s; st_music_calls := st_music_calls s |}.

Definition upd_trace (u : list Event -> list Event) (s : St) : St :=
  {| st_projectState := st_projectState s; st_logs := st_logs s; st_issues := st_issues s; st_storyboardedScenes := st_storyboardedScenes s; st_videoScenes := st_videoScenes s; st_voiceoverUrl := st_voiceoverUrl s; st_musicUrl := st_musicUrl s; st_trace := u (st_trace s); st_cancel_calls := st_cancel_calls s; st_plan_calls := st_plan_calls s; st_storyboard_calls := st_storyboard_calls s; st_video_calls := st_video_calls s; st_voiceover_calls := st_voiceover_calls s; st_music_calls := st_music_calls s |}.

Definition upd_cancel_calls (u : nat -> nat) (s : St) : St :=
  {| st_projectState := st_projectState s; st_logs := st_logs s; st_issues := st_issues s; st_storyboardedScenes := st_storyboardedScenes s; st_videoScenes := st_videoScenes s; st_voiceoverUrl := st_voiceoverUrl s; st_musicUrl := st_musicUrl s; st_trace := st_trace s; st_cancel_calls := u (st_cancel_calls s); st_plan_calls := st_plan_calls s; st_storyboard_calls := st_storyboard_calls s; st_video_calls := st_video_calls s; st_voiceover_calls := st_voiceover_calls s; st_music_calls := st_music_calls s |}.

Definition upd_plan_calls (u : nat -> nat) (s : St) : St :=
  {| st_projectState := st_projectState s; st_logs := st_logs s; st_issues := st_issues s; st_storyboardedScenes := st_storyboardedScenes s; st_videoScenes := st_videoScenes s; st_voiceoverUrl := st_voiceoverUrl s; st_musicUrl := st_musicUrl s; st_trace := st_trace s; st_cancel_calls := st_cancel_calls s; st_plan_calls := u (st_plan_calls s); st_storyboard_calls := st_storyboard_calls s; st_video_calls := st_video_calls s; st_voiceover_calls := st_voiceover_calls s; st_music_calls := st_music_calls s |}.

Definition upd_storyboard_calls (u : nat -> nat) (s : St) : St :=
  {| st_projectState := st_projectState s; st_logs := st_logs s; st_issues := st_issues s; st_storyboardedScenes := st_storyboardedScenes s; st_videoScenes := st_videoScenes s; st_voiceoverUrl := st_voiceoverUrl s; st_musicUrl := st_musicUrl s; st_trace := st_trace s; st_cancel_calls := st_cancel_calls s; st_plan_calls := st_plan_calls s; st_storyboard_calls := u (st_storyboard_calls s); st_video_calls := st_video_calls s; st_voiceover_calls := st_voiceover_calls s; st_music_calls := st_music_calls s |}.

Definition upd_video_calls (u : nat -> nat) (s : St) : St :=
  {| st_projectState := st_projectState s; st_logs := st_logs s; st_issues := st_issues s; st_storyboardedScenes := st_storyboardedScenes s; st_videoScenes := st_videoScenes s; st_voiceoverUrl := st_voiceoverUrl s; st_musicUrl := st_musicUrl s; st_trace := st_trace s; st_cancel_calls := st_cancel_calls s; st_plan_calls := st_plan_calls s; st_storyboard_calls := st_storyboard_calls s; st_video_calls := u (st_video_calls s); st_voiceover_calls := st_voiceover_calls s; st_music_calls := st_music_calls s |}.

Definition upd_voiceover_calls (u : nat -> nat) (s : St) : St :=
  {| st_projectState := st_projectState s; st_logs := st_logs s; st_issues := st_issues s; st_storyboardedScenes := st_storyboardedScenes s; st_videoScenes := st_videoScenes s; st_voiceoverUrl := st_voiceoverUrl s; st_musicUrl := st_musicUrl s; st_trace := st_trace s; st_cancel_calls := st_cancel_calls s; st_plan_calls := st_plan_calls s; st_storyboard_calls := st_storyboard_calls s; st_video_calls := st_video_calls s; st_voiceover_calls := u (st_voiceover_calls s); st_music_calls := st_music_calls s |}.

Definition upd_music_calls (u : nat -> nat) (s : St) : St :=
  {| st_projectState := st_projectState s; st_logs := st_logs s; st_issues := st_issues s; st_storyboardedScenes := st_storyboardedScenes s; st_videoScenes := st_videoScenes s; st_voiceoverUrl := st_voiceoverUrl s; st_musicUrl := st_musicUrl s; st_trace := st_trace s; st_cancel_calls := st_cancel_calls s; st_plan_calls := st_plan_calls s; st_storyboard_calls := st_storyboard_calls s; st_video_calls := st_video_calls s; st_voiceover_calls := st_voiceover_calls s; st_music_calls := u (st_music_calls s) |}.


Definition init_st : St :=
  {| st_projectState := None; st_logs := []; st_issues := []; st_storyboardedScenes := []; st_videoScenes := []; st_voiceoverUrl := None; st_musicUrl := None; st_trace := []; st_cancel_calls := 0; st_plan_calls := 0; st_storyboard_calls := 0; st_video_calls := 0; st_voiceover_calls := 0; st_music_calls := 0 |}.

(* ------------------------------------------------------------------ *)
(** ** State-and-exception monad *)

(** [PipelineCancelledError] or any other thrown JavaScript value. *)
Inductive exn := PipelineCancelledError | Raised (v : jsval).

Inductive res (A : Type) := Ok (a : A) | Err (e : exn).
Arguments Ok {A} a.
Arguments Err {A} e.

Definition M (A : Type) : Type := St -> St * res A.

Definition ret {A} (a : A) : M A := fun s => (s, Ok a).

Definition bind {A C} (m : M A) (f : A -> M C) : M C :=
  fun s => match m s with
           | (s', Ok a) => f a s'
           | (s', Err e) => (s', Err e)
           end.

Definition throw {A} (e : exn) : M A := fun s => (s, Err e).

(** [try { m } catch (e) { h(e) }]: effects done before the throw stay. *)
Definition try_catch {A} (m : M A) (h : exn -> M A) : M A :=
  fun s => match m s with
           | (s', Ok a) => (s', Ok a)
           | (s', Err e) => h e s'
           end.

Definition gets {A} (f : St -> A) : M A := fun s => (s, Ok (f s)).
Definition modify (f : St -> St) : M unit := fun s => (f s, Ok tt).

Notation "'let*' x ':=' c1 'in' c2" := (bind c1 (fun x => c2))
  (at level 61, x name, c1 at next level, right associativity).
Notation "c1 ;; c2" := (bind c1 (fun _ => c2)) (at level 61, right associativity).

(** [for (const x of l) body(x)] *)
Fixpoint for_each {A} (l : list A) (body : A -> M unit) : M unit :=
  match l with
  | [] => ret tt
  | x :: xs => body x ;; for_each xs body
  end.

(** The value a [catch] clause receives. *)
Definition exn_value (e : exn) : jsval :=
  match e with
  | PipelineCancelledError =>
      JErr "PipelineCancelledError" "Generation cancelled by user." None JUndef
  | Raised v => v
  end.

Definition push_event (ev : Event) : M unit :=
  modify (upd_trace (fun t => (t ++ [ev])%list)).

(* ------------------------------------------------------------------ *)
(** ** runGenerationPipeline (generationPipeline.ts, lines 167-544) *)

(** [url], [url || undefined] and [!url] for a [string | null | undefined] *)
Definition url_truthy (o : option string) : bool :=
  match o with Some s => negb (String.eqb s "") | None => false end.

Definition url_or_undefined (o : option string) : option string :=
  if url_truthy o then o else None.

Definition scene_ctx (sc : Scene) : jsval := JObj [("sceneId", JStr (id sc))].

Definition initial_project (p : Plan) (st : ProjectSettings) : AdProject :=
  {| title := plan_title p; concept := plan_concept p; musicMood := plan_musicMood p;
     fullScript := plan_fullScript p; script := plan_script p;
     characterProfile := plan_characterProfile p;
     visualStyleProfile := plan_visualStyleProfile p;
     (* [(plan.scenes || [])]: an array is truthy *)
     scenes := map (fun sc => set_status sc Pending) (plan_scenes p);
     voiceoverUrl := plan_voiceoverUrl p; musicUrl := plan_musicUrl p;
     visualAnchor := plan_visualAnchor p; ffmpegCommand := plan_ffmpegCommand p;
     isGenerating := true; currentPhase := Storyboarding;
     project_mode := Some (mode st) |}.

Section Pipeline.
Variable B : Builtins.
Variable options : GenerationPipelineOptions.

(** [pushLog]; the console output is not modelled. *)
Definition pushLog (level : PipelineLogLevel) (stage : PipelineStage) (message : jsval)
    (context : jsval) (error : jsval) : M unit :=
  let entry := {| le_stage := stage; le_level := level; le_message := message;
                  le_context := context; le_error := normalize_error B error |} in
  modify (upd_logs (fun l => (l ++ [entry])%list)) ;;
  push_event (EvLog entry).

Definition addIssue (issue : PipelineIssue) : M unit :=
  modify (upd_issues (fun l => (l ++ [issue])%list)) ;;
  pushLog (if is_recoverable issue then Warn else LError) (is_stage issue)
    (JStr (is_message issue))
    (match is_sceneId issue with
     | Some sid => if String.eqb sid "" then JUndef else JObj [("sceneId", JStr sid)]
     | None => JUndef
     end)
    (is_error issue).

Definition emitProviderDiagnostics (stage : PipelineStage)
    (diagnostics : list NormalizedProviderDiagnostic) (baseContext : jsval) : M unit :=
  for_each diagnostics (fun entry =>
    let mergedContext :=
      if truthy baseContext || truthy (nd_context entry)
      then spread_merge B (if truthy baseContext then baseContext else JObj [])
                          (if truthy (nd_context entry) then nd_context entry else JObj [])
      else JUndef in
    let message :=
      if truthy (nd_code entry)
      then JStr ("[" ++ js_string B (nd_code entry) ++ "] " ++ js_string B (nd_message entry))
      else nd_message entry in
    pushLog (nd_level entry) stage message mergedContext (nd_error entry)).

Definition updateProject (p : AdProject) : M unit :=
  modify (upd_projectState (fun _ => Some p)) ;;
  push_event (EvProjectUpdate p).

(** [if (projectState) updateProject(f(projectState))] *)
Definition update_if_state (f : AdProject -> AdProject) : M unit :=
  let* ps := gets st_projectState in
  match ps with
  | Some p => updateProject (f p)
  | None => ret tt
  end.

(** [projectState.scenes.map((s) => (s.id === sid ? g(s) : s))] *)
Definition map_scene (sid : string) (g : Scene -> Scene) (p : AdProject) : AdProject :=
  with_scenes p (map (fun s => if String.eqb (id s) sid then g s else s) (scenes p)).

Definition checkCancelled (stage : PipelineStage) : M unit :=
  match shouldCancel options with
  | None => ret tt
  | Some f =>
      let* k := gets st_cancel_calls in
      modify (upd_cancel_calls S) ;;
      if f k then pushLog Warn stage (JStr "Generation cancelled.") JUndef JUndef ;;
                  throw PipelineCancelledError
      else ret tt
  end.

Definition of_outcome {A} (o : outcome A) : M A :=
  match o with
  | Returns a => ret a
  | Throws e => throw (Raised e)
  end.

Definition call_plan : M Plan :=
  let* k := gets st_plan_calls in
  modify (upd_plan_calls S) ;;
  push_event (EvPlanCall k (prompt options)) ;;
  of_outcome (generateAdPlan (deps options) k (prompt options) (settings options) (files options)).

Definition call_storyboard (sc : Scene) : M jsval :=
  let* k := gets st_storyboard_calls in
  let ar := aspectRatio (settings options) in
  modify (upd_storyboard_calls S) ;;
  push_event (EvStoryboardCall k sc ar (visualAnchorDataUrl options)) ;;
  of_outcome (generateStoryboardImage (deps options) k sc ar (visualAnchorDataUrl options)).

Definition call_video (sc : Scene) : M jsval :=
  let* k := gets st_video_calls in
  let ar := aspectRatio (settings options) in
  modify (upd_video_calls S) ;;
  push_event (EvVideoCall k sc ar (storyboardUrl sc)) ;;
  of_outcome (generateVideoClip (deps options) k sc ar (storyboardUrl sc)).

Definition call_voiceover (plan : Plan) : M jsval :=
  let* k := gets st_voiceover_calls in
  modify (upd_voiceover_calls S) ;;
  push_event (EvVoiceoverCall k (plan_fullScript plan) (preferredVoice options) (plan_script plan)) ;;
  of_outcome (generateVoiceover (deps options) k (plan_fullScript plan)
                (preferredVoice options) (plan_script plan)).

(** [plan.musicMood || options.settings.musicTheme] *)
Definition music_mood (plan : Plan) : string :=
  if String.eqb (plan_musicMood plan) "" then musicTheme (settings options)
  else plan_musicMood plan.

Definition call_music (plan : Plan) : M jsval :=
  let* k := gets st_music_calls in
  modify (upd_music_calls S) ;;
  push_event (EvMusicCall k (music_mood plan)) ;;
  of_outcome (generateMusic (deps options) k (music_mood plan)).

Definition normalize_m (v : jsval) : M NormalizedAssetResult :=
  match normalizeAssetResult B v with
  | Some r => ret r
  | None => throw (Raised (nullish_read_error B))
  end.

Definition diag_error (fd : option NormalizedProviderDiagnostic) : jsval :=
  match fd with Some d => nd_error d | None => JUndef end.

(** [failureDiagnostic ? `<generic> ${failureDiagnostic.message}` : <alone>] *)
Definition issue_message (generic alone : string) (fd : option NormalizedProviderDiagnostic)
  : string :=
  match fd with
  | Some d => generic ++ " " ++ js_string B (nd_message d)
  | None => alone
  end.

(** The storyboard [try] block after [normalizeAssetResult] (lines 285-315). *)
Definition storyboard_result (scene : Scene) (storyboardResult : NormalizedAssetResult)
  : M unit :=
  emitProviderDiagnostics Storyboarding (na_diagnostics storyboardResult) (scene_ctx scene) ;;
  let storyboardUrl := na_url storyboardResult in
  let failureDiagnostic := selectPrimaryDiagnostic (na_diagnostics storyboardResult) in
  let nextScene := set_storyboardUrl scene (url_or_undefined storyboardUrl) in
  modify (upd_storyboardedScenes (fun l => (l ++ [nextScene])%list)) ;;
  (if negb (url_truthy storyboardUrl) then
     addIssue {| is_stage := Storyboarding; is_sceneId := Some (id scene);
                 is_message := issue_message "Storyboard generation returned no image."
                   "Storyboard generation returned no image. Continuing with fallback flow."
                   failureDiagnostic;
                 is_recoverable := true; is_error := diag_error failureDiagnostic |}
   else pushLog Info Storyboarding (JStr "Storyboard generated.") (scene_ctx scene) JUndef) ;;
  update_if_state (map_scene (id scene) (fun _ => nextScene)).

(** The storyboard [catch] block (lines 316-337). *)
Definition storyboard_failed (scene : Scene) (error : exn) : M unit :=
  let serialized := toSerializedError B (exn_value error) in
  addIssue {| is_stage := Storyboarding; is_sceneId := Some (id scene);
              is_message := "Storyboard generation failed. Continuing without storyboard.";
              is_recoverable := true; is_error := serialized |} ;;
  let nextScene := set_storyboardUrl scene None in
  modify (upd_storyboardedScenes (fun l => (l ++ [nextScene])%list)) ;;
  update_if_state (map_scene (id scene) (fun _ => nextScene)).

(** One iteration of the storyboard loop (lines 270-338). *)
Definition storyboard_step (scene : Scene) : M unit :=
  checkCancelled Storyboarding ;;
  pushLog Info Storyboarding (JStr "Generating storyboard.")
    (JObj [("sceneId", JStr (id scene)); ("order", JNum (order scene))]) JUndef ;;
  try_catch
    (let* raw := call_storyboard scene in
     let* storyboardResult := normalize_m raw in
     storyboard_result scene storyboardResult)
    (storyboard_failed scene).

(** The video [try] block after [normalizeAssetResult] (lines 375-411). *)
Definition video_result (scene : Scene) (videoResult : NormalizedAssetResult) : M unit :=
  emitProviderDiagnostics VideoProduction (na_diagnostics videoResult) (scene_ctx scene) ;;
  let videoUrl := na_url videoResult in
  let failureDiagnostic := selectPrimaryDiagnostic (na_diagnostics videoResult) in
  let nextScene := set_status (set_videoUrl scene (url_or_undefined videoUrl))
                     (if url_truthy videoUrl then Complete else Failed) in
  modify (upd_videoScenes (fun l => (l ++ [nextScene])%list)) ;;
  (if negb (url_truthy videoUrl) then
     addIssue {| is_stage := VideoProduction; is_sceneId := Some (id scene);
                 is_message := issue_message "Video generation returned no output."
                                 "Video generation returned no output." failureDiagnostic;
                 is_recoverable := true; is_error := diag_error failureDiagnostic |}
   else
     (if na_fallbackUsed videoResult then
        pushLog Warn VideoProduction (JStr "Video generation used a fallback mode.")
          (scene_ctx scene) JUndef
      else ret tt) ;;
     pushLog Info VideoProduction (JStr "Video clip generated.") (scene_ctx scene) JUndef) ;;
  update_if_state (map_scene (id scene) (fun _ => nextScene)).

(** The video [catch] block (lines 412-430). *)
Definition video_failed (scene : Scene) (error : exn) : M unit :=
  let serialized := toSerializedError B (exn_value error) in
  addIssue {| is_stage := VideoProduction; is_sceneId := Some (id scene);
              is_message := "Video generation failed.";
              is_recoverable := true; is_error := serialized |} ;;
  let nextScene := set_status scene Failed in
  modify (upd_videoScenes (fun l => (l ++ [nextScene])%list)) ;;
  update_if_state (map_scene (id scene) (fun _ => nextScene)).

(** One iteration of the video loop (lines 350-431). *)
Definition video_step (scene : Scene) : M unit :=
  checkCancelled VideoProduction ;;
  update_if_state (map_scene (id scene) (fun s => set_status s Generating)) ;;
  pushLog Info VideoProduction (JStr "Generating video clip.")
    (JObj [("sceneId", JStr (id scene)); ("hasStoryboard", JBool (url_truthy (storyboardUrl scene)))])
    JUndef ;;
  try_catch
    (let* raw := call_video scene in
     let* videoResult := normalize_m raw in
     video_result scene videoResult)
    (video_failed scene).

(** The voiceover [try] block after [normalizeAssetResult] (lines 447-461). *)
Definition voiceover_result (voiceoverResult : NormalizedAssetResult) : M unit :=
  emitProviderDiagnostics Voiceover (na_diagnostics voiceoverResult) JUndef ;;
  let failureDiagnostic := selectPrimaryDiagnostic (na_diagnostics voiceoverResult) in
  modify (upd_voiceoverUrl (fun _ => url_or_undefined (na_url voiceoverResult))) ;;
  let* voiceoverUrl := gets st_voiceoverUrl in
  if negb (url_truthy voiceoverUrl) then
    addIssue {| is_stage := Voiceover; is_sceneId := None;
                is_message := issue_message "Voiceover generation returned no audio."
                                "Voiceover generation returned no audio." failureDiagnostic;
                is_recoverable := true; is_error := diag_error failureDiagnostic |}
  else pushLog Info Voiceover (JStr "Voiceover generated.") JUndef JUndef.

Definition voiceover_failed (error : exn) : M unit :=
  let serialized := toSerializedError B (exn_value error) in
  addIssue {| is_stage := Voiceover; is_sceneId := None;
              is_message := "Voiceover generation failed.";
              is_recoverable := true; is_error := serialized |}.

(** Voiceover stage (lines 442-470). *)
Definition voiceover_stage (plan : Plan) : M unit :=
  try_catch
    (let* raw := call_voiceover plan in
     let* voiceoverResult := normalize_m raw in
     voiceover_result voiceoverResult)
    voiceover_failed.

(** The music [try] block after [normalizeAssetResult] (lines 486-509). *)
Definition music_result (musicResult : NormalizedAssetResult) : M unit :=
  emitProviderDiagnostics Scoring (na_diagnostics musicResult) JUndef ;;
  let failureDiagnostic := selectPrimaryDiagnostic (na_diagnostics musicResult) in
  modify (upd_musicUrl (fun _ => url_or_undefined (na_url musicResult))) ;;
  let* musicUrl := gets st_musicUrl in
  if negb (url_truthy musicUrl) then
    addIssue {| is_stage := Scoring; is_sceneId := None;
                is_message := issue_message "Music generation returned no audio."
                                "Music generation returned no audio." failureDiagnostic;
                is_recoverable := true; is_error := diag_error failureDiagnostic |}
  else if na_fallbackUsed musicResult then
    addIssue {| is_stage := Scoring; is_sceneId := None;
                is_message := issue_message "Music generation used fallback track."
                                "Music generation used fallback track." failureDiagnostic;
                is_recoverable := true; is_error := diag_error failureDiagnostic |}
  else pushLog Info Scoring (JStr "Music generated.") JUndef JUndef.

Definition music_failed (error : exn) : M unit :=
  let serialized := toSerializedError B (exn_value error) in
  addIssue {| is_stage := Scoring; is_sceneId := None;
              is_message := "Music generation failed.";
              is_recoverable := true; is_error := serialized |}.

(** Music stage (lines 481-518). *)
Definition music_stage (plan : Plan) : M unit :=
  try_catch
    (let* raw := call_music plan in
     let* musicResult := normalize_m raw in
     music_result musicResult)
    music_failed.

(** Lines 520-543. *)
Definition finalization (plan : Plan) : M GenerationPipelineRunResult :=
  let* ps := gets st_projectState in
  match ps with
  | None =>
      throw (Raised (JErr "Error" "Pipeline state error: project was not initialized."
                       None JUndef))
  | Some projectState =>
      let* videoScenes := gets st_videoScenes in
      let* voiceoverUrl := gets st_voiceoverUrl in
      let* musicUrl := gets st_musicUrl in
      let finalProject := finalize projectState videoScenes voiceoverUrl musicUrl in
      updateProject finalProject ;;
      let* issues := gets st_issues in
      pushLog Info Ready (JStr "Pipeline completed.")
        (JObj [("issueCount", JNum (Z.of_nat (length issues)))]) JUndef ;;
      let* logs := gets st_logs in
      ret {| rr_plan := plan; rr_project := finalProject; rr_scenes := videoScenes;
             rr_voiceoverUrl := voiceoverUrl; rr_musicUrl := musicUrl;
             rr_logs := logs; rr_issues := issues |}
  end.

(** The run after the plan is in hand (lines 250-543). *)
Definition after_plan (plan : Plan) : M GenerationPipelineRunResult :=
  checkCancelled Planning ;;
  let initialProject := initial_project plan (settings options) in
  modify (upd_projectState (fun _ => Some initialProject)) ;;
  push_event (EvProjectInitialized initialProject) ;;
  pushLog Info Storyboarding (JStr "Ad plan generated.")
    (JObj [("title", JStr (title initialProject));
           ("sceneCount", JNum (Z.of_nat (length (scenes initialProject))))]) JUndef ;;
  for_each (scenes initialProject) storyboard_step ;;
  checkCancelled VideoProduction ;;
  let* storyboardedScenes := gets st_storyboardedScenes in
  update_if_state (fun p => with_phase_scenes p VideoProduction storyboardedScenes) ;;
  for_each storyboardedScenes video_step ;;
  checkCancelled Voiceover ;;
  let* videoScenes := gets st_videoScenes in
  update_if_state (fun p => with_phase_scenes p Voiceover videoScenes) ;;
  voiceover_stage plan ;;
  checkCancelled Scoring ;;
  let* voiceoverUrl := gets st_voiceoverUrl in
  update_if_state (fun p => with_phase_voiceover p Scoring voiceoverUrl) ;;
  music_stage plan ;;
  finalization plan.

Definition runGenerationPipeline : M GenerationPipelineRunResult :=
  pushLog Info Planning (JStr "Pipeline started.") JUndef JUndef ;;
  checkCancelled Planning ;;
  let* plan := try_catch call_plan
                 (fun error =>
                    pushLog LError Planning (JStr "Failed to generate ad plan.") JUndef
                      (exn_value error) ;;
                    throw error) in
  after_plan plan.

End Pipeline.

(** A run from the empty state. *)
Definition run (B : Builtins) (options : GenerationPipelineOptions)
  : St * res GenerationPipelineRunResult :=
  runGenerationPipeline B options init_st.

Definition project_updates (t : list Event) : list AdProject :=
  flat_map (fun ev => match ev with EvProjectUpdate p => [p] | _ => [] end) t.

Definition project_inits (t : list Event) : list AdProject :=
  flat_map (fun ev => match ev with EvProjectInitialized p => [p] | _ => [] end) t.

(* ------------------------------------------------------------------ *)
(** ** Provider adapters (src/src/services/geminiService.ts) *)

Module GeminiService.

Inductive ProviderName := Gemini | Veo | Lyria.
Inductive ProviderOperation := OpStoryboard | OpVideo | OpVoiceover | OpMusic.

Record ProviderDiagnostic := {
  pd_level : PipelineLogLevel;
  pd_code : string;
  pd_message : string;
  pd_context : jsval;
  pd_error : jsval
}.

Record GeneratedAssetResult := {
  provider : ProviderName;
  operation : ProviderOperation;
  url : option string;
  fallbackUsed : bool;
  diagnostics : list ProviderDiagnostic
}.

Definition diagnostic (level : PipelineLogLevel) (code message : string) (context : jsval)
  : ProviderDiagnostic :=
  {| pd_level := level; pd_code := code; pd_message := message; pd_context := context;
     pd_error := JUndef |}.

Definition buildGeneratedAssetResult (p : ProviderName) (op : ProviderOperation)
    (u : option string) (ds : list ProviderDiagnostic) (fb : bool) : GeneratedAssetResult :=
  {| provider := p; operation := op; url := u; fallbackUsed := fb; diagnostics := ds |}.

(** *** parseDataUrl: [dataUrl.match(/^data:(.+);base64,(.+)$/)] *)

Definition is_line_terminator (c : ascii) : bool :=
  let n := nat_of_ascii c in Nat.eqb n 10 || Nat.eqb n 13.

Fixpoint no_line_terminator (s : string) : bool :=
  match s with
  | EmptyString => true
  | String c s' => negb (is_line_terminator c) && no_line_terminator s'
  end.

(** The greedy first group takes the longest prefix: the last position
    [i >= 1] of [";base64,"] that leaves a non-empty second group. *)
Fixpoint last_marker (r : string) (i : nat) : option nat :=
  match i with
  | 0 => None
  | S j =>
      if String.eqb (substring i 8 r) ";base64," && Nat.ltb (i + 8) (String.length r)
      then Some i else last_marker r j
  end.

Definition parseDataUrl (dataUrl : string) : option (string * string) :=
  if String.prefix "data:" dataUrl && no_line_terminator dataUrl then
    let r := substring 5 (String.length dataUrl - 5) dataUrl in
    match last_marker r (String.length r) with
    | Some i => Some (substring 0 i r, substring (i + 8) (String.length r - (i + 8)) r)
    | None => None
    end
  else None.

(** *** generateVideoClip (lines 561-635) *)

Record VideoAttemptResult := { va_url : option string; va_diagnostics : list ProviderDiagnostic }.

Definition nl : string := String (ascii_of_nat 10) EmptyString.

Fixpoint join (sep : string) (l : list string) : string :=
  match l with
  | [] => ""
  | [x] => x
  | x :: xs => x ++ sep ++ join sep xs
  end.

Definition or_str (a b : string) : string := if String.eqb a "" then b else a.

Definition veoPrompt (scene : Scene) : string :=
  let actionNotes := join ". " (map ab_notes (action_blocking scene)) in
  nl ++ "      Cinematic video." ++ nl
  ++ "      " ++ or_str actionNotes (or_str (visual_summary_prompt scene)
                  "Subject performs action in a cinematic commercial style.") ++ nl
  ++ "      Camera: " ++ or_str (cam_movement (camera scene)) "smooth tracking" ++ "." ++ nl
  ++ "      Lighting: " ++ or_str (env_lighting (environment scene)) "high-contrast cinematic"
  ++ "." ++ nl ++ "    ".

(** The text-only prompt: [`${scene.visual_summary_prompt || veoPrompt} (Cinematic, Photorealistic)`] *)
Definition textPrompt (scene : Scene) : string :=
  or_str (visual_summary_prompt scene) (veoPrompt scene) ++ " (Cinematic, Photorealistic)".

Section Video.
(** [hasApiKey()] *)
Variable hasApiKey : bool.
(** [internalGenerateVideo(ai, prompt, aspect, attemptLabel, imageInput)]: the
    Veo request, its bounded polling and the download, which never throws. *)
Variable internalGenerateVideo :
  string -> string -> string -> option (string * string) -> VideoAttemptResult.

Definition generateVideoClip (scene : Scene) (ar : AspectRatio)
    (sourceImageDataUrl : option string) : GeneratedAssetResult :=
  if negb hasApiKey then
    buildGeneratedAssetResult Veo OpVideo None
      [diagnostic LError "VEO_MISSING_API_KEY"
         "Missing Gemini API key. Set GEMINI_API_KEY before generating video."
         (scene_ctx scene)] false
  else
    let aspect := match ar with SixteenNine => "16:9" | NineSixteen => "9:16" end in
    (* ATTEMPT 1: either the finished result, or the diagnostics so far and
       [usedFallbackMode] *)
    let attempt1 :=
      match sourceImageDataUrl with
      | Some src =>
          if url_truthy (Some src) then
            match parseDataUrl src with
            | Some parsed =>
                let attempt := internalGenerateVideo (veoPrompt scene) aspect
                                 ("scene-" ++ id scene ++ "-image2video") (Some parsed) in
                if url_truthy (va_url attempt) then
                  inl (buildGeneratedAssetResult Veo OpVideo (va_url attempt)
                         (va_diagnostics attempt) false)
                else
                  inr ((va_diagnostics attempt ++
                        [diagnostic Warn "VEO_IMAGE_TO_VIDEO_FAILED"
                           "Image-to-video attempt failed. Falling back to text-to-video."
                           (scene_ctx scene)])%list, true)
            | None =>
                inr ([diagnostic Warn "VEO_SOURCE_IMAGE_PARSE_FAILED"
                        "Storyboard image could not be parsed. Falling back to text-to-video."
                        (scene_ctx scene)], true)
            end
          else inr ([], false)
      | None => inr ([], false)
      end in
    match attempt1 with
    | inl result => result
    | inr (diagnostics, usedFallbackMode) =>
        (* ATTEMPT 2: Text-to-Video *)
        let textAttempt := internalGenerateVideo (textPrompt scene) aspect
                             ("scene-" ++ id scene ++ "-text2video") None in
        buildGeneratedAssetResult Veo OpVideo (va_url textAttempt)
          (diagnostics ++ va_diagnostics textAttempt)%list usedFallbackMode
    end.

End Video.

(** *** getFallbackMusic (lines 750-765) *)

Definition MOOD_TRACKS : list (string * string) :=
  [("upbeat", "https://cdn.pixabay.com/download/audio/2024/05/20/audio_34b92569de.mp3?filename=uplifting-background-music-for-videos-corporates-presentations-205562.mp3");
   ("cinematic", "https://cdn.pixabay.com/download/audio/2022/10/25/audio_5119a9705a.mp3?filename=cinematic-atmosphere-score-2-21142.mp3");
   ("emotional", "https://cdn.pixabay.com/download/audio/2022/05/05/audio_13b5646142.mp3?filename=emotional-piano-110266.mp3");
   ("corporate", "https://cdn.pixabay.com/download/audio/2024/02/07/audio_4f0b2a7585.mp3?filename=corporate-music-189688.mp3");
   ("jazz", "https://cdn.pixabay.com/download/audio/2022/03/10/audio_5245842187.mp3?filename=smooth-jazz-110757.mp3")].

(** [String.prototype.toLowerCase] on ASCII text *)
Definition lower_char (c : ascii) : ascii :=
  let n := nat_of_ascii c in
  if Nat.leb 65 n && Nat.leb n 90 then ascii_of_nat (n + 32) else c.

Fixpoint toLowerCase (s : string) : string :=
  match s with
  | EmptyString => EmptyString
  | String c s' => String (lower_char c) (toLowerCase s')
  end.

(** [s.includes(sub)] *)
Fixpoint includes (s sub : string) : bool :=
  String.prefix sub s ||
  match s with
  | EmptyString => false
  | String _ s' => includes s' sub
  end.

Definition getFallbackMusic (mood : string) : option string :=
  let lowerMood := toLowerCase mood in
  if includes lowerMood "happy" || includes lowerMood "upbeat" then assoc "upbeat" MOOD_TRACKS
  else if includes lowerMood "business" || includes lowerMood "tech" then assoc "corporate" MOOD_TRACKS
  else if includes lowerMood "sad" || includes lowerMood "emotional" then assoc "emotional" MOOD_TRACKS
  else if includes lowerMood "jazz" then assoc "jazz" MOOD_TRACKS
  else assoc "cinematic" MOOD_TRACKS.

(** *** The object an adapter resolves with, as the pipeline receives it *)

(** [diagnostic(level, code, message, context, error)] with its [error] *)
Definition diagnostic_err (level : PipelineLogLevel) (code message : string) (context error : jsval)
  : ProviderDiagnostic :=
  {| pd_level := level; pd_code := code; pd_message := message; pd_context := context;
     pd_error := error |}.

(** [ProviderDiagnosticLevel] *)
Definition level_str (l : PipelineLogLevel) : string :=
  match l with Info => "info" | Warn => "warn" | LError => "error" end.

Definition provider_str (p : ProviderName) : string :=
  match p with Gemini => "gemini" | Veo => "veo" | Lyria => "lyria" end.

Definition operation_str (op : ProviderOperation) : string :=
  match op with
  | OpStoryboard => "storyboard" | OpVideo => "video" | OpVoiceover => "voiceover"
  | OpMusic => "music"
  end.

(** [{ level, code, message, context, error }]: an omitted [context] or
    [error] is a key holding [undefined]. *)
Definition diagnostic_js (d : ProviderDiagnostic) : jsval :=
  JObj [("level", JStr (level_str (pd_level d))); ("code", JStr (pd_code d));
        ("message", JStr (pd_message d)); ("context", pd_context d); ("error", pd_error d)].

(** [{ provider, operation, url, fallbackUsed, diagnostics }] *)
Definition result_js (r : GeneratedAssetResult) : jsval :=
  JObj [("provider", JStr (provider_str (provider r)));
        ("operation", JStr (operation_str (operation r)));
        ("url", match url r with Some s => JStr s | None => JNull end);
        ("fallbackUsed", JBool (fallbackUsed r));
        ("diagnostics", JArr (map diagnostic_js (diagnostics r)))].

(** *** generateStoryboardImage (lines 326-448) *)

(** A part of the request ([{ inlineData: { mimeType, data } }] or [{ text }]). *)
Inductive ContentPart := InlinePart (mimeType data : string) | TextPart (text : string).

(** The director's prompt (lines 370-387); [or_str a b] is [a || b]. *)
Definition storyboardPrompt (scene : Scene) : string :=
  nl ++ "      Create a photorealistic cinematic shot." ++ nl
  ++ "      " ++ nl
  ++ "      [CAMERA]: " ++ or_str (cam_framing (camera scene)) "Cinematic framing" ++ ", "
  ++ or_str (cam_movement (camera scene)) "Static" ++ ". " ++ or_str (cam_notes (camera scene)) ""
  ++ nl ++ "      " ++ nl
  ++ "      [LIGHTING & ATMOSPHERE]: " ++ or_str (env_lighting (environment scene)) "Natural light"
  ++ ", " ++ or_str (env_look (environment scene)) "Realistic" ++ "." ++ nl
  ++ "      " ++ nl
  ++ "      [LOCATION]: " ++ or_str (env_location (environment scene)) "Unknown" ++ "." ++ nl
  ++ "      " ++ nl
  ++ "      [SUBJECT]: " ++ or_str (ch_description (character scene)) "A person" ++ ". " ++ nl
  ++ "      - Hair: " ++ or_str (ch_hair (character scene)) "Natural" ++ nl
  ++ "      - Wardrobe: " ++ or_str (ch_wardrobe (character scene)) "Casual" ++ nl
  ++ "      - Face: " ++ or_str (ch_face (character scene)) "Neutral" ++ nl
  ++ "      " ++ nl
  ++ "      [ACTION]: " ++ join ". " (map ab_notes (action_blocking scene)) ++ nl
  ++ "      " ++ nl
  ++ "      [STYLE]: High-end commercial, 8k resolution, highly detailed." ++ nl
  ++ "    ".

(** The first part of the response with [inlineData]. *)
Fixpoint first_inline (ps : list (option (string * string))) : option (string * string) :=
  match ps with
  | [] => None
  | Some x :: _ => Some x
  | None :: ps' => first_inline ps'
  end.

Section Storyboard.
Variable hasApiKey : bool.
(** [ai.models.generateContent] for the image model, given the request
    parts and the aspect: the parts of [response.candidates?.[0]?.content?.parts || []],
    each with the [mimeType] and [data] of its [inlineData] if it has one,
    or the value it throws. *)
Variable generateContent : list ContentPart -> string -> outcome (list (option (string * string))).

Definition generateStoryboardImage (scene : Scene) (ar : AspectRatio)
    (visualAnchorDataUrl : option string) : GeneratedAssetResult :=
  if negb hasApiKey then
    buildGeneratedAssetResult Gemini OpStoryboard None
      [diagnostic LError "GEMINI_STORYBOARD_MISSING_API_KEY"
         "Missing Gemini API key. Set GEMINI_API_KEY before generating storyboards."
         (scene_ctx scene)] false
  else
    let aspect := match ar with SixteenNine => "16:9" | NineSixteen => "9:16" end in
    (* 1. the visual anchor: the parts pushed and the diagnostics so far *)
    let '(anchorParts, diagnostics) :=
      match visualAnchorDataUrl with
      | Some a =>
          if url_truthy (Some a) then
            match parseDataUrl a with
            | Some (mimeType, base64) =>
                ([InlinePart mimeType base64;
                  TextPart "REFERENCE IMAGE: Use the subject from this image. Keep their face and body consistent."],
                 [])
            | None =>
                ([], [diagnostic Warn "GEMINI_STORYBOARD_ANCHOR_PARSE_FAILED"
                        "Visual anchor could not be parsed. Continuing without reference image."
                        (scene_ctx scene)])
            end
          else ([], [])
      | None => ([], [])
      end in
    let parts := (anchorParts ++ [TextPart (storyboardPrompt scene)])%list in
    let ctx := JObj [("sceneId", JStr (id scene)); ("model", JStr "gemini-3-pro-image-preview")] in
    match generateContent parts aspect with
    | Throws e =>
        buildGeneratedAssetResult Gemini OpStoryboard None
          (diagnostics ++ [diagnostic_err LError "GEMINI_STORYBOARD_REQUEST_FAILED"
                             "Storyboard generation request failed." ctx e])%list false
    | Returns contentParts =>
        match first_inline contentParts with
        | Some (mimeType, data) =>
            buildGeneratedAssetResult Gemini OpStoryboard
              (Some ("data:" ++ mimeType ++ ";base64," ++ data)) diagnostics false
        | None =>
            buildGeneratedAssetResult Gemini OpStoryboard None
              (diagnostics ++ [diagnostic Warn "GEMINI_STORYBOARD_EMPTY_RESPONSE"
                                 "Gemini returned no storyboard image for this scene." ctx])%list
              false
        end
    end.

End Storyboard.

(** *** internalGenerateVideo (lines 457-559) *)

(** The fields of a Veo operation that the code reads: [done] and
    [response?.generatedVideos?.[0]?.video?.uri]. *)
Record Operation := { op_done : bool; op_videoUri : option string }.

(** A [fetch] response: [ok], [status], [statusText], and
    [URL.createObjectURL(await response.blob())] (or what [blob()] throws). *)
Record FetchResponse := {
  fr_ok : bool; fr_status : Z; fr_statusText : string; fr_objectUrl : outcome string
}.

Section Veo.
(** [process.env.API_KEY] *)
Variable apiKey : string.
(** [ai.models.generateVideos] given the prompt, the aspect and the image input *)
Variable generateVideos : string -> string -> option (string * string) -> outcome Operation.
(** [ai.operations.getVideosOperation] at poll number [k] *)
Variable getVideosOperation : nat -> Operation -> outcome Operation.
Variable fetch : string -> outcome FetchResponse.

(** [while (!operation.done) { polls += 1; if (polls > 90) ...; operation = await ... }]
    with [n = 90 - polls] polls left: [inl polls] is the time-out. *)
Fixpoint poll_loop (n polls : nat) (op : Operation) : outcome (nat + Operation) :=
  if op_done op then Returns (inr op)
  else match n with
       | 0 => Returns (inl (S polls))
       | S n' =>
           match getVideosOperation (S polls) op with
           | Returns op' => poll_loop n' (S polls) op'
           | Throws e => Throws e
           end
       end.

Definition internalGenerateVideo (prompt aspect attemptLabel : string)
    (imageInput : option (string * string)) : VideoAttemptResult :=
  let label := JObj [("attemptLabel", JStr attemptLabel)] in
  let failed e :=
    {| va_url := None;
       va_diagnostics := [diagnostic_err LError "VEO_REQUEST_FAILED"
                            "Video generation attempt failed." label e] |} in
  match generateVideos prompt aspect imageInput with
  | Throws e => failed e
  | Returns operation =>
      match poll_loop 90 0 operation with
      | Throws e => failed e
      | Returns (inl polls) =>
          {| va_url := None;
             va_diagnostics :=
               [diagnostic Warn "VEO_POLL_TIMEOUT"
                  "Video generation timed out while polling the Veo operation."
                  (JObj [("attemptLabel", JStr attemptLabel); ("polls", JNum (Z.of_nat polls))])] |}
      | Returns (inr operation') =>
          match op_videoUri operation' with
          | Some videoUri =>
              if url_truthy (Some videoUri) then
                match fetch (videoUri ++ "&key=" ++ apiKey) with
                | Throws e => failed e
                | Returns response =>
                    if negb (fr_ok response) then
                      {| va_url := None;
                         va_diagnostics :=
                           [diagnostic LError "VEO_DOWNLOAD_FAILED"
                              "Veo generated a video URI, but downloading the asset failed."
                              (JObj [("attemptLabel", JStr attemptLabel);
                                     ("status", JNum (fr_status response));
                                     ("statusText", JStr (fr_statusText response))])] |}
                    else
                      match fr_objectUrl response with
                      | Throws e => failed e
                      | Returns u => {| va_url := Some u; va_diagnostics := [] |}
                      end
                end
              else
                {| va_url := None;
                   va_diagnostics :=
                     [diagnostic Warn "VEO_EMPTY_VIDEO_URI"
                        "Veo operation completed without returning a downloadable video URL."
                        label] |}
          | None =>
              {| va_url := None;
                 va_diagnostics :=
                   [diagnostic Warn "VEO_EMPTY_VIDEO_URI"
                      "Veo operation completed without returning a downloadable video URL."
                      label] |}
          end
      end
  end.

End Veo.

(** *** parsePcmMimeType (lines 122-134) *)

Definition is_digit (c : ascii) : bool :=
  let n := nat_of_ascii c in Nat.leb 48 n && Nat.leb n 57.

(** [\d*] from the start of [s], greedy *)
Fixpoint digits_prefix (s : string) : string :=
  match s with
  | EmptyString => EmptyString
  | String c s' => if is_digit c then String c (digits_prefix s') else EmptyString
  end.

(** [s.match(/<key>(\d+)/)?.[1]]: the group at the leftmost position where
    [key] is followed by at least one digit. *)
Fixpoint match_digits_after (key s : string) : option string :=
  let here :=
    if String.prefix key s
    then digits_prefix (substring (String.length key) (String.length s - String.length key) s)
    else EmptyString in
  if negb (String.eqb here "") then Some here
  else match s with
       | EmptyString => None
       | String _ s' => match_digits_after key s'
       end.

(** [Number(digits)] for a string of decimal digits *)
Fixpoint decimal_value_acc (acc : Z) (s : string) : Z :=
  match s with
  | EmptyString => acc
  | String c s' => decimal_value_acc (10 * acc + (Z.of_nat (nat_of_ascii c) - 48))%Z s'
  end.

Definition decimal_value (s : string) : Z := decimal_value_acc 0%Z s.

(** [{ sampleRate, channels }] or [null] *)
Definition parsePcmMimeType (mimeType : option string) : option (Z * Z) :=
  match mimeType with
  | None => None
  | Some m =>
      if String.eqb m "" then None
      else
        let lowerMime := toLowerCase m in
        if negb (includes lowerMime "l16") && negb (includes lowerMime "pcm") then None
        else
          Some (match match_digits_after "rate=" lowerMime with
                | Some d => decimal_value d
                | None => 24000%Z
                end,
                match match_digits_after "channels=" lowerMime with
                | Some d => decimal_value d
                | None => 1%Z
                end)
  end.

(** *** createWavHeader (lines 34-61) *)

(** A [DataView] over the 44-byte [ArrayBuffer]: byte [i] of the list is
    byte [i] of the buffer, each in [0, 255].  Writing past the end (a
    [RangeError] in JavaScript) never happens in [createWavHeader]: all its
    writes fall inside the 44 bytes. *)
Fixpoint store (off : nat) (bs : list Z) (buf : list Z) : list Z :=
  match off, buf with
  | 0, _ => (bs ++ skipn (List.length bs) buf)%list
  | S off', b :: buf' => b :: store off' bs buf'
  | S _, [] => []
  end.

(** [view.setUint8(offset + i, string.charCodeAt(i))] for each [i] *)
Definition writeString (off : nat) (s : string) (buf : list Z) : list Z :=
  store off (map (fun c => Z.of_nat (nat_of_ascii c)) (list_ascii_of_string s)) buf.

(** [view.setUint32(off, v, true)]: [ToUint32], little-endian *)
Definition setUint32 (off : nat) (v : Z) (buf : list Z) : list Z :=
  let w := (v mod 2 ^ 32)%Z in
  store off [Z.land w 255; Z.land (Z.shiftr w 8) 255; Z.land (Z.shiftr w 16) 255;
             Z.land (Z.shiftr w 24) 255]%Z buf.

(** [view.setUint16(off, v, true)]: [ToUint16], little-endian *)
Definition setUint16 (off : nat) (v : Z) (buf : list Z) : list Z :=
  let w := (v mod 2 ^ 16)%Z in
  store off [Z.land w 255; Z.land (Z.shiftr w 8) 255]%Z buf.

(** For integral arguments. *)
Definition createWavHeader (sampleRate numChannels numFrames : Z) : list Z :=
  let blockAlign := (numChannels * 2)%Z in
  let byteRate := (sampleRate * blockAlign)%Z in
  let dataSize := (numFrames * blockAlign)%Z in
  let buffer := repeat 0%Z 44 in
  let buffer := writeString 0 "RIFF" buffer in
  let buffer := setUint32 4 (36 + dataSize)%Z buffer in
  let buffer := writeString 8 "WAVE" buffer in
  let buffer := writeString 12 "fmt " buffer in
  let buffer := setUint32 16 16%Z buffer in
  let buffer := setUint16 20 1%Z buffer in
  let buffer := setUint16 22 numChannels buffer in
  let buffer := setUint32 24 sampleRate buffer in
  let buffer := setUint32 28 byteRate buffer in
  let buffer := setUint16 32 blockAlign buffer in
  let buffer := setUint16 34 16%Z buffer in
  let buffer := writeString 36 "data" buffer in
  setUint32 40 dataSize buffer.

(** *** generateVoiceover (lines 639-748) *)

Definition voice_name (v : TTSVoice) : string :=
  match v with
  | Puck => "Puck" | Charon => "Charon" | Kore => "Kore" | Fenrir => "Fenrir"
  | Zephyr => "Zephyr" | Aoede => "Aoede"
  end.

Definition availableVoices : list string := ["Puck"; "Charon"; "Kore"; "Fenrir"; "Zephyr"; "Aoede"].

(** [Array.from(new Set(xs))]: first occurrences, in order *)
Fixpoint unique_from (seen : list string) (xs : list string) : list string :=
  match xs with
  | [] => []
  | x :: xs' => if existsb (String.eqb x) seen then unique_from seen xs'
                else x :: unique_from (x :: seen) xs'
  end.

(** [uniqueSpeakers.map((speaker, idx) => ...availableVoices[idx % 6]...)] *)
Fixpoint speakerVoiceConfigs_from (idx : nat) (speakers : list string) : list (string * string) :=
  match speakers with
  | [] => []
  | sp :: sps => (sp, nth (idx mod List.length availableVoices) availableVoices "")
                   :: speakerVoiceConfigs_from (S idx) sps
  end.

(** [config.speechConfig]: one prebuilt voice, or one per speaker *)
Inductive SpeechConfig :=
| VoiceConfig (voiceName : string)
| MultiSpeakerVoiceConfig (speakerVoiceConfigs : list (string * string)).

(** [`${d.speaker}: ${d.text}`] *)
Definition dialogue_line (d : DialogueLine) : string := speaker d ++ ": " ++ text d.

(** [promptContent] and [config.speechConfig] (lines 666-686) *)
Definition tts_request (text : string) (voice : TTSVoice) (dialogue : option (list DialogueLine))
  : string * SpeechConfig :=
  match dialogue with
  | Some ds =>
      if negb (Nat.eqb (List.length ds) 0) then
        let uniqueSpeakers := unique_from [] (map speaker ds) in
        if Nat.ltb 1 (List.length uniqueSpeakers) then
          (join nl (map dialogue_line ds),
           MultiSpeakerVoiceConfig (speakerVoiceConfigs_from 0 uniqueSpeakers))
        else (text, VoiceConfig (voice_name voice))
      else (text, VoiceConfig (voice_name voice))
  | None => (text, VoiceConfig (voice_name voice))
  end.

(** The blobs the code builds: [pcmToWavBlob(rawAudio, sampleRate, channels)]
    and [new Blob([rawAudio], { type })]. *)
Inductive AudioBlob :=
| WavBlob (pcm : list Z) (sampleRate channels : Z)
| RawBlob (bytes : list Z) (type : string).

Section TTS.
Variable hasApiKey : bool.
(** [ai.models.generateContent] for the TTS model given [promptContent] and
    the speech config: the [inlineData] of the first part that has one,
    as its [mimeType] and [data], or the value it throws. *)
Variable generateSpeech :
  string -> SpeechConfig -> outcome (option (option string * option string)).
(** [base64ToUint8Array]: [atob] throws on malformed input *)
Variable base64ToUint8Array : string -> outcome (list Z).
Variable createObjectURL : AudioBlob -> string.

Definition generateVoiceover (text : string) (voice : TTSVoice)
    (dialogue : option (list DialogueLine)) : GeneratedAssetResult :=
  if negb hasApiKey then
    buildGeneratedAssetResult Gemini OpVoiceover None
      [diagnostic LError "GEMINI_TTS_MISSING_API_KEY"
         "Missing Gemini API key. Set GEMINI_API_KEY before generating voiceover." JUndef] false
  else if String.eqb text ""
          && match dialogue with None => true | Some ds => Nat.eqb (List.length ds) 0 end then
    buildGeneratedAssetResult Gemini OpVoiceover None
      [diagnostic Warn "GEMINI_TTS_EMPTY_INPUT"
         "No script content provided for voiceover generation." JUndef] false
  else
    let failed e :=
      buildGeneratedAssetResult Gemini OpVoiceover None
        [diagnostic_err LError "GEMINI_TTS_REQUEST_FAILED"
           "Voiceover generation request failed." JUndef e] false in
    let '(promptContent, config) := tts_request text voice dialogue in
    match generateSpeech promptContent config with
    | Throws e => failed e
    | Returns inlineAudio =>
        let mimeType := match inlineAudio with Some (m, _) => m | None => None end in
        match inlineAudio with
        | Some (_, Some base64Audio) =>
            if url_truthy (Some base64Audio) then
              match base64ToUint8Array base64Audio with
              | Throws e => failed e
              | Returns rawAudio =>
                  match parsePcmMimeType mimeType with
                  | Some (sampleRate, channels) =>
                      buildGeneratedAssetResult Gemini OpVoiceover
                        (Some (createObjectURL (WavBlob rawAudio sampleRate channels))) [] false
                  | None =>
                      buildGeneratedAssetResult Gemini OpVoiceover
                        (Some (createObjectURL
                                 (RawBlob rawAudio (match mimeType with
                                                    | Some m => or_str m "audio/wav"
                                                    | None => "audio/wav"
                                                    end)))) [] false
                  end
              end
            else
              buildGeneratedAssetResult Gemini OpVoiceover None
                [diagnostic Warn "GEMINI_TTS_EMPTY_AUDIO"
                   "Gemini TTS responded without inline audio data." JUndef] false
        | _ =>
            buildGeneratedAssetResult Gemini OpVoiceover None
              [diagnostic Warn "GEMINI_TTS_EMPTY_AUDIO"
                 "Gemini TTS responded without inline audio data." JUndef] false
        end
    end.

End TTS.

(** *** Vocabulary of the adapter properties *)

(** The entry [normalizeAssetResult] makes of a diagnostic the adapter built *)
Definition normalized_diagnostic (B : Builtins) (d : ProviderDiagnostic) : NormalizedProviderDiagnostic :=
  {| nd_level := pd_level d; nd_code := JStr (pd_code d); nd_message := JStr (pd_message d);
     nd_context := pd_context d; nd_error := normalize_error B (pd_error d) |}.

(** The string is a run of decimal digits, [/^\d*$/] *)
Definition all_digits (s : string) : bool := forallb is_digit (list_ascii_of_string s).

(** No suffix of [p] is compatible with the start of [key]: [key] can only be
    matched after [p]. *)
Fixpoint skips (key p : string) : bool :=
  match p with
  | EmptyString => true
  | String _ p' => negb (String.prefix key p) && negb (String.prefix p key) && skips key p'
  end.

(** Little-endian reads of the bytes of a header, and the four-byte tags *)
(** Little-endian reads of the header bytes *)
Definition read_u16 (h : list Z) (off : nat) : Z :=
  (nth off h 0 + 256 * nth (off + 1) h 0)%Z.
Definition read_u32 (h : list Z) (off : nat) : Z :=
  (nth off h 0 + 256 * nth (off + 1) h 0 + 65536 * nth (off + 2) h 0 + 16777216 * nth (off + 3) h 0)%Z.
Definition read_tag (h : list Z) (off : nat) : list Z := firstn 4 (skipn off h).
Definition char_codes (s : string) : list Z := map (fun c => Z.of_nat (nat_of_ascii c)) (list_ascii_of_string s).

End GeminiService.

(* ------------------------------------------------------------------ *)
(** ** Vocabulary of the properties *)


(** The order [planning < storyboarding < video_production < voiceover <
    scoring < ready]; [mixing] is not part of it. *)
Definition phase_rank (p : PipelineStage) : option nat :=
  match p with
  | Planning => Some 0 | Storyboarding => Some 1 | VideoProduction => Some 2
  | Voiceover => Some 3 | Scoring => Some 4 | Ready => Some 5 | Mixing => None
  end.

Definition phase_le (a b : PipelineStage) : Prop :=
  match phase_rank a, phase_rank b with
  | Some x, Some y => x <= y
  | _, _ => False
  end.

(** [b] is [a] with at most [storyboardUrl], [videoUrl] and [status] changed. *)
Definition same_except_media_status (a b : Scene) : Prop :=
  id b = id a /\ order b = order a /\ duration b = duration a /\
  character b = character a /\ environment b = environment a /\ camera b = camera a /\
  action_blocking b = action_blocking a /\ visual_summary_prompt b = visual_summary_prompt a /\
  textOverlay b = textOverlay a /\ overlayConfig b = overlayConfig a.

Definition settled (sc : Scene) : Prop := status sc = Complete \/ status sc = Failed.

(** The stage (and, for a per-scene stage, the scene id) of an adapter call
    recorded in the trace whose result normalizes to a [null] url. *)
Definition null_url (B : Builtins) (o : outcome jsval) : bool :=
  match o with
  | Returns v => match normalizeAssetResult B v with
                 | Some r => match na_url r with None => true | Some _ => false end
                 | None => false
                 end
  | Throws _ => false
  end.

Definition null_url_call (B : Builtins) (d : Deps) (ev : Event)
  : option (PipelineStage * option string) :=
  match ev with
  | EvStoryboardCall k sc ar a =>
      if null_url B (generateStoryboardImage d k sc ar a) then Some (Storyboarding, Some (id sc))
      else None
  | EvVideoCall k sc ar u =>
      if null_url B (generateVideoClip d k sc ar u) then Some (VideoProduction, Some (id sc))
      else None
  | EvVoiceoverCall k t v dl =>
      if null_url B (generateVoiceover d k t v dl) then Some (Voiceover, None) else None
  | EvMusicCall k m =>
      if null_url B (generateMusic d k m) then Some (Scoring, None) else None
  | _ => None
  end.

(** An issue of that stage (and scene). *)
Definition issue_matches (key : PipelineStage * option string) (iss : PipelineIssue) : Prop :=
  is_stage iss = fst key /\
  match snd key with Some sid => is_sceneId iss = Some sid | None => True end.

(** The same result, with its url replaced. *)
Definition with_url (r : NormalizedAssetResult) (u : option string) : NormalizedAssetResult :=
  {| na_url := u; na_fallbackUsed := na_fallbackUsed r; na_diagnostics := na_diagnostics r |}.

(** Two adapter outcomes that are equal, or that normalize to the same
    result except that the first has url [""] and the second [null]. *)
Definition empty_vs_null (B : Builtins) (o1 o2 : outcome jsval) : Prop :=
  o1 = o2 \/
  exists v1 v2 r, o1 = Returns v1 /\ o2 = Returns v2 /\
    normalizeAssetResult B v1 = Some (with_url r (Some "")) /\
    normalizeAssetResult B v2 = Some (with_url r None).

Definition deps_empty_vs_null (B : Builtins) (d1 d2 : Deps) : Prop :=
  generateAdPlan d1 = generateAdPlan d2 /\
  (forall k sc ar a, empty_vs_null B (generateStoryboardImage d1 k sc ar a)
                                     (generateStoryboardImage d2 k sc ar a)) /\
  (forall k sc ar u, empty_vs_null B (generateVideoClip d1 k sc ar u)
                                     (generateVideoClip d2 k sc ar u)) /\
  (forall k t v dl, empty_vs_null B (generateVoiceover d1 k t v dl)
                                    (generateVoiceover d2 k t v dl)) /\
  (forall k m, empty_vs_null B (generateMusic d1 k m) (generateMusic d2 k m)).

Definition with_deps (o : GenerationPipelineOptions) (d : Deps) : GenerationPipelineOptions :=
  {| prompt := prompt o; settings := settings o; files := files o;
     visualAnchorDataUrl := visualAnchorDataUrl o; preferredVoice := preferredVoice o;
     shouldCancel := shouldCancel o; deps := d |}.

(** The cancellation predicate is absent or never true. *)
Definition never_cancels (o : GenerationPipelineOptions) : Prop :=
  match shouldCancel o with None => True | Some f => forall k, f k = false end.

(** Case-insensitive substring test, and the mood table as the spec words it:
    keyword groups in priority order, the first group with a keyword in the
    mood wins, the cinematic track otherwise. *)
Fixpoint prefix_ci (p s : string) : bool :=
  match p, s with
  | EmptyString, _ => true
  | String c p', String d s' =>
      Ascii.eqb (GeminiService.lower_char c) (GeminiService.lower_char d) && prefix_ci p' s'
  | String _ _, EmptyString => false
  end.

Fixpoint includes_ci (s p : string) : bool :=
  prefix_ci p s || match s with EmptyString => false | String _ s' => includes_ci s' p end.

Definition mood_keyword_table : list (list string * string) :=
  [(["happy"; "upbeat"], "upbeat"); (["business"; "tech"], "corporate");
   (["sad"; "emotional"], "emotional"); (["jazz"], "jazz")].

Fixpoint first_matching_track (mood : string) (t : list (list string * string)) : string :=
  match t with
  | [] => "cinematic"
  | (kws, track) :: t' =>
      if existsb (includes_ci mood) kws then track else first_matching_track mood t'
  end.

(** What the proofs track of a state: everything but the logs and the call
    counters, and the trace without its log events. *)
Definition not_log (ev : Event) : bool := match ev with EvLog _ => false | _ => true end.

Record View := {
  v_ps : option AdProject;
  v_issues : list PipelineIssue;
  v_sb : list Scene;
  v_vid : list Scene;
  v_vo : option string;
  v_mu : option string;
  v_events : list Event;
  v_plan_calls : nat
}.

Definition view (s : St) : View :=
  {| v_ps := st_projectState s; v_issues := st_issues s; v_sb := st_storyboardedScenes s;
     v_vid := st_videoScenes s; v_vo := st_voiceoverUrl s; v_mu := st_musicUrl s;
     v_events := filter not_log (st_trace s); v_plan_calls := st_plan_calls s |}.

Definition vadd_issue (V : View) (i : PipelineIssue) : View :=
  {| v_ps := v_ps V; v_issues := (v_issues V ++ [i])%list; v_sb := v_sb V; v_vid := v_vid V;
     v_vo := v_vo V; v_mu := v_mu V; v_events := v_events V; v_plan_calls := v_plan_calls V |}.

Definition vadd_event (V : View) (ev : Event) : View :=
  {| v_ps := v_ps V; v_issues := v_issues V; v_sb := v_sb V; v_vid := v_vid V;
     v_vo := v_vo V; v_mu := v_mu V; v_events := (v_events V ++ [ev])%list;
     v_plan_calls := v_plan_calls V |}.

Definition vupdate_if (V : View) (f : AdProject -> AdProject) : View :=
  match v_ps V with
  | Some p =>
      {| v_ps := Some (f p); v_issues := v_issues V; v_sb := v_sb V; v_vid := v_vid V;
         v_vo := v_vo V; v_mu := v_mu V;
         v_events := (v_events V ++ [EvProjectUpdate (f p)])%list;
         v_plan_calls := v_plan_calls V |}
  | None => V
  end.

(** The phases of the projects broadcast so far never go back. *)
Definition phases_ok (V : View) : Prop :=
  Sorted phase_le (map currentPhase (project_updates (v_events V))).

(** ... and none is past the current project's phase, itself of rank at most [k]. *)
Definition phase_inv (k : nat) (V : View) : Prop :=
  phases_ok V /\
  match v_ps V with
  | None => project_updates (v_events V) = []
  | Some p =>
      exists r, phase_rank (currentPhase p) = Some r /\ r <= k /\
        Forall (fun u => phase_le (currentPhase u) (currentPhase p))
          (project_updates (v_events V))
  end.

(** Every adapter call so far whose result normalized to a [null] url has an
    issue of its stage (and scene). *)
Definition covered (B : Builtins) (d : Deps) (V : View) : Prop :=
  forall ev key, In ev (v_events V) -> null_url_call B d ev = Some key ->
    Exists (issue_matches key) (v_issues V).

Definition wp {A} (m : M A) (Q : A -> St -> Prop) (E : exn -> St -> Prop) (s : St) : Prop :=
  match m s with
  | (s', Ok a) => Q a s'
  | (s', Err e) => E e s'
  end.

(** *** Invariants of a run *)

(** What [keeps P R m] says: from a state where [P] holds, [m] ends in a
    state where [P] holds, and its value satisfies [R]. *)
Definition keeps {A} (P : St -> Prop) (R : A -> Prop) (m : M A) : Prop :=
  forall s, P s -> wp m (fun a s' => P s' /\ R a) (fun _ s' => P s') s.

Definition ktrue {A} (_ : A) : Prop := True.

Definition scene_ok (sc : Scene) : Prop :=
  storyboardUrl sc <> Some "" /\ (status sc = Complete -> url_truthy (videoUrl sc) = true).

Definition pipeline_inv (s : St) : Prop :=
  Forall (fun i => is_recoverable i = true) (st_issues s) /\
  st_voiceoverUrl s <> Some "" /\ st_musicUrl s <> Some "" /\
  Forall (fun sc => storyboardUrl sc <> Some "") (st_storyboardedScenes s) /\
  Forall scene_ok (st_videoScenes s).

Definition result_ok (r : GenerationPipelineRunResult) : Prop :=
  Forall (fun i => is_recoverable i = true) (rr_issues r) /\
  rr_voiceoverUrl r <> Some "" /\ rr_musicUrl r <> Some "" /\
  voiceoverUrl (rr_project r) = rr_voiceoverUrl r /\ musicUrl (rr_project r) = rr_musicUrl r /\
  Forall scene_ok (rr_scenes r).

(* ------------------------------------------------------------------ *)
(** ** Concrete runs *)

(** Builtins: any choice will do for the runs below. *)
Definition ex_builtins : Builtins :=
  {| js_string := fun _ => ""; json_stringify := fun _ => Some None;
     spread_merge := fun a _ => a; nullish_read_error := JStr "TypeError" |}.

Definition ex_scene (sid : string) : Scene :=
  {| id := sid; order := 1%Z; duration := Dur4;
     character := {| ch_name := "Ava"; ch_description := ""; ch_hair := ""; ch_face := "";
                     ch_wardrobe := "" |};
     environment := {| env_location := "studio"; env_look := ""; env_lighting := "";
                       env_background_motion := "" |};
     camera := {| cam_framing := "wide"; cam_movement := ""; cam_notes := "" |};
     action_blocking := []; visual_summary_prompt := "A product shot.";
     textOverlay := ""; overlayConfig := None; status := Pending;
     storyboardUrl := None; videoUrl := None |}.

Definition ex_plan : Plan :=
  {| plan_title := "Ad"; plan_concept := "c"; plan_musicMood := "upbeat";
     plan_fullScript := "Hello."; plan_script := None; plan_characterProfile := None;
     plan_visualStyleProfile := None; plan_scenes := [ex_scene "s1"; ex_scene "s2"];
     plan_voiceoverUrl := None; plan_musicUrl := None; plan_visualAnchor := None;
     plan_ffmpegCommand := None |}.

Definition ex_settings : ProjectSettings :=
  {| customScript := ""; musicTheme := "cinematic"; useTextOverlays := OverlaysAuto;
     textOverlayFont := None; settings_preferredVoice := VoiceAuto;
     aspectRatio := SixteenNine; mode := Commercial |}.

(** Adapters: the storyboard of [s1] comes back with a [null] url, that of
    [s2] as a bare string; the first video call throws, the second returns
    a structured result; the voiceover is [""] and the music a string. *)
Definition ex_deps (storyboard_s1 : jsval) : Deps :=
  {| generateAdPlan := fun _ _ _ _ => Returns ex_plan;
     generateStoryboardImage := fun k _ _ _ =>
       if Nat.eqb k 0 then Returns storyboard_s1 else Returns (JStr "data:image/png;base64,AAAA");
     generateVideoClip := fun k _ _ _ =>
       if Nat.eqb k 0 then Throws (JStr "quota")
       else Returns (JObj [("url", JStr "blob:v2"); ("fallbackUsed", JBool true);
                           ("diagnostics", JArr [])]);
     generateVoiceover := fun _ _ _ _ => Returns (JStr "");
     generateMusic := fun _ _ => Returns (JStr "music.mp3") |}.

Definition ex_options (cancel : option (nat -> bool)) (d : Deps) : GenerationPipelineOptions :=
  {| prompt := "An ad"; settings := ex_settings; files := []; visualAnchorDataUrl := None;
     preferredVoice := Puck; shouldCancel := cancel; deps := d |}.

(** A Veo stand-in that succeeds and answers with its attempt label. *)
Definition ex_internalGenerateVideo (p aspect label : string) (img : option (string * string))
  : GeminiService.VideoAttemptResult :=
  {| GeminiService.va_url := Some label; GeminiService.va_diagnostics := [] |}.

(** The plan adapter fails; the other adapters are those of [ex_deps JNull]. *)
Definition ex_deps_plan_down : Deps :=
  {| generateAdPlan := fun _ _ _ _ => Throws (JStr "planner offline");
     generateStoryboardImage := generateStoryboardImage (ex_deps JNull);
     generateVideoClip := generateVideoClip (ex_deps JNull);
     generateVoiceover := generateVoiceover (ex_deps JNull);
     generateMusic := generateMusic (ex_deps JNull) |}.

(** Stand-ins for the Gemini SDK and the browser in the adapter runs below. *)
Module GeminiExamples.
Import GeminiService.

(** Builtins whose [JSON.stringify] serializes every value. *)
Definition ex_builtins_json : Builtins :=
  {| js_string := fun _ => "7"; json_stringify := fun _ => Some (Some "7");
     spread_merge := fun a _ => a; nullish_read_error := JStr "TypeError" |}.

Definition ex_null_result : GeneratedAssetResult :=
  buildGeneratedAssetResult Veo OpVideo None
    [diagnostic Info "VEO_NOTE" "note" JUndef;
     diagnostic Warn "VEO_POLL_TIMEOUT" "Video generation timed out while polling the Veo operation." JUndef]
    false.

(** [generateContent] answering with one inline image after a text part. *)
Definition ex_generateContent (parts : list ContentPart) (aspect : string)
  : outcome (list (option (string * string))) :=
  Returns [None; Some ("image/png", "AAAA")].

Definition ex_pending_op : Operation := {| op_done := false; op_videoUri := None |}.

Definition ex_generateVideos (prompt aspect : string) (img : option (string * string)) : outcome Operation :=
  Returns ex_pending_op.

Definition ex_generateVideos_down (prompt aspect : string) (img : option (string * string))
  : outcome Operation :=
  Throws (JStr "quota").

(** An operation that never finishes. *)
Definition ex_poll_pending (k : nat) (op : Operation) : outcome Operation := Returns ex_pending_op.

(** Two pollers that agree up to the 90th poll only. *)
Definition ex_poll_limited (k : nat) (op : Operation) : outcome Operation :=
  if Nat.leb k 90 then Returns op else Throws (JStr "poll 91").
Definition ex_poll_same (k : nat) (op : Operation) : outcome Operation := Returns op.

Definition ex_fetch (u : string) : outcome FetchResponse :=
  Returns {| fr_ok := true; fr_status := 200%Z; fr_statusText := "OK"; fr_objectUrl := Returns "blob:video" |}.

Definition ex_dialogue : list DialogueLine :=
  [{| speaker := "Ava"; text := "Hi." |}; {| speaker := "Ben"; text := "Hello." |};
   {| speaker := "Ava"; text := "Bye." |}].

Definition ex_generateSpeech (prompt : string) (cfg : SpeechConfig)
  : outcome (option (option string * option string)) :=
  Returns (Some (Some "audio/L16;codec=pcm;rate=24000", Some "AAAA")).

Definition ex_base64ToUint8Array (b : string) : outcome (list Z) := Returns [0; 0; 0]%Z.

Definition ex_createObjectURL (b : AudioBlob) : string :=
  match b with WavBlob _ _ _ => "blob:wav" | RawBlob _ _ => "blob:raw" end.

End GeminiExamples.

(** Two computations with the same outcome from every state. *)
Definition meq {A} (m1 m2 : M A) : Prop := forall s, m1 s = m2 s.

(* ------------------------------------------------------------------ *)
(** * Proofs *)

Section WP.

Lemma wp_bind_intro {A C} (m : M A) (f : A -> M C) Q E s :
  wp m (fun a => wp (f a) Q E) E s -> wp (bind m f) Q E s.
Proof. unfold wp, bind. destruct (m s) as [s' [a|e]]; exact (fun h => h). Qed.

Lemma wp_ret_intro {A} (a : A) Q E s : Q a s -> wp (ret a) Q E s.
Proof. exact (fun h => h). Qed.

Lemma wp_gets_intro {A} (f : St -> A) Q E s : Q (f s) s -> wp (gets f) Q E s.
Proof. exact (fun h => h). Qed.

Lemma wp_modify_intro f Q E s : Q tt (f s) -> wp (modify f) Q E s.
Proof. exact (fun h => h). Qed.

Lemma wp_throw_intro {A} e (Q : A -> St -> Prop) E s : E e s -> wp (throw e) Q E s.
Proof. exact (fun h => h). Qed.

Lemma wp_try_intro {A} (m : M A) h Q E s :
  wp m Q (fun e => wp (h e) Q E) s -> wp (try_catch m h) Q E s.
Proof. unfold wp, try_catch. destruct (m s) as [s' [a|e]]; exact (fun h => h). Qed.

Lemma wp_mono {A} (m : M A) (Q Q' : A -> St -> Prop) (E E' : exn -> St -> Prop) s :
  (forall a s', Q a s' -> Q' a s') -> (forall e s', E e s' -> E' e s') ->
  wp m Q E s -> wp m Q' E' s.
Proof. unfold wp. destruct (m s) as [s' [a|e]]; auto. Qed.

Lemma wp_for_each {A} (l : list A) (body : A -> M unit) (I : list A -> St -> Prop) Q E s :
  I l s ->
  (forall x rest s', I (x :: rest) s' -> wp (body x) (fun _ => I rest) E s') ->
  (forall s', I [] s' -> Q tt s') ->
  wp (for_each l body) Q E s.
Proof.
  revert s. induction l as [|x l IH]; intros s HI Hstep Hend; cbn [for_each].
  - apply wp_ret_intro. auto.
  - apply wp_bind_intro. eapply wp_mono; [| exact (fun _ _ h => h) | exact (Hstep _ _ _ HI)].
    intros [] s' H'. apply IH; auto.
Qed.

End WP.

(** ** How each step of the run moves the view *)

Lemma view_upd_storyboardedScenes u s :
  view (upd_storyboardedScenes u s) =
  {| v_ps := v_ps (view s); v_issues := v_issues (view s); v_sb := u (v_sb (view s));
     v_vid := v_vid (view s); v_vo := v_vo (view s); v_mu := v_mu (view s);
     v_events := v_events (view s); v_plan_calls := v_plan_calls (view s) |}.
Proof. reflexivity. Qed.

Lemma view_upd_videoScenes u s :
  view (upd_videoScenes u s) =
  {| v_ps := v_ps (view s); v_issues := v_issues (view s); v_sb := v_sb (view s);
     v_vid := u (v_vid (view s)); v_vo := v_vo (view s); v_mu := v_mu (view s);
     v_events := v_events (view s); v_plan_calls := v_plan_calls (view s) |}.
Proof. reflexivity. Qed.

Lemma view_upd_voiceoverUrl u s :
  view (upd_voiceoverUrl u s) =
  {| v_ps := v_ps (view s); v_issues := v_issues (view s); v_sb := v_sb (view s);
     v_vid := v_vid (view s); v_vo := u (v_vo (view s)); v_mu := v_mu (view s);
     v_events := v_events (view s); v_plan_calls := v_plan_calls (view s) |}.
Proof. reflexivity. Qed.

Lemma view_upd_musicUrl u s :
  view (upd_musicUrl u s) =
  {| v_ps := v_ps (view s); v_issues := v_issues (view s); v_sb := v_sb (view s);
     v_vid := v_vid (view s); v_vo := v_vo (view s); v_mu := u (v_mu (view s));
     v_events := v_events (view s); v_plan_calls := v_plan_calls (view s) |}.
Proof. reflexivity. Qed.

Lemma view_upd_projectState u s :
  view (upd_projectState u s) =
  {| v_ps := u (v_ps (view s)); v_issues := v_issues (view s); v_sb := v_sb (view s);
     v_vid := v_vid (view s); v_vo := v_vo (view s); v_mu := v_mu (view s);
     v_events := v_events (view s); v_plan_calls := v_plan_calls (view s) |}.
Proof. reflexivity. Qed.

Lemma view_push_event ev s :
  not_log ev = true ->
  view (upd_trace (fun t => (t ++ [ev])%list) s) = vadd_event (view s) ev.
Proof.
  intros H. unfold view, vadd_event; cbn. rewrite filter_app; cbn. rewrite H. reflexivity.
Qed.

Lemma view_upd_counter_storyboard s :
  view (upd_storyboard_calls S s) = view s.
Proof. reflexivity. Qed.

Section Components.
Variable B : Builtins.
Variable o : GenerationPipelineOptions.

Lemma wp_pushLog l st msg c e Q E s :
  (forall s', view s' = view s -> Q tt s') -> wp (pushLog B l st msg c e) Q E s.
Proof.
  intros H. cbv [wp pushLog bind modify push_event]. apply H.
  unfold view; cbn. rewrite filter_app; cbn. rewrite app_nil_r. reflexivity.
Qed.

Lemma wp_emit st ds c Q E s :
  (forall s', view s' = view s -> Q tt s') ->
  wp (emitProviderDiagnostics B st ds c) Q E s.
Proof.
  intros H. unfold emitProviderDiagnostics.
  apply (wp_for_each _ _ (fun _ s' => view s' = view s)); [reflexivity | | exact H].
  intros x rest s' Hs'. apply wp_pushLog. intros s'' Hs''. congruence.
Qed.

Lemma wp_addIssue i Q E s :
  (forall s', view s' = vadd_issue (view s) i -> Q tt s') -> wp (addIssue B i) Q E s.
Proof.
  intros H. unfold addIssue. apply wp_bind_intro, wp_modify_intro.
  apply wp_pushLog. intros s' Hs'. apply H. rewrite Hs'. reflexivity.
Qed.

(** A check answers [true] only through the predicate. *)
Lemma wp_check st Q E s :
  (forall s', view s' = view s -> Q tt s') ->
  (forall s' f k, view s' = view s -> shouldCancel o = Some f -> f k = true ->
                  E PipelineCancelledError s') ->
  wp (checkCancelled B o st) Q E s.
Proof.
  intros HQ HE. unfold checkCancelled. destruct (shouldCancel o) as [f|] eqn:Hf.
  - apply wp_bind_intro, wp_gets_intro, wp_bind_intro, wp_modify_intro. cbv beta.
    destruct (f (st_cancel_calls s)) eqn:Hk.
    + apply wp_bind_intro, wp_pushLog. intros s' Hs'. apply wp_throw_intro.
      eapply HE; [exact Hs' | reflexivity | exact Hk].
    + apply wp_ret_intro, HQ. reflexivity.
  - apply wp_ret_intro, HQ. reflexivity.
Qed.

Lemma wp_update_if_state f Q E s :
  (forall s', view s' = vupdate_if (view s) f -> Q tt s') -> wp (update_if_state f) Q E s.
Proof.
  intros H. unfold update_if_state. apply wp_bind_intro, wp_gets_intro. cbv beta.
  destruct (st_projectState s) as [p|] eqn:Hp.
  - unfold updateProject, push_event. apply wp_bind_intro, wp_modify_intro, wp_modify_intro.
    apply H. unfold vupdate_if, view, vadd_event; cbn. rewrite Hp, filter_app. reflexivity.
  - apply wp_ret_intro, H. unfold vupdate_if; cbn. rewrite Hp. reflexivity.
Qed.

Lemma wp_of_outcome {A} (out : outcome A) Q E s :
  match out with Returns a => Q a s | Throws e => E (Raised e) s end ->
  wp (of_outcome out) Q E s.
Proof. destruct out; exact (fun h => h). Qed.

Lemma wp_normalize v Q E s :
  match normalizeAssetResult B v with
  | Some r => Q r s
  | None => E (Raised (nullish_read_error B)) s
  end -> wp (normalize_m B v) Q E s.
Proof. unfold normalize_m. destruct (normalizeAssetResult B v); exact (fun h => h). Qed.

Lemma wp_call_plan Q E s :
  (forall s', view s' =
     {| v_ps := v_ps (view s); v_issues := v_issues (view s); v_sb := v_sb (view s);
        v_vid := v_vid (view s); v_vo := v_vo (view s); v_mu := v_mu (view s);
        v_events := (v_events (view s) ++ [EvPlanCall (st_plan_calls s) (prompt o)])%list;
        v_plan_calls := S (v_plan_calls (view s)) |} ->
     wp (of_outcome (generateAdPlan (deps o) (st_plan_calls s) (prompt o) (settings o) (files o)))
       Q E s') ->
  wp (call_plan o) Q E s.
Proof.
  intros H. unfold call_plan, push_event.
  apply wp_bind_intro, wp_gets_intro, wp_bind_intro, wp_modify_intro, wp_bind_intro,
    wp_modify_intro.
  apply H. unfold view; cbn. rewrite filter_app. reflexivity.
Qed.

Lemma wp_call_storyboard sc Q E s :
  (forall s', view s' = vadd_event (view s)
       (EvStoryboardCall (st_storyboard_calls s) sc (aspectRatio (settings o))
          (visualAnchorDataUrl o)) ->
     wp (of_outcome (generateStoryboardImage (deps o) (st_storyboard_calls s) sc
                       (aspectRatio (settings o)) (visualAnchorDataUrl o))) Q E s') ->
  wp (call_storyboard o sc) Q E s.
Proof.
  intros H. unfold call_storyboard, push_event.
  apply wp_bind_intro, wp_gets_intro, wp_bind_intro, wp_modify_intro, wp_bind_intro,
    wp_modify_intro.
  apply H. rewrite view_push_event by reflexivity. reflexivity.
Qed.

Lemma wp_call_video sc Q E s :
  (forall s', view s' = vadd_event (view s)
       (EvVideoCall (st_video_calls s) sc (aspectRatio (settings o)) (storyboardUrl sc)) ->
     wp (of_outcome (generateVideoClip (deps o) (st_video_calls s) sc
                       (aspectRatio (settings o)) (storyboardUrl sc))) Q E s') ->
  wp (call_video o sc) Q E s.
Proof.
  intros H. unfold call_video, push_event.
  apply wp_bind_intro, wp_gets_intro, wp_bind_intro, wp_modify_intro, wp_bind_intro,
    wp_modify_intro.
  apply H. rewrite view_push_event by reflexivity. reflexivity.
Qed.

Lemma wp_call_voiceover plan Q E s :
  (forall s', view s' = vadd_event (view s)
       (EvVoiceoverCall (st_voiceover_calls s) (plan_fullScript plan) (preferredVoice o)
          (plan_script plan)) ->
     wp (of_outcome (generateVoiceover (deps o) (st_voiceover_calls s) (plan_fullScript plan)
                       (preferredVoice o) (plan_script plan))) Q E s') ->
  wp (call_voiceover o plan) Q E s.
Proof.
  intros H. unfold call_voiceover, push_event.
  apply wp_bind_intro, wp_gets_intro, wp_bind_intro, wp_modify_intro, wp_bind_intro,
    wp_modify_intro.
  apply H. rewrite view_push_event by reflexivity. reflexivity.
Qed.

Lemma wp_call_music plan Q E s :
  (forall s', view s' = vadd_event (view s) (EvMusicCall (st_music_calls s) (music_mood o plan)) ->
     wp (of_outcome (generateMusic (deps o) (st_music_calls s) (music_mood o plan))) Q E s') ->
  wp (call_music o plan) Q E s.
Proof.
  intros H. unfold call_music, push_event.
  apply wp_bind_intro, wp_gets_intro, wp_bind_intro, wp_modify_intro, wp_bind_intro,
    wp_modify_intro.
  apply H. rewrite view_push_event by reflexivity. reflexivity.
Qed.

End Components.

Lemma wp_updateProject p Q E s :
  (forall s', view s' =
     {| v_ps := Some p; v_issues := v_issues (view s); v_sb := v_sb (view s);
        v_vid := v_vid (view s); v_vo := v_vo (view s); v_mu := v_mu (view s);
        v_events := (v_events (view s) ++ [EvProjectUpdate p])%list;
        v_plan_calls := v_plan_calls (view s) |} -> Q tt s') ->
  wp (updateProject p) Q E s.
Proof.
  intros H. unfold updateProject, push_event.
  apply wp_bind_intro, wp_modify_intro, wp_modify_intro. apply H.
  unfold view; cbn. rewrite filter_app. reflexivity.
Qed.

Ltac chase :=
  repeat first
    [ match goal with H : view ?x = _ |- context [view ?x] => rewrite H end
    | rewrite view_upd_storyboardedScenes | rewrite view_upd_videoScenes
    | rewrite view_upd_voiceoverUrl | rewrite view_upd_musicUrl | rewrite view_upd_projectState
    | rewrite view_push_event by reflexivity ].

Ltac step :=
  lazymatch goal with
  | |- wp (bind _ _) _ _ _ => apply wp_bind_intro
  | |- wp (ret _) _ _ _ => apply wp_ret_intro
  | |- wp (gets _) _ _ _ => apply wp_gets_intro
  | |- wp (modify _) _ _ _ => apply wp_modify_intro
  | |- wp (push_event _) _ _ _ => unfold push_event; apply wp_modify_intro
  | |- wp (throw _) _ _ _ => apply wp_throw_intro
  | |- wp (try_catch _ _) _ _ _ => apply wp_try_intro
  | |- wp (pushLog _ _ _ _ _ _) _ _ _ => apply wp_pushLog; intros ?s ?Hv
  | |- wp (emitProviderDiagnostics _ _ _ _) _ _ _ => apply wp_emit; intros ?s ?Hv
  | |- wp (addIssue _ _) _ _ _ => apply wp_addIssue; intros ?s ?Hv
  | |- wp (update_if_state _) _ _ _ => apply wp_update_if_state; intros ?s ?Hv
  | |- wp (call_plan _) _ _ _ => apply wp_call_plan; intros ?s ?Hv
  | |- wp (call_storyboard _ _) _ _ _ => apply wp_call_storyboard; intros ?s ?Hv
  | |- wp (call_video _ _) _ _ _ => apply wp_call_video; intros ?s ?Hv
  | |- wp (call_voiceover _ _) _ _ _ => apply wp_call_voiceover; intros ?s ?Hv
  | |- wp (call_music _ _) _ _ _ => apply wp_call_music; intros ?s ?Hv
  | |- wp (normalize_m _ _) _ _ _ => apply wp_normalize
  | |- wp (updateProject _) _ _ _ => apply wp_updateProject; intros ?s ?Hv
  | |- wp (of_outcome _) _ _ _ => apply wp_of_outcome
  | |- wp _ _ _ _ => progress (cbv beta iota zeta delta [negb])
  end; cbv beta.

Lemma url_truthy_some u : url_truthy u = true -> exists x, u = Some x.
Proof. destruct u; [eauto | discriminate]. Qed.

Lemma storyboard_step_spec B o sc s :
  wp (storyboard_step B o sc)
    (fun _ s' => exists k u iss,
       view s' = vupdate_if
         {| v_ps := v_ps (view s); v_issues := (v_issues (view s) ++ iss)%list;
            v_sb := (v_sb (view s) ++ [set_storyboardUrl sc u])%list;
            v_vid := v_vid (view s); v_vo := v_vo (view s); v_mu := v_mu (view s);
            v_events := (v_events (view s) ++
                         [EvStoryboardCall k sc (aspectRatio (settings o)) (visualAnchorDataUrl o)])%list;
            v_plan_calls := v_plan_calls (view s) |}
         (map_scene (id sc) (fun _ => set_storyboardUrl sc u)) /\
       (null_url B (generateStoryboardImage (deps o) k sc (aspectRatio (settings o))
                     (visualAnchorDataUrl o)) = true ->
        Exists (issue_matches (Storyboarding, Some (id sc))) iss))
    (fun e s' => e = PipelineCancelledError /\ view s' = view s /\
       exists f k, shouldCancel o = Some f /\ f k = true) s.
Proof.
  unfold storyboard_step. step. apply wp_check.
  2:{ intros s' f k H Hf Hk. split; [reflexivity | split; [exact H | eauto]]. }
  intros s1 H1. repeat step.
  destruct (generateStoryboardImage (deps o) (st_storyboard_calls s0) sc _ _) as [v|e] eqn:Ho;
    repeat step.
  - destruct (normalizeAssetResult B v) as [r|] eqn:Hn; unfold storyboard_result, storyboard_failed; repeat step.
    + destruct (url_truthy (na_url r)) eqn:Hu; repeat step.
      * exists (st_storyboard_calls s0), (url_or_undefined (na_url r)), []. split.
        -- chase. rewrite app_nil_r. reflexivity.
        -- unfold null_url. rewrite Ho, Hn. destruct (url_truthy_some _ Hu) as [x ->]. discriminate.
      * eexists (st_storyboard_calls s0), (url_or_undefined (na_url r)), [_]. split.
        -- chase. reflexivity.
        -- intros _. constructor. split; reflexivity.
    + eexists (st_storyboard_calls s0), None, [_]. split.
      -- chase. reflexivity.
      -- unfold null_url. rewrite Ho, Hn. discriminate.
  - unfold storyboard_failed. repeat step.
    eexists (st_storyboard_calls s0), None, [_]. split.
    -- chase. reflexivity.
    -- unfold null_url. rewrite Ho. discriminate.
Qed.

Lemma st_voiceoverUrl_upd u s : st_voiceoverUrl (upd_voiceoverUrl u s) = u (st_voiceoverUrl s).
Proof. reflexivity. Qed.

Lemma st_musicUrl_upd u s : st_musicUrl (upd_musicUrl u s) = u (st_musicUrl s).
Proof. reflexivity. Qed.

Lemma url_truthy_or_undefined u : url_truthy (url_or_undefined u) = url_truthy u.
Proof. unfold url_or_undefined. destruct (url_truthy u) eqn:H; [exact H | reflexivity]. Qed.

Lemma same_except_set_status_videoUrl sc u st :
  same_except_media_status sc (set_status (set_videoUrl sc u) st).
Proof. repeat split. Qed.

Lemma same_except_set_status sc st : same_except_media_status sc (set_status sc st).
Proof. repeat split. Qed.

Lemma video_step_spec B o sc s :
  let V1 := vupdate_if (view s) (map_scene (id sc) (fun s => set_status s Generating)) in
  wp (video_step B o sc)
    (fun _ s' => exists k next iss,
       view s' = vupdate_if
         {| v_ps := v_ps V1; v_issues := (v_issues V1 ++ iss)%list; v_sb := v_sb V1;
            v_vid := (v_vid V1 ++ [next])%list; v_vo := v_vo V1; v_mu := v_mu V1;
            v_events := (v_events V1 ++
                         [EvVideoCall k sc (aspectRatio (settings o)) (storyboardUrl sc)])%list;
            v_plan_calls := v_plan_calls V1 |}
         (map_scene (id sc) (fun _ => next)) /\
       same_except_media_status sc next /\ settled next /\
       (null_url B (generateVideoClip (deps o) k sc (aspectRatio (settings o))
                     (storyboardUrl sc)) = true ->
        Exists (issue_matches (VideoProduction, Some (id sc))) iss))
    (fun e s' => e = PipelineCancelledError /\ view s' = view s /\
       exists f k, shouldCancel o = Some f /\ f k = true) s.
Proof.
  intros V1. unfold video_step. step. apply wp_check.
  2:{ intros s' f k H Hf Hk. split; [reflexivity | split; [exact H | eauto]]. }
  intros s1 H1. repeat step.
  destruct (generateVideoClip (deps o) (st_video_calls s2) sc _ _) as [v|e] eqn:Ho;
    repeat step.
  - destruct (normalizeAssetResult B v) as [r|] eqn:Hn; unfold video_result, video_failed;
      repeat step.
    + destruct (url_truthy (na_url r)) eqn:Hu; repeat step.
      * destruct (na_fallbackUsed r); repeat step;
        (eexists (st_video_calls s2), _, []; split;
         [chase; rewrite app_nil_r; reflexivity|];
         split; [apply same_except_set_status_videoUrl|];
         split; [left; reflexivity|];
         unfold null_url; rewrite Ho, Hn; destruct (url_truthy_some _ Hu) as [x ->];
          discriminate).
      * eexists (st_video_calls s2), _, [_]; split; [chase; reflexivity|].
        split; [apply same_except_set_status_videoUrl|].
        split; [right; reflexivity|].
        intros _. constructor. split; reflexivity.
    + eexists (st_video_calls s2), _, [_]; split; [chase; reflexivity|].
      split; [apply same_except_set_status|].
      split; [right; reflexivity|].
      unfold null_url. rewrite Ho, Hn. discriminate.
  - unfold video_failed. repeat step.
    eexists (st_video_calls s2), _, [_]; split; [chase; reflexivity|].
    split; [apply same_except_set_status|].
    split; [right; reflexivity|].
    unfold null_url. rewrite Ho. discriminate.
Qed.

Lemma voiceover_stage_spec B o plan s :
  wp (voiceover_stage B o plan)
    (fun _ s' => exists k u iss,
       view s' =
         {| v_ps := v_ps (view s); v_issues := (v_issues (view s) ++ iss)%list;
            v_sb := v_sb (view s); v_vid := v_vid (view s); v_vo := u; v_mu := v_mu (view s);
            v_events := (v_events (view s) ++
              [EvVoiceoverCall k (plan_fullScript plan) (preferredVoice o) (plan_script plan)])%list;
            v_plan_calls := v_plan_calls (view s) |} /\
       (null_url B (generateVoiceover (deps o) k (plan_fullScript plan) (preferredVoice o)
                     (plan_script plan)) = true ->
        Exists (issue_matches (Voiceover, None)) iss))
    (fun _ _ => False) s.
Proof.
  unfold voiceover_stage. repeat step.
  destruct (generateVoiceover (deps o) (st_voiceover_calls s) _ _ _) as [v|e] eqn:Ho;
    repeat step.
  - destruct (normalizeAssetResult B v) as [r|] eqn:Hn;
      unfold voiceover_result, voiceover_failed; repeat step.
    + rewrite st_voiceoverUrl_upd, url_truthy_or_undefined.
      destruct (url_truthy (na_url r)) eqn:Hu; repeat step.
      * exists (st_voiceover_calls s), (url_or_undefined (na_url r)), []. split.
        -- chase. rewrite app_nil_r. reflexivity.
        -- unfold null_url. rewrite Ho, Hn. destruct (url_truthy_some _ Hu) as [x ->].
           discriminate.
      * eexists (st_voiceover_calls s), (url_or_undefined (na_url r)), [_]. split.
        -- chase. reflexivity.
        -- intros _. constructor. split; reflexivity.
    + eexists (st_voiceover_calls s), _, [_]. split.
      -- chase. reflexivity.
      -- unfold null_url. rewrite Ho, Hn. discriminate.
  - unfold voiceover_failed. repeat step.
    eexists (st_voiceover_calls s), _, [_]. split.
    -- chase. reflexivity.
    -- unfold null_url. rewrite Ho. discriminate.
Qed.

Lemma music_stage_spec B o plan s :
  wp (music_stage B o plan)
    (fun _ s' => exists k u iss,
       view s' =
         {| v_ps := v_ps (view s); v_issues := (v_issues (view s) ++ iss)%list;
            v_sb := v_sb (view s); v_vid := v_vid (view s); v_vo := v_vo (view s); v_mu := u;
            v_events := (v_events (view s) ++ [EvMusicCall k (music_mood o plan)])%list;
            v_plan_calls := v_plan_calls (view s) |} /\
       (null_url B (generateMusic (deps o) k (music_mood o plan)) = true ->
        Exists (issue_matches (Scoring, None)) iss))
    (fun _ _ => False) s.
Proof.
  unfold music_stage. repeat step.
  destruct (generateMusic (deps o) (st_music_calls s) _) as [v|e] eqn:Ho;
    repeat step.
  - destruct (normalizeAssetResult B v) as [r|] eqn:Hn;
      unfold music_result, music_failed; repeat step.
    + rewrite st_musicUrl_upd, url_truthy_or_undefined.
      destruct (url_truthy (na_url r)) eqn:Hu; repeat step.
      * destruct (na_fallbackUsed r); repeat step.
        -- eexists (st_music_calls s), (url_or_undefined (na_url r)), [_]. split.
           ++ chase. reflexivity.
           ++ unfold null_url. rewrite Ho, Hn. destruct (url_truthy_some _ Hu) as [x ->].
              discriminate.
        -- exists (st_music_calls s), (url_or_undefined (na_url r)), []. split.
           ++ chase. rewrite app_nil_r. reflexivity.
           ++ unfold null_url. rewrite Ho, Hn. destruct (url_truthy_some _ Hu) as [x ->].
              discriminate.
      * eexists (st_music_calls s), (url_or_undefined (na_url r)), [_]. split.
        -- chase. reflexivity.
        -- intros _. constructor. split; reflexivity.
    + eexists (st_music_calls s), _, [_]. split.
      -- chase. reflexivity.
      -- unfold null_url. rewrite Ho, Hn. discriminate.
  - unfold music_failed. repeat step.
    eexists (st_music_calls s), _, [_]. split.
    -- chase. reflexivity.
    -- unfold null_url. rewrite Ho. discriminate.
Qed.

From Stdlib Require Import Sorting.Sorted.

Lemma v_ps_vupdate_if V f : v_ps (vupdate_if V f) = option_map f (v_ps V).
Proof. unfold vupdate_if. destruct (v_ps V) eqn:H; [reflexivity | exact H]. Qed.
Lemma v_events_vupdate_if V f :
  v_events (vupdate_if V f) =
  (v_events V ++ match v_ps V with Some p => [EvProjectUpdate (f p)] | None => [] end)%list.
Proof. unfold vupdate_if. destruct (v_ps V); [reflexivity | rewrite app_nil_r; reflexivity]. Qed.
Lemma v_issues_vupdate_if V f : v_issues (vupdate_if V f) = v_issues V.
Proof. unfold vupdate_if. destruct (v_ps V); reflexivity. Qed.
Lemma v_sb_vupdate_if V f : v_sb (vupdate_if V f) = v_sb V.
Proof. unfold vupdate_if. destruct (v_ps V); reflexivity. Qed.
Lemma v_vid_vupdate_if V f : v_vid (vupdate_if V f) = v_vid V.
Proof. unfold vupdate_if. destruct (v_ps V); reflexivity. Qed.
Lemma v_vo_vupdate_if V f : v_vo (vupdate_if V f) = v_vo V.
Proof. unfold vupdate_if. destruct (v_ps V); reflexivity. Qed.
Lemma v_mu_vupdate_if V f : v_mu (vupdate_if V f) = v_mu V.
Proof. unfold vupdate_if. destruct (v_ps V); reflexivity. Qed.
Lemma v_plan_calls_vupdate_if V f : v_plan_calls (vupdate_if V f) = v_plan_calls V.
Proof. unfold vupdate_if. destruct (v_ps V); reflexivity. Qed.

Lemma project_updates_app l1 l2 :
  project_updates (l1 ++ l2) = (project_updates l1 ++ project_updates l2)%list.
Proof. unfold project_updates. apply flat_map_app. Qed.

Lemma phase_le_refl p r : phase_rank p = Some r -> phase_le p p.
Proof. unfold phase_le. intros ->. lia. Qed.

Lemma phase_le_rank a b x y :
  phase_rank a = Some x -> phase_rank b = Some y -> x <= y -> phase_le a b.
Proof. unfold phase_le. intros -> ->. exact (fun h => h). Qed.

Lemma phase_le_ranks a b :
  phase_le a b -> exists x y, phase_rank a = Some x /\ phase_rank b = Some y /\ x <= y.
Proof.
  unfold phase_le. destruct (phase_rank a), (phase_rank b); try contradiction. eauto.
Qed.

Lemma sorted_snoc {A} (R : A -> A -> Prop) l y :
  Sorted R l -> Forall (fun x => R x y) l -> Sorted R (l ++ [y]).
Proof.
  induction 1 as [|a l Hs IH Hhd]; intros HF; cbn.
  - constructor; constructor.
  - inversion HF as [|? ? Hay HF']; subst. constructor.
    + apply IH. exact HF'.
    + destruct l as [|b l]; cbn; constructor.
      * exact Hay.
      * inversion Hhd. assumption.
Qed.

Lemma phase_inv_ext k V V' :
  v_ps V' = v_ps V -> project_updates (v_events V') = project_updates (v_events V) ->
  phase_inv k V -> phase_inv k V'.
Proof. unfold phase_inv, phases_ok. intros -> ->. exact (fun h => h). Qed.

Lemma phase_inv_mono k k' V : k <= k' -> phase_inv k V -> phase_inv k' V.
Proof.
  unfold phase_inv. intros Hk [Hs Hp]. split; [exact Hs|].
  destruct (v_ps V); [|exact Hp]. destruct Hp as [r [Hr [Hrk HF]]]. exists r.
  split; [exact Hr|]. split; [lia | exact HF].
Qed.

Lemma phase_inv_same k V f :
  (forall p, currentPhase (f p) = currentPhase p) -> phase_inv k V -> phase_inv k (vupdate_if V f).
Proof.
  intros Hf [Hs Hp]. unfold phase_inv, phases_ok.
  rewrite v_events_vupdate_if, v_ps_vupdate_if.
  destruct (v_ps V) as [p|] eqn:Hv; cbn.
  - destruct Hp as [r [Hr [Hrk HF]]]. rewrite Hf.
    rewrite project_updates_app; cbn. split.
    + rewrite map_app. apply sorted_snoc; [exact Hs|]. apply Forall_map. rewrite Hf. exact HF.
    + exists r. split; [exact Hr|]. split; [exact Hrk|].
      apply Forall_app. split; [exact HF|].
      constructor; [rewrite Hf; eapply phase_le_refl; exact Hr | constructor].
  - rewrite app_nil_r. split; [exact Hs | exact Hp].
Qed.

(** An update to a project of phase [ph], of rank [k'] at least the bound. *)
Lemma phase_inv_to k k' ph V f :
  (forall p, currentPhase (f p) = ph) -> phase_rank ph = Some k' -> k <= k' ->
  phase_inv k V -> phase_inv k' (vupdate_if V f).
Proof.
  intros Hf Hr' Hk [Hs Hp]. unfold phase_inv, phases_ok.
  rewrite v_events_vupdate_if, v_ps_vupdate_if.
  destruct (v_ps V) as [p|] eqn:Hv; cbn.
  - destruct Hp as [r [Hr [Hrk HF]]]. pose proof (Hf p) as Hfp.
    assert (Hup : Forall (fun u => phase_le (currentPhase u) ph)
                    (project_updates (v_events V))).
    { eapply Forall_impl; [|exact HF]. intros u Hu.
      destruct (phase_le_ranks _ _ Hu) as [x [y [Hx [Hy Hxy]]]].
      rewrite Hr in Hy. injection Hy as <-.
      eapply phase_le_rank; [exact Hx | exact Hr' | lia]. }
    rewrite project_updates_app; cbn. split.
    + rewrite map_app. apply sorted_snoc; [exact Hs|]. apply Forall_map.
      cbn. rewrite Hfp. exact Hup.
    + rewrite Hfp. exists k'. split; [exact Hr'|]. split; [lia|].
      apply Forall_app. split; [exact Hup|].
      constructor; [rewrite Hfp; eapply phase_le_refl; exact Hr' | constructor].
  - rewrite app_nil_r. split; [exact Hs |]. exact Hp.
Qed.

Lemma covered_step B d V V' ev iss :
  v_events V' = (v_events V ++ [ev])%list -> v_issues V' = (v_issues V ++ iss)%list ->
  (forall key, null_url_call B d ev = Some key -> Exists (issue_matches key) iss) ->
  covered B d V -> covered B d V'.
Proof.
  intros He Hi Hn Hc ev' key Hin Hk. rewrite Hi. apply Exists_app.
  rewrite He in Hin. apply in_app_or in Hin as [Hin | [<- | []]].
  - left. exact (Hc _ _ Hin Hk).
  - right. exact (Hn _ Hk).
Qed.

Lemma covered_ext B d V V' :
  v_events V' = v_events V -> v_issues V' = v_issues V -> covered B d V -> covered B d V'.
Proof. unfold covered. intros -> ->. exact (fun h => h). Qed.

Lemma covered_vupdate B d V f : covered B d V -> covered B d (vupdate_if V f).
Proof.
  intros Hc ev key Hin Hk. rewrite v_issues_vupdate_if.
  rewrite v_events_vupdate_if in Hin. destruct (v_ps V).
  - apply in_app_or in Hin as [Hin | [<- | []]]; [exact (Hc _ _ Hin Hk) | discriminate].
  - rewrite app_nil_r in Hin. exact (Hc _ _ Hin Hk).
Qed.

Lemma null_key_storyboard B d k sc ar a iss :
  (null_url B (generateStoryboardImage d k sc ar a) = true ->
   Exists (issue_matches (Storyboarding, Some (id sc))) iss) ->
  forall key, null_url_call B d (EvStoryboardCall k sc ar a) = Some key ->
  Exists (issue_matches key) iss.
Proof.
  intros Hn key. cbn. destruct (null_url B _); [intros [= <-]; auto | discriminate].
Qed.

Lemma null_key_video B d k sc ar u iss :
  (null_url B (generateVideoClip d k sc ar u) = true ->
   Exists (issue_matches (VideoProduction, Some (id sc))) iss) ->
  forall key, null_url_call B d (EvVideoCall k sc ar u) = Some key ->
  Exists (issue_matches key) iss.
Proof.
  intros Hn key. cbn. destruct (null_url B _); [intros [= <-]; auto | discriminate].
Qed.

Lemma null_key_voiceover B d k t v dl iss :
  (null_url B (generateVoiceover d k t v dl) = true ->
   Exists (issue_matches (Voiceover, None)) iss) ->
  forall key, null_url_call B d (EvVoiceoverCall k t v dl) = Some key ->
  Exists (issue_matches key) iss.
Proof.
  intros Hn key. cbn. destruct (null_url B _); [intros [= <-]; auto | discriminate].
Qed.

Lemma null_key_music B d k m iss :
  (null_url B (generateMusic d k m) = true -> Exists (issue_matches (Scoring, None)) iss) ->
  forall key, null_url_call B d (EvMusicCall k m) = Some key ->
  Exists (issue_matches key) iss.
Proof.
  intros Hn key. cbn. destruct (null_url B _); [intros [= <-]; auto | discriminate].
Qed.

Lemma same_except_trans a b c :
  same_except_media_status a b -> same_except_media_status b c -> same_except_media_status a c.
Proof.
  unfold same_except_media_status. intuition congruence.
Qed.

Lemma Forall2_compose {A C D} (R : A -> C -> Prop) (S : C -> D -> Prop) (T : A -> D -> Prop)
    l1 l2 l3 :
  (forall a b c, R a b -> S b c -> T a c) -> Forall2 R l1 l2 -> Forall2 S l2 l3 -> Forall2 T l1 l3.
Proof.
  intros H H12. revert l3. induction H12 as [|a b l1 l2 Hab H12 IH]; intros l3 H23.
  - inversion H23. constructor.
  - inversion H23 as [|? c ? l3' Hbc H23']; subst. constructor; eauto.
Qed.

Lemma Forall2_snoc {A C} (R : A -> C -> Prop) l1 l2 a b :
  Forall2 R l1 l2 -> R a b -> Forall2 R (l1 ++ [a]) (l2 ++ [b]).
Proof. intros H Hab. apply Forall2_app; [exact H | constructor; [exact Hab | constructor]]. Qed.

Lemma Forall2_pending l :
  Forall2 same_except_media_status l (map (fun sc => set_status sc Pending) l).
Proof. induction l; constructor; [repeat split | assumption]. Qed.



Lemma vupdate_if_const V q p :
  v_ps V = Some q ->
  vupdate_if V (fun _ => p) =
  {| v_ps := Some p; v_issues := v_issues V; v_sb := v_sb V; v_vid := v_vid V;
     v_vo := v_vo V; v_mu := v_mu V; v_events := (v_events V ++ [EvProjectUpdate p])%list;
     v_plan_calls := v_plan_calls V |}.
Proof. unfold vupdate_if. intros ->. reflexivity. Qed.

Lemma phase_inv_init V R ip r :
  phase_inv 0 V -> v_ps V = None -> v_ps R = Some ip ->
  project_updates (v_events R) = project_updates (v_events V) ->
  phase_rank (currentPhase ip) = Some r -> phase_inv r R.
Proof.
  intros [Hs Hp] HV HR Hup Hr. rewrite HV in Hp.
  unfold phase_inv, phases_ok. rewrite HR, Hup, Hp. split; [constructor|].
  exists r. split; [exact Hr|]. split; [lia | constructor].
Qed.

Lemma phases_of_inv k V : phase_inv k V -> phases_ok V.
Proof. intros [H _]. exact H. Qed.

Ltac name_state sn hn :=
  match goal with |- wp _ _ _ ?x => rename x into sn end;
  match goal with h : view sn = _ |- _ => rename h into hn end.

Ltac vcbn := cbn [v_ps v_issues v_sb v_vid v_vo v_mu v_events v_plan_calls].

Ltac vsimp :=
  repeat progress (rewrite ?v_ps_vupdate_if, ?v_issues_vupdate_if, ?v_sb_vupdate_if,
    ?v_vid_vupdate_if, ?v_vo_vupdate_if, ?v_mu_vupdate_if, ?v_plan_calls_vupdate_if; vcbn).

Lemma storyboard_loop B o l0 :
  forall x rest s',
  (exists done, l0 = (done ++ x :: rest)%list /\
     Forall2 same_except_media_status done (v_sb (view s')) /\ v_vid (view s') = [] /\
     (exists p, v_ps (view s') = Some p) /\ phase_inv 1 (view s') /\ covered B (deps o) (view s')) ->
  wp (storyboard_step B o x)
    (fun _ s'' => exists done, l0 = (done ++ rest)%list /\
     Forall2 same_except_media_status done (v_sb (view s'')) /\ v_vid (view s'') = [] /\
     (exists p, v_ps (view s'') = Some p) /\ phase_inv 1 (view s'') /\ covered B (deps o) (view s''))
    (fun e s'' => phases_ok (view s'') /\ exists f k, shouldCancel o = Some f /\ f k = true) s'.
Proof.
  intros x rest s [done [Hl [Hsb [Hvid [[p Hp] [Hph Hcov]]]]]].
  eapply wp_mono; [| | apply storyboard_step_spec].
  - intros _ s' [k [u [iss [Hv Hn]]]]. rewrite Hv. exists (done ++ [x])%list.
    rewrite v_sb_vupdate_if, v_vid_vupdate_if, v_ps_vupdate_if; vcbn.
    split; [rewrite <- app_assoc; exact Hl|].
    split; [apply Forall2_snoc; [exact Hsb | repeat split]|].
    split; [exact Hvid|].
    split; [rewrite Hp; eexists; reflexivity|].
    split.
    + apply phase_inv_same; [reflexivity|].
      eapply phase_inv_ext; [| | exact Hph]; [reflexivity|].
      vcbn. rewrite project_updates_app, app_nil_r. reflexivity.
    + apply covered_vupdate. eapply covered_step; [reflexivity | reflexivity | | exact Hcov].
      apply null_key_storyboard. exact Hn.
  - intros e s' [_ [Hv Hev]]. rewrite Hv. split; [exact (phases_of_inv _ _ Hph) | exact Hev].
Qed.

Lemma video_loop B o sbs :
  forall x rest s',
  (exists done, sbs = (done ++ x :: rest)%list /\
     Forall2 (fun a b => same_except_media_status a b /\ settled b) done (v_vid (view s')) /\
     (exists p, v_ps (view s') = Some p) /\ phase_inv 2 (view s') /\ covered B (deps o) (view s')) ->
  wp (video_step B o x)
    (fun _ s'' => exists done, sbs = (done ++ rest)%list /\
     Forall2 (fun a b => same_except_media_status a b /\ settled b) done (v_vid (view s'')) /\
     (exists p, v_ps (view s'') = Some p) /\ phase_inv 2 (view s'') /\ covered B (deps o) (view s''))
    (fun e s'' => phases_ok (view s'') /\ exists f k, shouldCancel o = Some f /\ f k = true) s'.
Proof.
  intros x rest s [done [Hl [Hvid [[p Hp] [Hph Hcov]]]]].
  eapply wp_mono; [| | apply video_step_spec].
  - intros _ s' [k [next [iss [Hv [Hse [Hst Hn]]]]]]. rewrite Hv. exists (done ++ [x])%list.
    split; [rewrite <- app_assoc; exact Hl|].
    split; [vsimp; apply Forall2_snoc; [exact Hvid | split; [exact Hse | exact Hst]]|].
    split; [vsimp; rewrite Hp; eexists; reflexivity|].
    split.
    + apply phase_inv_same; [reflexivity|].
      eapply phase_inv_ext; [| | apply phase_inv_same; [| exact Hph]]; [reflexivity | | reflexivity].
      vcbn. rewrite project_updates_app, app_nil_r. reflexivity.
    + apply covered_vupdate. eapply covered_step; [reflexivity | reflexivity | |].
      * apply null_key_video. exact Hn.
      * apply covered_vupdate. exact Hcov.
  - intros e s' [_ [Hv Hev]]. rewrite Hv. split; [exact (phases_of_inv _ _ Hph) | exact Hev].
Qed.

Lemma after_plan_spec B o plan s :
  v_ps (view s) = None -> v_sb (view s) = [] -> v_vid (view s) = [] ->
  phase_inv 0 (view s) -> covered B (deps o) (view s) ->
  wp (after_plan B o plan)
    (fun r s' =>
       rr_plan r = plan /\ currentPhase (rr_project r) = Ready /\
       isGenerating (rr_project r) = false /\ rr_scenes r = scenes (rr_project r) /\
       Forall2 (fun a b => same_except_media_status a b /\ settled b)
         (plan_scenes plan) (rr_scenes r) /\
       rr_issues r = v_issues (view s') /\ covered B (deps o) (view s') /\ phases_ok (view s'))
    (fun e s' => phases_ok (view s') /\ exists f k, shouldCancel o = Some f /\ f k = true)
    s.
Proof.
  intros Hps Hsb Hvid Hph Hcov.
  unfold after_plan. step. apply wp_check.
  2:{ intros s1 f k H1 Hf Hk. rewrite H1. split; [exact (phases_of_inv _ _ Hph) | eauto]. }
  intros s1 H1. cbv beta. repeat step.
  set (l0 := map (fun sc => set_status sc Pending) (plan_scenes plan)).
  change (scenes (initial_project plan (settings o))) with l0.
  apply (wp_for_each _ _ (fun rest s' => exists done, l0 = (done ++ rest)%list /\
     Forall2 same_except_media_status done (v_sb (view s')) /\ v_vid (view s') = [] /\
     (exists p, v_ps (view s') = Some p) /\ phase_inv 1 (view s') /\
     covered B (deps o) (view s'))).
  { exists []. chase. unfold vadd_event. vcbn.
    split; [reflexivity|]. split; [rewrite Hsb; constructor|]. split; [exact Hvid|].
    split; [eexists; reflexivity|]. split.
    - eapply phase_inv_init; [exact Hph | exact Hps | reflexivity | | reflexivity].
      vcbn. rewrite project_updates_app, app_nil_r. reflexivity.
    - apply (covered_step B (deps o) (view s) _
               (EvProjectInitialized (initial_project plan (settings o))) []);
        [reflexivity | vcbn; rewrite app_nil_r; reflexivity | discriminate | exact Hcov]. }
  { intros x rest s' HI. apply storyboard_loop. exact HI. }
  intros s3 [done [Hl [Hsb3 [Hvid3 [[p3 Hp3] [Hph3 Hcov3]]]]]]. cbv beta.
  rewrite app_nil_r in Hl. rewrite <- Hl in Hsb3.
  step. apply wp_check.
  2:{ intros s4 f k H4 Hf Hk. rewrite H4. split; [exact (phases_of_inv _ _ Hph3) | eauto]. }
  intros s4 H4. cbv beta. rewrite <- H4 in Hsb3, Hvid3, Hp3, Hph3, Hcov3. repeat step.
  set (sbs := st_storyboardedScenes s4) in *.
  assert (Hsbs : Forall2 same_except_media_status (plan_scenes plan) sbs).
  { eapply Forall2_compose; [exact same_except_trans | apply Forall2_pending | exact Hsb3]. }
  name_state s5 H5.
  apply (wp_for_each _ _ (fun rest s' => exists done, sbs = (done ++ rest)%list /\
     Forall2 (fun a b => same_except_media_status a b /\ settled b) done (v_vid (view s')) /\
     (exists p, v_ps (view s') = Some p) /\ phase_inv 2 (view s') /\
     covered B (deps o) (view s'))).
  { exists []. rewrite H5. split; [reflexivity|].
    split; [vsimp; rewrite Hvid3; constructor|].
    split; [vsimp; rewrite Hp3; eexists; reflexivity|]. split.
    - eapply (phase_inv_to 1 2 VideoProduction); [intros q; reflexivity | reflexivity | lia | exact Hph3].
    - apply covered_vupdate. exact Hcov3. }
  { intros x rest s' HI. apply video_loop. exact HI. }
  intros s6 [done6 [Hl6 [Hvid6 [[p6 Hp6] [Hph6 Hcov6]]]]]. cbv beta.
  rewrite app_nil_r in Hl6. rewrite <- Hl6 in Hvid6.
  step. apply wp_check.
  2:{ intros s7 f k H7 Hf Hk. rewrite H7. split; [exact (phases_of_inv _ _ Hph6) | eauto]. }
  intros s7 H7. cbv beta. rewrite <- H7 in Hvid6, Hp6, Hph6, Hcov6. repeat step.
  name_state s8 H8.
  eapply wp_mono; [| | apply voiceover_stage_spec]; [| intros ? ? []].
  intros _ s9 [k9 [u9 [iss9 [H9 Hn9]]]]. cbv beta. rewrite H8 in H9.
  assert (Hph9 : phase_inv 3 (view s9)).
  { assert (Hph8 : phase_inv 3 (vupdate_if (view s7)
              (fun p => with_phase_scenes p Voiceover (st_videoScenes s7)))).
    { eapply (phase_inv_to 2 3 Voiceover); [intros q; reflexivity | reflexivity | lia | exact Hph6]. }
    rewrite H9. eapply phase_inv_ext; [| | exact Hph8]; [reflexivity |].
    vcbn. rewrite project_updates_app, app_nil_r. reflexivity. }
  assert (Hcov9 : covered B (deps o) (view s9)).
  { rewrite H9. eapply covered_step; [reflexivity | reflexivity | |].
    - apply null_key_voiceover. exact Hn9.
    - apply covered_vupdate. exact Hcov6. }
  assert (Hps9 : exists p, v_ps (view s9) = Some p).
  { rewrite H9. vsimp. rewrite Hp6. eexists. reflexivity. }
  assert (Hvid9 : v_vid (view s9) = v_vid (view s7)).
  { rewrite H9. vsimp. reflexivity. }
  clear H9 H8 Hn9.
  step. apply wp_check.
  2:{ intros s10 f k H10 Hf Hk. rewrite H10. split; [exact (phases_of_inv _ _ Hph9) | eauto]. }
  intros s10 H10. cbv beta. rewrite <- H10 in Hph9, Hcov9, Hps9, Hvid9. repeat step.
  name_state s11 H11.
  destruct Hps9 as [p9 Hp9].
  assert (Hph11 : phase_inv 4 (view s11)).
  { rewrite H11.
    eapply (phase_inv_to 3 4 Scoring); [intros q; reflexivity | reflexivity | lia | exact Hph9]. }
  assert (Hcov11 : covered B (deps o) (view s11)).
  { rewrite H11. apply covered_vupdate. exact Hcov9. }
  assert (Hp11 : exists p, v_ps (view s11) = Some p).
  { rewrite H11. vsimp. rewrite Hp9. eexists. reflexivity. }
  assert (Hvid11 : v_vid (view s11) = v_vid (view s7)).
  { rewrite H11. vsimp. exact Hvid9. }
  clear H11.
  eapply wp_mono; [| | apply music_stage_spec]; [| intros ? ? []].
  intros _ s12 [k12 [u12 [iss12 [H12 Hn12]]]]. cbv beta.
  destruct Hp11 as [p11 Hp11].
  unfold finalization. step. step. cbv beta.
  change (st_projectState s12) with (v_ps (view s12)). rewrite H12. vcbn. rewrite Hp11.
  repeat step.
  match goal with
  | h : view ?y = {| v_ps := Some _; v_issues := _; v_sb := _; v_vid := _; v_vo := _;
                     v_mu := _; v_events := _; v_plan_calls := _ |},
    h' : view ?z = view ?y |- _ =>
      rename y into sU; rename h into HU; rename z into sL; rename h' into HL
  end.
  assert (Hp12 : v_ps (view s12) = Some p11) by (rewrite H12; vcbn; exact Hp11).
  split; [reflexivity|]. split; [reflexivity|]. split; [reflexivity|]. split; [reflexivity|].
  split.
  { cbn [rr_scenes]. change (st_videoScenes s12) with (v_vid (view s12)). rewrite H12. vcbn.
    rewrite Hvid11.
    eapply Forall2_compose; [| exact Hsbs | exact Hvid6].
    intros a b c Hab [Hbc Hc]. split; [eapply same_except_trans; eauto | exact Hc]. }
  split.
  { cbn [rr_issues]. rewrite HL. reflexivity. }
  split.
  { rewrite HL, HU. rewrite <- (vupdate_if_const (view s12) p11) by exact Hp12.
    apply covered_vupdate. rewrite H12.
    eapply covered_step; [reflexivity | reflexivity | apply null_key_music; exact Hn12 | exact Hcov11]. }
  { rewrite HL, HU. rewrite <- (vupdate_if_const (view s12) p11) by exact Hp12.
    apply (phases_of_inv 5). eapply (phase_inv_to 4 5 Ready); [intros q; reflexivity | reflexivity | lia |].
    rewrite H12. eapply phase_inv_ext; [| | exact Hph11]; [reflexivity |].
    vcbn. rewrite project_updates_app, app_nil_r. reflexivity. }
Qed.

Lemma run_spec B o :
  wp (runGenerationPipeline B o)
    (fun r s' =>
       (exists plan, generateAdPlan (deps o) 0 (prompt o) (settings o) (files o) = Returns plan /\
                     rr_plan r = plan) /\
       currentPhase (rr_project r) = Ready /\ isGenerating (rr_project r) = false /\
       rr_scenes r = scenes (rr_project r) /\
       Forall2 (fun a b => same_except_media_status a b /\ settled b)
         (plan_scenes (rr_plan r)) (rr_scenes r) /\
       rr_issues r = v_issues (view s') /\ covered B (deps o) (view s') /\ phases_ok (view s'))
    (fun e s' => phases_ok (view s') /\
       ((exists f k, shouldCancel o = Some f /\ f k = true) \/
        exists e0, generateAdPlan (deps o) 0 (prompt o) (settings o) (files o) = Throws e0))
    init_st.
Proof.
  unfold runGenerationPipeline. repeat step. apply wp_check.
  2:{ intros s2 f k H2 Hf Hk. split; [chase; unfold phases_ok; cbn; constructor | left; eauto]. }
  intros s2 H2. cbv beta. repeat step.
  assert (Hk : st_plan_calls s2 = 0).
  { change (st_plan_calls s2) with (v_plan_calls (view s2)). chase. reflexivity. }
  rewrite Hk. destruct (generateAdPlan (deps o) 0 _ _ _) as [plan|e] eqn:Hplan; repeat step.
  - eapply wp_mono; [| | apply after_plan_spec].
    + intros r s' (Hpl & Hrest). split; [exists plan; split; [reflexivity | exact Hpl]|].
      rewrite Hpl. exact Hrest.
    + intros e s' [Hok Hev]. split; [exact Hok | left; exact Hev].
    + chase. reflexivity.
    + chase. reflexivity.
    + chase. reflexivity.
    + chase. unfold phase_inv, phases_ok. cbn. split; [constructor | reflexivity].
    + chase. intros ev key Hin. cbn in Hin. destruct Hin as [<- | []]. discriminate.
  - split; [chase; unfold phases_ok; cbn; constructor | right; eauto].
Qed.

(* ------------------------------------------------------------------ *)
(** ** The claims *)


Lemma project_updates_filter t : project_updates (filter not_log t) = project_updates t.
Proof. induction t as [|ev t IH]; [reflexivity|]. unfold project_updates in *. destruct ev; cbn; rewrite ?IH; reflexivity. Qed.

Lemma Forall2_settled_r (l1 l2 : list Scene) :
  Forall2 (fun a b => same_except_media_status a b /\ settled b) l1 l2 -> Forall settled l2.
Proof. induction 1; constructor; tauto. Qed.

Lemma Forall2_same_except (l1 l2 : list Scene) :
  Forall2 (fun a b => same_except_media_status a b /\ settled b) l1 l2 ->
  Forall2 same_except_media_status l1 l2.
Proof. induction 1; constructor; tauto. Qed.

Lemma run_resolves B o s r : run B o = (s, Ok r) ->
  currentPhase (rr_project r) = Ready /\ isGenerating (rr_project r) = false /\
  rr_scenes r = scenes (rr_project r) /\
  Forall2 (fun a b => same_except_media_status a b /\ settled b) (plan_scenes (rr_plan r)) (rr_scenes r) /\
  rr_issues r = v_issues (view s) /\ covered B (deps o) (view s).
Proof.
  intros H. pose proof (run_spec B o) as W. unfold wp, run in *. rewrite H in W. tauto.
Qed.

(** C1: with no cancellation and a plan adapter that returns, the run
    resolves, with a project in phase [ready] that is no longer generating,
    whatever the other adapters return or throw. *)
Theorem C1_run_resolves_ready B o plan :
  never_cancels o ->
  generateAdPlan (deps o) 0 (prompt o) (settings o) (files o) = Returns plan ->
  exists s r, run B o = (s, Ok r) /\
    currentPhase (rr_project r) = Ready /\ isGenerating (rr_project r) = false.
Proof.
  intros Hc Hp. pose proof (run_spec B o) as W. unfold wp, run in *.
  destruct (runGenerationPipeline B o init_st) as [s [r|e]].
  - exists s, r. tauto.
  - destruct W as [_ [(f & k & Hf & Hk) | (e0 & He)]].
    + unfold never_cancels in Hc. rewrite Hf in Hc. rewrite Hc in Hk. discriminate.
    + congruence.
Qed.

Lemma C1_run_resolves_ready_witness :
  exists s r, run ex_builtins (ex_options None (ex_deps JNull)) = (s, Ok r) /\
    currentPhase (rr_project r) = Ready /\ isGenerating (rr_project r) = false.
Proof. apply (C1_run_resolves_ready ex_builtins (ex_options None (ex_deps JNull)) ex_plan);
  [exact I | reflexivity]. Defined.

(** C2: in every run, the phases of the projects passed to
    [onProjectUpdate], in order, never decrease in
    [planning < storyboarding < video_production < voiceover < scoring < ready]. *)
Theorem C2_phases_non_decreasing B o :
  Sorted phase_le (map currentPhase (project_updates (st_trace (fst (run B o))))).
Proof.
  pose proof (run_spec B o) as W. unfold wp, run in *.
  destruct (runGenerationPipeline B o init_st) as [s [r|e]]; cbn [fst];
  [destruct W as (_ & _ & _ & _ & _ & _ & _ & H) | destruct W as [H _]];
  unfold phases_ok, view in H; cbn [v_events] in H; rewrite project_updates_filter in H; exact H.
Qed.

(** C3: when the run resolves, every scene of the returned project is
    [complete] or [failed]. *)
Theorem C3_scenes_settled B o s r :
  run B o = (s, Ok r) ->
  Forall (fun sc => status sc = Complete \/ status sc = Failed) (scenes (rr_project r)).
Proof.
  intros H. destruct (run_resolves B o s r H) as (_ & _ & Hs & HF & _).
  rewrite <- Hs. exact (Forall2_settled_r _ _ HF).
Qed.

Lemma C3_scenes_settled_witness :
  exists s r, run ex_builtins (ex_options None (ex_deps JNull)) = (s, Ok r) /\
  Forall (fun sc => status sc = Complete \/ status sc = Failed) (scenes (rr_project r)).
Proof.
  eexists; eexists; split; [cbv; reflexivity|].
  apply (C3_scenes_settled ex_builtins (ex_options None (ex_deps JNull)) (fst (run ex_builtins (ex_options None (ex_deps JNull))))). vm_compute; reflexivity.
Defined.

(** C4: when the run resolves, every storyboard, video, voiceover or music
    call whose result normalizes to a [null] url has an issue of its stage
    (and, per scene, of its scene id) in the returned issues. *)
Theorem C4_null_url_has_issue B o s r :
  run B o = (s, Ok r) ->
  forall ev key, In ev (st_trace s) -> null_url_call B (deps o) ev = Some key ->
  Exists (issue_matches key) (rr_issues r).
Proof.
  intros H ev key Hin Hk. destruct (run_resolves B o s r H) as (_ & _ & _ & _ & Hi & Hc).
  rewrite Hi. apply (Hc ev key); [|exact Hk].
  unfold view; cbn [v_events]. apply filter_In. split; [exact Hin|].
  destruct ev; try discriminate; reflexivity.
Qed.

Lemma C4_null_url_has_issue_witness :
  exists s r, run ex_builtins (ex_options None (ex_deps JNull)) = (s, Ok r) /\
  In (EvStoryboardCall 0 (set_status (ex_scene "s1") Pending) SixteenNine None) (st_trace s) /\
  Exists (issue_matches (Storyboarding, Some "s1")) (rr_issues r).
Proof.
  eexists; eexists; split; [cbv; reflexivity|]. split; [vm_compute; repeat first [left; reflexivity | right]|].
  apply (C4_null_url_has_issue ex_builtins (ex_options None (ex_deps JNull)) (fst (run ex_builtins (ex_options None (ex_deps JNull))))) with (ev := EvStoryboardCall 0 (set_status (ex_scene "s1") Pending) SixteenNine None);
    [vm_compute; reflexivity | vm_compute; repeat first [left; reflexivity | right] | vm_compute; reflexivity].
Defined.

(** C10: when the run resolves, the returned project's scenes are the
    returned scenes, and they are the plan's scenes, in the same number and
    order, each changed at most in [storyboardUrl], [videoUrl] and [status]. *)
Theorem C10_scenes_frame B o s r :
  run B o = (s, Ok r) ->
  rr_scenes r = scenes (rr_project r) /\
  Forall2 same_except_media_status (plan_scenes (rr_plan r)) (scenes (rr_project r)).
Proof.
  intros H. destruct (run_resolves B o s r H) as (_ & _ & Hs & HF & _).
  split; [exact Hs|]. rewrite <- Hs. exact (Forall2_same_except _ _ HF).
Qed.

Lemma C10_scenes_frame_witness :
  exists s r, run ex_builtins (ex_options None (ex_deps JNull)) = (s, Ok r) /\
  rr_scenes r = scenes (rr_project r) /\
  Forall2 same_except_media_status (plan_scenes (rr_plan r)) (scenes (rr_project r)).
Proof.
  eexists; eexists; split; [cbv; reflexivity|]. apply (C10_scenes_frame ex_builtins (ex_options None (ex_deps JNull)) (fst (run ex_builtins (ex_options None (ex_deps JNull))))). vm_compute; reflexivity.
Defined.


(** Lower-casing the mood and searching a lower-case keyword is the
    case-insensitive search. *)
Lemma prefix_toLowerCase kw s :
  GeminiService.toLowerCase kw = kw ->
  String.prefix kw (GeminiService.toLowerCase s) = prefix_ci kw s.
Proof.
  revert s. induction kw as [|c kw IH]; intros s Hl; [destruct s; reflexivity|].
  cbn in Hl. injection Hl as Hc Hk.
  destruct s as [|d s]; [reflexivity|]. cbn [GeminiService.toLowerCase String.prefix prefix_ci].
  rewrite Hc. destruct (ascii_dec c (GeminiService.lower_char d)) as [E|E].
  - rewrite <- E, Ascii.eqb_refl. cbn. apply IH, Hk.
  - apply Ascii.eqb_neq in E. rewrite E. reflexivity.
Qed.

Lemma includes_toLowerCase s kw :
  GeminiService.toLowerCase kw = kw ->
  GeminiService.includes (GeminiService.toLowerCase s) kw = includes_ci s kw.
Proof.
  intros Hk. induction s as [|c s IH].
  - destruct kw; reflexivity.
  - cbn [GeminiService.toLowerCase GeminiService.includes includes_ci].
    rewrite <- IH. f_equal. apply (prefix_toLowerCase kw (String c s) Hk).
Qed.

(** C8: the fallback track of a mood is the track of the first keyword
    group, in the order happy/upbeat, business/tech, sad/emotional, jazz,
    with a keyword in the mood, compared case-insensitively; the cinematic
    track otherwise. *)
Theorem C8_getFallbackMusic_table mood :
  GeminiService.getFallbackMusic mood =
  assoc (first_matching_track mood mood_keyword_table) GeminiService.MOOD_TRACKS.
Proof.
  unfold GeminiService.getFallbackMusic.
  rewrite !includes_toLowerCase by reflexivity.
  cbn [first_matching_track mood_keyword_table existsb]. rewrite !orb_false_r.
  destruct (includes_ci mood "happy" || includes_ci mood "upbeat"); [reflexivity|].
  destruct (includes_ci mood "business" || includes_ci mood "tech"); [reflexivity|].
  destruct (includes_ci mood "sad" || includes_ci mood "emotional"); [reflexivity|].
  destruct (includes_ci mood "jazz"); reflexivity.
Qed.

(** C7: [normalizeAssetResult] throws (a TypeError reading [level] of
    [null]) on an object whose [diagnostics] array holds [null], instead of
    returning a record. *)
Theorem C7_null_diagnostic_entry_throws B :
  normalizeAssetResult B (JObj [("diagnostics", JArr [JNull])]) = None.
Proof. reflexivity. Qed.

(** C6 (amended): without an API key there is no url and no fallback flag.
    With one, a missing or empty source image leads straight to the
    text-to-video attempt with [fallbackUsed = false]; an unparseable one, or
    a failed image-to-video attempt, leads to the text-to-video attempt with
    [fallbackUsed = true]; a successful image-to-video attempt is returned
    with [fallbackUsed = false]. *)
Theorem C6_generateVideoClip_attempts hasKey gen sc ar src :
  let aspect := match ar with SixteenNine => "16:9" | NineSixteen => "9:16" end in
  let r := GeminiService.generateVideoClip hasKey gen sc ar src in
  let text := gen (GeminiService.textPrompt sc) aspect ("scene-" ++ id sc ++ "-text2video") None in
  (hasKey = false -> GeminiService.url r = None /\ GeminiService.fallbackUsed r = false) /\
  (hasKey = true -> url_truthy src = false ->
     GeminiService.url r = GeminiService.va_url text /\ GeminiService.fallbackUsed r = false) /\
  (forall s, hasKey = true -> src = Some s -> url_truthy src = true ->
     GeminiService.parseDataUrl s = None ->
     GeminiService.url r = GeminiService.va_url text /\ GeminiService.fallbackUsed r = true) /\
  (forall s parsed, hasKey = true -> src = Some s -> url_truthy src = true ->
     GeminiService.parseDataUrl s = Some parsed ->
     let img := gen (GeminiService.veoPrompt sc) aspect ("scene-" ++ id sc ++ "-image2video")
                  (Some parsed) in
     if url_truthy (GeminiService.va_url img)
     then GeminiService.url r = GeminiService.va_url img /\ GeminiService.fallbackUsed r = false
     else GeminiService.url r = GeminiService.va_url text /\ GeminiService.fallbackUsed r = true).
Proof.
  intros aspect r text. unfold r, text, aspect; clear r text aspect.
  unfold GeminiService.generateVideoClip.
  split; [|split; [|split]].
  - intros ->. split; reflexivity.
  - intros -> Hu. cbn [negb]. destruct src as [s|]; [cbn [url_truthy] in *; rewrite Hu|];
    split; reflexivity.
  - intros s -> -> Hu Hp. cbn [negb]. rewrite Hu, Hp. split; reflexivity.
  - intros s parsed -> -> Hu Hp. cbv beta iota zeta delta [negb]. rewrite Hu, Hp.
    destruct (url_truthy (GeminiService.va_url _)) eqn:E; rewrite ?E; split; reflexivity.
Qed.

Lemma C6_generateVideoClip_attempts_witness :
  GeminiService.url (GeminiService.generateVideoClip true ex_internalGenerateVideo
                       (ex_scene "s1") SixteenNine (Some "data:image/png;base64,AAAA"))
  = Some "scene-s1-image2video".
Proof.
  destruct (C6_generateVideoClip_attempts true ex_internalGenerateVideo (ex_scene "s1")
              SixteenNine (Some "data:image/png;base64,AAAA")) as (_ & _ & _ & H).
  specialize (H "data:image/png;base64,AAAA" ("image/png", "AAAA") eq_refl eq_refl eq_refl).
  cbv zeta in H. vm_compute in H. vm_compute. exact (proj1 (H (eq_refl))).
Defined.

(** With an API key and no source image, the text-to-video attempt is
    reached and its url returned, with [fallbackUsed = false]. *)
Lemma C6_text_path_without_fallback :
  GeminiService.url (GeminiService.generateVideoClip true ex_internalGenerateVideo
                       (ex_scene "s1") SixteenNine None) = Some "scene-s1-text2video" /\
  GeminiService.fallbackUsed (GeminiService.generateVideoClip true ex_internalGenerateVideo
                       (ex_scene "s1") SixteenNine None) = false.
Proof. split; reflexivity. Qed.

(** A cancellation that becomes true right after the plan adapter returns
    is seen by the [checkCancelled("planning")] that precedes
    [onProjectInitialized]: the run rejects and the project was never
    initialized. *)
Lemma C5_cancel_after_plan_skips_init :
  generateAdPlan (ex_deps JNull) 0 "An ad" ex_settings [] = Returns ex_plan /\
  exists s, run ex_builtins (ex_options (Some (fun k => Nat.leb 1 k)) (ex_deps JNull))
            = (s, Err PipelineCancelledError) /\ project_inits (st_trace s) = [].
Proof. split; [reflexivity|]. eexists; split; [vm_compute; reflexivity|]. reflexivity. Qed.

(** Trace events that are not logs, and the stepping of a run with the
    cancellation predicate known. *)
Lemma project_inits_filter t : project_inits (filter not_log t) = project_inits t.
Proof. induction t as [|ev t IH]; [reflexivity|]. unfold project_inits in *. destruct ev; cbn; rewrite ?IH; reflexivity. Qed.

Ltac cstep Hs :=
  lazymatch goal with
  | |- wp (bind _ _) _ _ _ => apply wp_bind_intro
  | |- wp (ret _) _ _ _ => apply wp_ret_intro
  | |- wp (gets _) _ _ _ => apply wp_gets_intro
  | |- wp (modify _) _ _ _ => apply wp_modify_intro
  | |- wp (throw _) _ _ _ => apply wp_throw_intro
  | |- wp (try_catch _ _) _ _ _ => apply wp_try_intro
  | |- wp (pushLog _ _ _ _ _ _) _ _ _ => unfold pushLog
  | |- wp (push_event _) _ _ _ => unfold push_event
  | |- wp (checkCancelled _ _ _) _ _ _ => unfold checkCancelled; rewrite Hs
  | |- wp (call_plan _) _ _ _ => unfold call_plan
  | |- wp (of_outcome _) _ _ _ => unfold of_outcome
  | |- wp (after_plan _ _ _) _ _ _ => unfold after_plan
  | |- wp (storyboard_step _ _ _) _ _ _ => unfold storyboard_step
  | |- wp (if _ then _ else _) _ _ _ =>
      cbn [st_cancel_calls st_plan_calls upd_cancel_calls upd_trace upd_logs upd_plan_calls
           upd_projectState init_st]
  | |- wp (match _ with Returns _ => _ | Throws _ => _ end) _ _ _ =>
      cbn [st_cancel_calls st_plan_calls upd_cancel_calls upd_trace upd_logs upd_plan_calls
           upd_projectState init_st]
  end; cbv beta iota.

(** C5 (amended): with the predicate false before the plan call and a plan
    that returns, a predicate true at the check right after the plan, or at
    the next one (the first scene's storyboard check, or the video check if
    there are no scenes), makes the run reject with
    [PipelineCancelledError]; [onProjectInitialized] was called once if the
    predicate first became true at the second of these checks, never if at
    the first; no project was passed to [onProjectUpdate]. *)
Theorem C5_cancel_before_storyboards B o f plan :
  shouldCancel o = Some f -> f 0 = false ->
  generateAdPlan (deps o) 0 (prompt o) (settings o) (files o) = Returns plan ->
  f 1 = true \/ f 2 = true ->
  exists s, run B o = (s, Err PipelineCancelledError) /\
    length (project_inits (st_trace s)) = (if f 1 then 0 else 1) /\
    project_updates (st_trace s) = [].
Proof.
  intros Hs H0 Hp H12.
  assert (W : wp (runGenerationPipeline B o) (fun _ _ => False)
                (fun e s' => e = PipelineCancelledError /\
                   length (project_inits (filter not_log (st_trace s'))) = (if f 1 then 0 else 1) /\
                   project_updates (filter not_log (st_trace s')) = []) init_st).
  { unfold runGenerationPipeline. repeat cstep Hs. rewrite H0. repeat cstep Hs. rewrite Hp. repeat cstep Hs.
    destruct (f 1) eqn:H1; repeat cstep Hs.
    - cbn. auto.
    - destruct H12 as [H12|H2]; [discriminate|].
      cbn [scenes initial_project]. destruct (plan_scenes plan) as [|sc0 l]; cbn [map for_each];
        repeat cstep Hs; rewrite H2; repeat cstep Hs; cbn; auto.
    }
  unfold wp, run in *. destruct (runGenerationPipeline B o init_st) as [s [r|e]]; [contradiction|].
  destruct W as (-> & Hi & Hu). exists s. rewrite project_inits_filter, project_updates_filter in *.
  auto.
Qed.

Lemma C5_cancel_before_storyboards_witness :
  exists s, run ex_builtins (ex_options (Some (fun k => Nat.leb 2 k)) (ex_deps JNull))
            = (s, Err PipelineCancelledError) /\
    length (project_inits (st_trace s)) = 1 /\ project_updates (st_trace s) = [].
Proof.
  exact (C5_cancel_before_storyboards ex_builtins
           (ex_options (Some (fun k => Nat.leb 2 k)) (ex_deps JNull)) (fun k => Nat.leb 2 k)
           ex_plan eq_refl eq_refl eq_refl (or_intror eq_refl)).
Defined.


Lemma meq_refl {A} (m : M A) : meq m m.
Proof. intros s; reflexivity. Qed.

Lemma meq_bind {A C} (m1 m2 : M A) (f1 f2 : A -> M C) :
  meq m1 m2 -> (forall a, meq (f1 a) (f2 a)) -> meq (bind m1 f1) (bind m2 f2).
Proof. intros Hm Hf s. unfold bind. rewrite Hm. destruct (m2 s) as [s' [a|e]]; [apply Hf | reflexivity]. Qed.

Lemma meq_try {A} (m1 m2 : M A) h1 h2 :
  meq m1 m2 -> (forall e, meq (h1 e) (h2 e)) -> meq (try_catch m1 h1) (try_catch m2 h2).
Proof. intros Hm Hh s. unfold try_catch. rewrite Hm. destruct (m2 s) as [s' [a|e]]; [reflexivity | apply Hh]. Qed.

Lemma meq_for_each {A} (l : list A) b1 b2 :
  (forall x, meq (b1 x) (b2 x)) -> meq (for_each l b1) (for_each l b2).
Proof. intros Hb. induction l as [|x l IH]; cbn [for_each]; [apply meq_refl | apply meq_bind; auto]. Qed.

(** The run as a function of the adapters: results with url [""] and
    [null] take the same path. *)
Section EmptyVsNull.
Variable B : Builtins.
Variable o : GenerationPipelineOptions.
Variable d2 : Deps.
Hypothesis H : deps_empty_vs_null B (deps o) d2.

Ltac red_call := cbv beta iota zeta delta [bind ret throw gets modify push_event of_outcome normalize_m
  call_storyboard call_video call_voiceover call_music];
  try change (deps (with_deps o d2)) with d2; try change (settings (with_deps o d2)) with (settings o);
  try change (visualAnchorDataUrl (with_deps o d2)) with (visualAnchorDataUrl o);
  try change (preferredVoice (with_deps o d2)) with (preferredVoice o);
  try change (music_mood (with_deps o d2)) with (music_mood o).

Ltac close_evn Hx :=
  destruct Hx as [E | (v1 & v2 & r & E1 & E2 & N1 & N2)];
  [ rewrite E; reflexivity
  | rewrite E1, E2; cbv beta iota delta [ret]; rewrite N1, N2; reflexivity ].

Lemma meq_storyboard_step sc : meq (storyboard_step B o sc) (storyboard_step B (with_deps o d2) sc).
Proof.
  unfold storyboard_step. apply meq_bind; [apply meq_refl | intros _].
  apply meq_bind; [apply meq_refl | intros _].
  apply meq_try; [| intros e; apply meq_refl].
  intros s. red_call. destruct H as (_ & Hsb & _).
  close_evn (Hsb (st_storyboard_calls s) sc (aspectRatio (settings o)) (visualAnchorDataUrl o)).
Qed.

Lemma meq_video_step sc : meq (video_step B o sc) (video_step B (with_deps o d2) sc).
Proof.
  unfold video_step. apply meq_bind; [apply meq_refl | intros _].
  apply meq_bind; [apply meq_refl | intros _].
  apply meq_bind; [apply meq_refl | intros _].
  apply meq_try; [| intros e; apply meq_refl].
  intros s. red_call. destruct H as (_ & _ & Hv & _).
  close_evn (Hv (st_video_calls s) sc (aspectRatio (settings o)) (storyboardUrl sc)).
Qed.

Lemma meq_voiceover_stage plan : meq (voiceover_stage B o plan) (voiceover_stage B (with_deps o d2) plan).
Proof.
  unfold voiceover_stage. apply meq_try; [| intros e; apply meq_refl].
  intros s. red_call. destruct H as (_ & _ & _ & Hvo & _).
  close_evn (Hvo (st_voiceover_calls s) (plan_fullScript plan) (preferredVoice o) (plan_script plan)).
Qed.

Lemma meq_music_stage plan : meq (music_stage B o plan) (music_stage B (with_deps o d2) plan).
Proof.
  unfold music_stage. apply meq_try; [| intros e; apply meq_refl].
  intros s. red_call. destruct H as (_ & _ & _ & _ & Hm).
  close_evn (Hm (st_music_calls s) (music_mood o plan)).
Qed.

Lemma meq_call_plan : meq (call_plan o) (call_plan (with_deps o d2)).
Proof.
  intros s. unfold call_plan. red_call. destruct H as (Hp & _). rewrite Hp. reflexivity.
Qed.

Lemma meq_run : meq (runGenerationPipeline B o) (runGenerationPipeline B (with_deps o d2)).
Proof.
  unfold runGenerationPipeline, after_plan.
  repeat first
    [ apply meq_storyboard_step | apply meq_video_step | apply meq_voiceover_stage
    | apply meq_music_stage | apply meq_call_plan
    | apply meq_for_each; intros ?
    | apply meq_bind; [| intros ?]
    | apply meq_try; [| intros ?]
    | apply meq_refl ].
Qed.

End EmptyVsNull.

(** C9: replacing adapter results whose normalized url is [""] by the same
    results with a [null] url changes nothing in the run: the same trace of
    callbacks and calls, the same state and the same result or rejection. *)
Theorem C9_empty_url_as_null B o d2 :
  deps_empty_vs_null B (deps o) d2 -> run B o = run B (with_deps o d2).
Proof. intros H. unfold run. apply (meq_run B o d2 H). Qed.

Lemma C9_empty_url_as_null_witness :
  run ex_builtins (ex_options None (ex_deps (JStr ""))) =
  run ex_builtins (with_deps (ex_options None (ex_deps (JStr ""))) (ex_deps JNull)).
Proof.
  apply C9_empty_url_as_null.
  split; [reflexivity|]. split; [|split; [|split]].
  - intros [|k] sc ar a; cbn [ex_deps generateStoryboardImage Nat.eqb].
    + right. exists (JStr ""), JNull,
        {| na_url := None; na_fallbackUsed := false; na_diagnostics := [] |}.
      repeat split; reflexivity.
    + left; reflexivity.
  - intros; left; reflexivity.
  - intros; left; reflexivity.
  - intros; left; reflexivity.
Defined.

(* ------------------------------------------------------------------ *)
(** ** Properties of the orchestrator beyond the claims *)

Section Keeps.
Variable P : St -> Prop.

Lemma keeps_ret {A} (R : A -> Prop) a : R a -> keeps P R (ret a).
Proof. intros HR s Hs. unfold wp, ret. auto. Qed.

Lemma keeps_throw {A} (R : A -> Prop) e : keeps P R (throw e).
Proof. intros s Hs. exact Hs. Qed.

Lemma keeps_modify (R : unit -> Prop) f :
  (forall s, P s -> P (f s)) -> R tt -> keeps P R (modify f).
Proof. intros Hf HR s Hs. unfold wp, modify. auto. Qed.

Lemma keeps_bind {A C} (R : C -> Prop) (m : M A) (f : A -> M C) :
  keeps P ktrue m -> (forall a, keeps P R (f a)) -> keeps P R (bind m f).
Proof.
  intros Hm Hf s Hs. apply wp_bind_intro. eapply wp_mono; [| exact (fun _ _ h => h) | exact (Hm s Hs)].
  intros a s' [H' _]. exact (Hf a s' H').
Qed.

Lemma keeps_bind_gets {A C} (R : C -> Prop) (g : St -> A) (f : A -> M C) :
  (forall s, P s -> keeps P R (f (g s))) -> keeps P R (bind (gets g) f).
Proof. intros Hf s Hs. apply wp_bind_intro, wp_gets_intro. exact (Hf s Hs s Hs). Qed.

Lemma keeps_try {A} (R : A -> Prop) (m : M A) h :
  keeps P R m -> (forall e, keeps P R (h e)) -> keeps P R (try_catch m h).
Proof.
  intros Hm Hh s Hs. apply wp_try_intro. eapply wp_mono; [exact (fun _ _ h => h) | | exact (Hm s Hs)].
  intros e s' H'. exact (Hh e s' H').
Qed.

Lemma keeps_for_each {A} (Q : A -> Prop) (l : list A) (body : A -> M unit) :
  Forall Q l -> (forall x, Q x -> keeps P ktrue (body x)) -> keeps P ktrue (for_each l body).
Proof.
  intros Hl Hb. induction Hl as [|x l Hx Hl IH]; cbn [for_each].
  - apply keeps_ret. exact I.
  - apply keeps_bind; [apply Hb; exact Hx | intros _; exact IH].
Qed.

Lemma keeps_of_outcome {A} (o : outcome A) : keeps P ktrue (of_outcome o).
Proof. destruct o; [apply keeps_ret; exact I | apply keeps_throw]. Qed.

Lemma keeps_weaken {A} (R R' : A -> Prop) m :
  (forall a, R a -> R' a) -> keeps P R m -> keeps P R' m.
Proof.
  intros HR Hm s Hs. eapply wp_mono; [| exact (fun _ _ h => h) | exact (Hm s Hs)].
  intros a s' [H1 H2]; auto.
Qed.

End Keeps.

Lemma url_or_undefined_not_empty u : url_or_undefined u <> Some "".
Proof. unfold url_or_undefined, url_truthy. destruct u as [s|]; [|discriminate].
  destruct (String.eqb s "") eqn:E; cbn; [discriminate|]. intros [= ->]. discriminate. Qed.

Ltac kstep :=
  match goal with
  | |- keeps _ _ (bind (gets _) _) => apply keeps_bind_gets; intros ?s ?Hs
  | |- keeps _ _ (bind _ _) => apply keeps_bind; [ | intros ? ]
  | |- keeps _ _ (try_catch _ _) => apply keeps_try; [ | intros ? ]
  | |- keeps _ _ (ret _) => apply keeps_ret
  | |- keeps _ _ (throw _) => apply keeps_throw
  | |- keeps _ _ (of_outcome _) => apply keeps_of_outcome
  | |- keeps _ _ _ => progress (cbv beta iota)
  end.

Section PipelineKeeps.
Variable B : Builtins.
Variable o : GenerationPipelineOptions.

Lemma keeps_pushLog l st m c e : keeps pipeline_inv ktrue (pushLog B l st m c e).
Proof.
  unfold pushLog, push_event. kstep; apply keeps_modify; try exact I; intros s Hs; exact Hs.
Qed.

Lemma keeps_addIssue i : is_recoverable i = true -> keeps pipeline_inv ktrue (addIssue B i).
Proof.
  intros Hi. unfold addIssue. kstep; [| apply keeps_pushLog].
  apply keeps_modify; [| exact I]. intros s (H1 & H2). split; [|exact H2].
  cbn. apply Forall_app. split; [exact H1 | constructor; [exact Hi | constructor]].
Qed.

Lemma keeps_emit st ds c : keeps pipeline_inv ktrue (emitProviderDiagnostics B st ds c).
Proof.
  unfold emitProviderDiagnostics. apply keeps_for_each with (Q := ktrue).
  - apply Forall_forall. intros; exact I.
  - intros x _. apply keeps_pushLog.
Qed.

Lemma keeps_update_if f : keeps pipeline_inv ktrue (update_if_state f).
Proof.
  unfold update_if_state. kstep. destruct (st_projectState s); [|kstep; exact I].
  unfold updateProject, push_event. kstep; apply keeps_modify; try exact I; intros s' Hs'; exact Hs'.
Qed.

Lemma keeps_checkCancelled st : keeps pipeline_inv ktrue (checkCancelled B o st).
Proof.
  unfold checkCancelled. destruct (shouldCancel o) as [f|]; [|kstep; exact I].
  kstep. kstep; [apply keeps_modify; [intros s' H'; exact H' | exact I]|].
  destruct (f (st_cancel_calls s)); [kstep; [apply keeps_pushLog | kstep] | kstep; exact I].
Qed.

Lemma keeps_normalize v : keeps pipeline_inv ktrue (normalize_m B v).
Proof. unfold normalize_m. destruct (normalizeAssetResult B v); kstep; exact I. Qed.

Ltac kcall :=
  repeat kstep; try (apply keeps_modify; [intros ?s' ?H'; exact H' | exact I]).

Lemma keeps_storyboard_step sc : keeps pipeline_inv ktrue (storyboard_step B o sc).
Proof.
  unfold storyboard_step. kstep; [apply keeps_checkCancelled|]. kstep; [apply keeps_pushLog|].
  kstep.
  - kstep; [unfold call_storyboard; kcall|]. kstep; [apply keeps_normalize|].
    unfold storyboard_result. kstep; [apply keeps_emit|]. kstep.
    + apply keeps_modify; [| exact I]. intros s (H1 & H2 & H3 & H4 & H5).
      repeat split; auto. cbn. apply Forall_app. split; [exact H4|].
      constructor; [apply url_or_undefined_not_empty | constructor].
    + kstep; [| apply keeps_update_if].
      destruct (negb _); [apply keeps_addIssue; reflexivity | apply keeps_pushLog].
  - unfold storyboard_failed. kstep; [apply keeps_addIssue; reflexivity|]. kstep; [|apply keeps_update_if].
    apply keeps_modify; [| exact I]. intros s (H1 & H2 & H3 & H4 & H5).
    repeat split; auto. cbn. apply Forall_app. split; [exact H4|].
    constructor; [discriminate | constructor].
Qed.

Lemma keeps_video_step sc :
  storyboardUrl sc <> Some "" -> keeps pipeline_inv ktrue (video_step B o sc).
Proof.
  intros Hsc. unfold video_step. kstep; [apply keeps_checkCancelled|].
  kstep; [apply keeps_update_if|]. kstep; [apply keeps_pushLog|]. kstep.
  - kstep; [unfold call_video; kcall|]. apply keeps_bind; [apply keeps_normalize|].
    intros r. unfold video_result. kstep; [apply keeps_emit|]. kstep.
    + apply keeps_modify; [| exact I]. intros s (H1 & H2 & H3 & H4 & H5).
      repeat split; auto. cbn. apply Forall_app. split; [exact H5|].
      constructor; [|constructor]. split; [exact Hsc|]. cbn.
      destruct (url_truthy (na_url r)) eqn:E; [|discriminate].
      intros _. unfold url_or_undefined. rewrite E. exact E.
    + kstep; [| apply keeps_update_if].
      destruct (negb _); [apply keeps_addIssue; reflexivity|].
      kstep; [|apply keeps_pushLog]. destruct (na_fallbackUsed r); [apply keeps_pushLog | kstep; exact I].
  - unfold video_failed. kstep; [apply keeps_addIssue; reflexivity|]. kstep; [|apply keeps_update_if].
    apply keeps_modify; [| exact I]. intros s (H1 & H2 & H3 & H4 & H5).
    repeat split; auto. cbn. apply Forall_app. split; [exact H5|].
    constructor; [|constructor]. split; [exact Hsc|]. discriminate.
Qed.

Lemma keeps_voiceover_stage plan : keeps pipeline_inv ktrue (voiceover_stage B o plan).
Proof.
  unfold voiceover_stage. kstep.
  - kstep; [unfold call_voiceover; kcall|]. kstep; [apply keeps_normalize|].
    unfold voiceover_result. kstep; [apply keeps_emit|]. kstep.
    + apply keeps_modify; [| exact I]. intros s (H1 & H2 & H3 & H4 & H5).
      repeat split; auto. apply url_or_undefined_not_empty.
    + kstep. destruct (negb _); [apply keeps_addIssue; reflexivity | apply keeps_pushLog].
  - unfold voiceover_failed. apply keeps_addIssue; reflexivity.
Qed.

Lemma keeps_music_stage plan : keeps pipeline_inv ktrue (music_stage B o plan).
Proof.
  unfold music_stage. kstep.
  - kstep; [unfold call_music; kcall|]. kstep; [apply keeps_normalize|].
    unfold music_result. kstep; [apply keeps_emit|]. kstep.
    + apply keeps_modify; [| exact I]. intros s (H1 & H2 & H3 & H4 & H5).
      repeat split; auto. apply url_or_undefined_not_empty.
    + kstep. destruct (negb _); [apply keeps_addIssue; reflexivity|].
      destruct (na_fallbackUsed _); [apply keeps_addIssue; reflexivity | apply keeps_pushLog].
  - unfold music_failed. apply keeps_addIssue; reflexivity.
Qed.

Lemma keeps_finalization plan : keeps pipeline_inv result_ok (finalization B plan).
Proof.
  unfold finalization. kstep. destruct (st_projectState s) as [p|]; [|kstep].
  kstep. kstep. kstep. kstep; [unfold updateProject, push_event; kcall|].
  kstep. kstep; [apply keeps_pushLog|]. kstep. kstep.
  repeat match goal with H : pipeline_inv _ |- _ => destruct H as (? & ? & ? & ? & ?) end.
  repeat split; cbn; auto.
Qed.

Lemma keeps_after_plan plan : keeps pipeline_inv result_ok (after_plan B o plan).
Proof.
  unfold after_plan. kstep; [apply keeps_checkCancelled|].
  kstep; [apply keeps_modify; [intros s' H'; exact H' | exact I]|].
  kstep; [unfold push_event; apply keeps_modify; [intros s' H'; exact H' | exact I]|].
  kstep; [apply keeps_pushLog|].
  kstep; [apply keeps_for_each with (Q := ktrue);
          [apply Forall_forall; intros; exact I | intros x _; apply keeps_storyboard_step]|].
  kstep; [apply keeps_checkCancelled|]. kstep. kstep; [apply keeps_update_if|].
  kstep; [apply keeps_for_each with (Q := fun sc => storyboardUrl sc <> Some "");
          [apply Hs | intros x Hx; apply keeps_video_step, Hx]|].
  kstep; [apply keeps_checkCancelled|]. kstep. kstep; [apply keeps_update_if|].
  kstep; [apply keeps_voiceover_stage|]. kstep; [apply keeps_checkCancelled|].
  kstep. kstep; [apply keeps_update_if|]. kstep; [apply keeps_music_stage|].
  apply keeps_finalization.
Qed.

Lemma keeps_run : keeps pipeline_inv result_ok (runGenerationPipeline B o).
Proof.
  unfold runGenerationPipeline. kstep; [apply keeps_pushLog|]. kstep; [apply keeps_checkCancelled|].
  kstep; [|apply keeps_after_plan]. kstep; [unfold call_plan; kcall|].
  kstep; [apply keeps_pushLog | kstep].
Qed.

End PipelineKeeps.

Lemma pipeline_inv_init : pipeline_inv init_st.
Proof. repeat split; cbn; try constructor; discriminate. Qed.



(** X1: every issue a run records is recoverable: [addIssue] is only called
    with [recoverable: true], so the issues in the final state and in a
    resolved run's result all have [recoverable = true]. *)
Theorem run_issues_recoverable B o :
  Forall (fun i => is_recoverable i = true) (st_issues (fst (run B o))) /\
  (forall s r, run B o = (s, Ok r) -> Forall (fun i => is_recoverable i = true) (rr_issues r)).
Proof.
  pose proof (keeps_run B o init_st pipeline_inv_init) as W. unfold wp, run in *.
  destruct (runGenerationPipeline B o init_st) as [s [r|e]]; cbn [fst].
  - destruct W as [(H1 & _) (H2 & _)]. split; [exact H1|]. intros s' r' [= <- <-]. exact H2.
  - destruct W as (H1 & _). split; [exact H1|]. intros s' r' [=].
Qed.

(** X2: in a resolved run the voiceover and music urls are never [""] (an
    empty url is stored as [undefined]), and the returned project carries
    the same two urls as the run result. *)
Theorem run_audio_urls_not_empty B o s r :
  run B o = (s, Ok r) ->
  rr_voiceoverUrl r <> Some "" /\ rr_musicUrl r <> Some "" /\
  voiceoverUrl (rr_project r) = rr_voiceoverUrl r /\ musicUrl (rr_project r) = rr_musicUrl r.
Proof.
  intros Hr. pose proof (keeps_run B o init_st pipeline_inv_init) as W. unfold wp, run in *.
  rewrite Hr in W. destruct W as [_ (_ & H1 & H2 & H3 & H4 & _)]. auto.
Qed.

Lemma run_audio_urls_not_empty_witness :
  exists s r, run ex_builtins (ex_options None (ex_deps JNull)) = (s, Ok r) /\
  rr_voiceoverUrl r <> Some "" /\ rr_musicUrl r <> Some "" /\
  voiceoverUrl (rr_project r) = rr_voiceoverUrl r /\ musicUrl (rr_project r) = rr_musicUrl r.
Proof.
  eexists; eexists; split; [cbv; reflexivity|].
  apply (run_audio_urls_not_empty ex_builtins (ex_options None (ex_deps JNull))
           (fst (run ex_builtins (ex_options None (ex_deps JNull))))). vm_compute; reflexivity.
Defined.

(** X3: in a resolved run no scene of the returned project has the storyboard
    url [""], and every scene marked [complete] has a non-empty video url. *)
Theorem run_scene_urls B o s r :
  run B o = (s, Ok r) ->
  Forall (fun sc => storyboardUrl sc <> Some "" /\
                    (status sc = Complete -> url_truthy (videoUrl sc) = true))
    (scenes (rr_project r)).
Proof.
  intros Hr. pose proof (keeps_run B o init_st pipeline_inv_init) as W.
  pose proof (run_resolves B o s r Hr) as (_ & _ & Hsc & _).
  unfold wp, run in *. rewrite Hr in W. destruct W as [_ (_ & _ & _ & _ & _ & H)].
  rewrite <- Hsc. exact H.
Qed.

Lemma run_scene_urls_witness :
  exists s r, run ex_builtins (ex_options None (ex_deps JNull)) = (s, Ok r) /\
  Forall (fun sc => storyboardUrl sc <> Some "" /\
                    (status sc = Complete -> url_truthy (videoUrl sc) = true))
    (scenes (rr_project r)).
Proof.
  eexists; eexists; split; [cbv; reflexivity|].
  apply (run_scene_urls ex_builtins (ex_options None (ex_deps JNull))
           (fst (run ex_builtins (ex_options None (ex_deps JNull))))). vm_compute; reflexivity.
Defined.

(** X4: if the run is not cancelled before the plan and the plan adapter
    throws [e], the run rejects with [e] itself, after exactly the plan call
    and no callback, with no project state and exactly the two log entries
    "Pipeline started." and "Failed to generate ad plan." (the latter with
    the normalized [e]). *)
Theorem run_plan_failure B o e :
  (forall f, shouldCancel o = Some f -> f 0 = false) ->
  generateAdPlan (deps o) 0 (prompt o) (settings o) (files o) = Throws e ->
  exists s, run B o = (s, Err (Raised e)) /\
    filter not_log (st_trace s) = [EvPlanCall 0 (prompt o)] /\
    st_projectState s = None /\
    st_logs s =
      [{| le_stage := Planning; le_level := Info; le_message := JStr "Pipeline started.";
          le_context := JUndef; le_error := normalize_error B JUndef |};
       {| le_stage := Planning; le_level := LError;
          le_message := JStr "Failed to generate ad plan.";
          le_context := JUndef; le_error := normalize_error B e |}].
Proof.
  intros Hc Hp.
  assert (W : wp (runGenerationPipeline B o) (fun _ _ => False)
    (fun ex s' => ex = Raised e /\
       filter not_log (st_trace s') = [EvPlanCall 0 (prompt o)] /\
       st_projectState s' = None /\
       st_logs s' =
      [{| le_stage := Planning; le_level := Info; le_message := JStr "Pipeline started.";
          le_context := JUndef; le_error := normalize_error B JUndef |};
       {| le_stage := Planning; le_level := LError;
          le_message := JStr "Failed to generate ad plan.";
          le_context := JUndef; le_error := normalize_error B e |}]) init_st).
  { unfold runGenerationPipeline. destruct (shouldCancel o) as [f|] eqn:Hs.
    - repeat cstep Hs. rewrite (Hc f eq_refl). repeat cstep Hs. rewrite Hp. repeat cstep Hs.
      cbn. auto.
    - repeat cstep Hs. rewrite Hp. repeat cstep Hs. cbn. auto. }
  unfold wp, run in *. destruct (runGenerationPipeline B o init_st) as [s [r|ex]]; [contradiction|].
  destruct W as (-> & H1 & H2 & H3). exists s. auto.
Qed.

Lemma run_plan_failure_witness :
  exists s, run ex_builtins (ex_options None ex_deps_plan_down) = (s, Err (Raised (JStr "planner offline"))) /\
    filter not_log (st_trace s) = [EvPlanCall 0 "An ad"] /\
    st_projectState s = None /\
    st_logs s =
      [{| le_stage := Planning; le_level := Info; le_message := JStr "Pipeline started.";
          le_context := JUndef; le_error := normalize_error ex_builtins JUndef |};
       {| le_stage := Planning; le_level := LError;
          le_message := JStr "Failed to generate ad plan.";
          le_context := JUndef; le_error := normalize_error ex_builtins (JStr "planner offline") |}].
Proof.
  apply (run_plan_failure ex_builtins (ex_options None ex_deps_plan_down) (JStr "planner offline"));
  [intros f Hf; discriminate | reflexivity].
Defined.

(** X5: if [shouldCancel] is already true at the first check, the run
    rejects with [PipelineCancelledError] before any adapter call or
    callback, and no project state exists. *)
Theorem run_cancel_before_plan B o f :
  shouldCancel o = Some f -> f 0 = true ->
  exists s, run B o = (s, Err PipelineCancelledError) /\
    filter not_log (st_trace s) = [] /\ st_plan_calls s = 0 /\ st_projectState s = None.
Proof.
  intros Hs H0.
  assert (W : wp (runGenerationPipeline B o) (fun _ _ => False)
    (fun ex s' => ex = PipelineCancelledError /\ filter not_log (st_trace s') = [] /\
       st_plan_calls s' = 0 /\ st_projectState s' = None) init_st).
  { unfold runGenerationPipeline. repeat cstep Hs. rewrite H0. repeat cstep Hs. cbn. auto. }
  unfold wp, run in *. destruct (runGenerationPipeline B o init_st) as [s [r|ex]]; [contradiction|].
  destruct W as (-> & H1 & H2 & H3). exists s. auto.
Qed.

Lemma run_cancel_before_plan_witness :
  exists s, run ex_builtins (ex_options (Some (fun _ => true)) (ex_deps JNull)) = (s, Err PipelineCancelledError) /\
    filter not_log (st_trace s) = [] /\ st_plan_calls s = 0 /\ st_projectState s = None.
Proof.
  exact (run_cancel_before_plan ex_builtins (ex_options (Some (fun _ => true)) (ex_deps JNull))
           (fun _ => true) eq_refl eq_refl).
Defined.

Lemma find_first {A} (p : A -> bool) l x :
  find p l = Some x <->
  exists pre post, l = (pre ++ x :: post)%list /\ p x = true /\ Forall (fun y => p y = false) pre.
Proof.
  induction l as [|y l IH]; cbn.
  - split; [discriminate|]. intros (pre & post & H & _). destruct pre; discriminate.
  - destruct (p y) eqn:Ey; split.
    + intros [= <-]. exists [], l. auto.
    + intros (pre & post & Hl & Hx & Hpre). destruct pre as [|z pre]; cbn in Hl.
      * injection Hl as -> ->. reflexivity.
      * injection Hl as -> ->. inversion Hpre; congruence.
    + intros H. apply IH in H as (pre & post & -> & Hx & Hpre). exists (y :: pre), post.
      repeat split; auto.
    + intros (pre & post & Hl & Hx & Hpre). destruct pre as [|z pre]; cbn in Hl.
      * injection Hl as -> ->. congruence.
      * injection Hl as -> ->. apply IH. inversion Hpre; subst. exists pre, post. auto.
Qed.

Lemma find_none_iff {A} (p : A -> bool) l :
  find p l = None <-> Forall (fun y => p y = false) l.
Proof.
  induction l as [|y l IH]; cbn; [split; auto|].
  destruct (p y) eqn:Ey; split.
  - discriminate.
  - intros H; inversion H; congruence.
  - intros H; constructor; [exact Ey | apply IH, H].
  - intros H; inversion H; apply IH; assumption.
Qed.

Lemma level_eqb_true a b : level_eqb a b = true <-> a = b.
Proof. destruct a, b; cbn; split; congruence. Qed.

Lemma level_eqb_false a b : level_eqb a b = false <-> a <> b.
Proof. destruct a, b; cbn; split; congruence. Qed.

Lemma Forall_iff {A} (P Q : A -> Prop) l : (forall x, P x <-> Q x) -> Forall P l <-> Forall Q l.
Proof. intros H. split; apply Forall_impl; apply H. Qed.

(** X6: [selectPrimaryDiagnostic] returns the first [error] diagnostic if
    there is one, otherwise the first [warn] diagnostic, and returns
    [undefined] exactly when every diagnostic is [info]. *)
Theorem selectPrimaryDiagnostic_spec ds :
  (forall d, selectPrimaryDiagnostic ds = Some d <->
   exists pre post, ds = (pre ++ d :: post)%list /\
     ((nd_level d = LError /\ Forall (fun d' => nd_level d' <> LError) pre) \/
      (nd_level d = Warn /\ Forall (fun d' => nd_level d' = Info) pre /\
       Forall (fun d' => nd_level d' <> LError) post))) /\
  (selectPrimaryDiagnostic ds = None <-> Forall (fun d => nd_level d = Info) ds).
Proof.
  assert (Hinfo : forall d, nd_level d = Info <-> (level_eqb (nd_level d) LError = false /\
                                                   level_eqb (nd_level d) Warn = false)).
  { intros d. destruct (nd_level d); cbn; intuition discriminate. }
  unfold selectPrimaryDiagnostic. split.
  - intros d. destruct (find (fun d => level_eqb (nd_level d) LError) ds) as [e|] eqn:Ee.
    + apply find_first in Ee as (pre & post & -> & He & Hpre). split.
      * intros [= <-]. exists pre, post. split; [reflexivity|]. left.
        split; [apply level_eqb_true, He|]. revert Hpre; apply Forall_impl; intros y Hy.
        apply level_eqb_false, Hy.
      * intros (pre' & post' & Hl & [[Hd Hp]|[Hd [Hp Hq]]]).
        -- f_equal. assert (Hf : find (fun d => level_eqb (nd_level d) LError) (pre ++ e :: post)%list = Some d).
           { rewrite Hl. apply find_first. exists pre', post'. split; [reflexivity|].
             split; [apply level_eqb_true, Hd|]. revert Hp; apply Forall_impl; intros y Hy.
             apply level_eqb_false, Hy. }
           assert (He' : find (fun d => level_eqb (nd_level d) LError) (pre ++ e :: post)%list = Some e).
           { apply find_first. exists pre, post. auto. }
           congruence.
        -- exfalso. assert (Hn : Forall (fun d' => nd_level d' <> LError) (pre ++ e :: post)%list).
           { rewrite Hl. apply Forall_app. split; [revert Hp; apply Forall_impl; congruence|].
             constructor; [congruence | exact Hq]. }
           apply Forall_app in Hn as [_ Hn]. inversion Hn. apply level_eqb_true in He. auto.
    + apply find_none_iff in Ee. rewrite find_first. split.
      * intros (pre & post & -> & Hd & Hpre). exists pre, post. split; [reflexivity|]. right.
        apply Forall_app in Ee as [E1 E2]. inversion E2; subst.
        split; [apply level_eqb_true, Hd|]. split.
        -- apply Forall_forall. intros y Hy. apply Hinfo. split.
           ++ rewrite Forall_forall in E1. apply E1, Hy.
           ++ rewrite Forall_forall in Hpre. apply Hpre, Hy.
        -- revert H2; apply Forall_impl; intros y Hy. apply level_eqb_false, Hy.
      * intros (pre & post & -> & [[Hd Hp]|[Hd [Hp Hq]]]).
        -- exfalso. apply Forall_app in Ee as [_ E2]. inversion E2. rewrite Hd in H1. discriminate.
        -- exists pre, post. split; [reflexivity|]. split; [rewrite Hd; reflexivity|].
           revert Hp; apply Forall_impl; intros y Hy. rewrite Hy. reflexivity.
  - destruct (find (fun d => level_eqb (nd_level d) LError) ds) as [e|] eqn:Ee.
    + split; [discriminate|]. intros Hall. apply find_first in Ee as (pre & post & -> & He & _).
      apply Forall_app in Hall as [_ H2]. inversion H2 as [|? ? H3]. rewrite H3 in He. discriminate.
    + rewrite find_none_iff. apply find_none_iff in Ee. split.
      * intros Hw. apply Forall_forall. intros y Hy. apply Hinfo.
        rewrite Forall_forall in Ee, Hw. auto.
      * intros Hall. revert Hall; apply Forall_impl; intros y Hy. apply Hinfo in Hy. apply Hy.
Qed.

Lemma isSerialized_truthy v : isSerializedPipelineError v = true -> truthy v = true.
Proof. destruct v; cbn; congruence. Qed.

(** X7: [normalizeError] maps a falsy value to [undefined]; a truthy value
    that [JSON.stringify] can serialize becomes a serialized pipeline error,
    and normalizing that again changes nothing. *)
Theorem normalize_error_shape B e :
  (truthy e = false -> normalize_error B e = JUndef) /\
  (truthy e = true -> json_stringify B e <> Some None ->
   isSerializedPipelineError (normalize_error B e) = true /\
   normalize_error B (normalize_error B e) = normalize_error B e).
Proof.
  unfold normalize_error. split; [intros ->; reflexivity|]. intros Ht Hj. rewrite Ht.
  assert (Hs : isSerializedPipelineError
                 (if isSerializedPipelineError e then e else toSerializedError B e) = true).
  { destruct (isSerializedPipelineError e) eqn:Es; [exact Es|].
    unfold toSerializedError. destruct e; cbn; try reflexivity;
      destruct (json_stringify B _) as [[r|]|]; cbn; congruence. }
  split; [exact Hs|]. rewrite (isSerialized_truthy _ Hs), Hs. reflexivity.
Qed.

(* ------------------------------------------------------------------ *)
(** ** Properties of the Gemini, Veo and TTS adapters *)

Module GeminiServiceProofs.
Import GeminiService.

Lemma substring_full s n : String.length s <= n -> substring 0 n s = s.
Proof.
  revert n; induction s as [|c s IH]; intros n Hn; destruct n; cbn in *; try reflexivity; try lia.
  f_equal. apply IH. lia.
Qed.

Lemma substring_app_r p s n k : substring (String.length p + n) k (p ++ s) = substring n k s.
Proof. induction p as [|c p IH]; cbn; [reflexivity|]. exact IH. Qed.

Lemma substring_app_l p s : substring 0 (String.length p) (p ++ s) = p.
Proof. induction p as [|c p IH]; cbn; [destruct s; reflexivity|]. f_equal. exact IH. Qed.

Lemma prefix_app p s : String.prefix p (p ++ s) = true.
Proof.
  induction p as [|c p IH]; cbn; [destruct s; reflexivity|].
  destruct (ascii_dec c c); [exact IH | congruence].
Qed.

Lemma append_assoc_str (a b c : string) : (a ++ b ++ c) = ((a ++ b) ++ c).
Proof. induction a as [|x a IH]; cbn; [reflexivity|]. rewrite IH; reflexivity. Qed.

Lemma length_app (a b : string) : String.length (a ++ b) = String.length a + String.length b.
Proof. induction a; cbn; auto. Qed.

Lemma no_line_terminator_app a b :
  no_line_terminator (a ++ b) = no_line_terminator a && no_line_terminator b.
Proof. induction a as [|c a IH]; cbn; [reflexivity|]. rewrite IH. apply andb_assoc. Qed.

Lemma no_marker_in b : includes b ";" = false -> forall j, substring j 8 b <> ";base64,".
Proof.
  induction b as [|c b IH]; intros Hb j.
  - destruct j; cbn; discriminate.
  - cbn in Hb. apply orb_false_iff in Hb as [Hc Hb]. destruct j as [|j]; cbn.
    + intros H. injection H. intros _ Ec. subst c. revert Hc. vm_compute. destruct b; intros Hc; discriminate.
    + apply IH, Hb.
Qed.

Lemma last_marker_skip r n i :
  (forall j, n < j <= n + i -> String.eqb (substring j 8 r) ";base64," = false) ->
  last_marker r (n + i) = last_marker r n.
Proof.
  induction i as [|i IH]; intros H; [rewrite Nat.add_0_r; reflexivity|].
  rewrite Nat.add_succ_r. cbn [last_marker]. rewrite <- Nat.add_succ_r.
  rewrite (H (n + S i)) by lia. cbn [andb]. apply IH. intros j Hj. apply H. lia.
Qed.

Lemma parseDataUrl_roundtrip_aux m b :
  m <> "" -> b <> "" -> no_line_terminator m = true -> no_line_terminator b = true ->
  includes b ";" = false ->
  parseDataUrl ("data:" ++ m ++ ";base64," ++ b) = Some (m, b).
Proof.
  intros Hm Hb Lm Lb Sb. unfold parseDataUrl.
  remember (m ++ ";base64," ++ b) as r eqn:Er.
  assert (Hpre : String.prefix "data:" ("data:" ++ r) = true) by apply prefix_app.
  rewrite Hpre. cbn [andb].
  assert (Hnl : no_line_terminator ("data:" ++ r) = true).
  { rewrite Er. rewrite !no_line_terminator_app, Lm, Lb. reflexivity. }
  rewrite Hnl.
  assert (Hlen : String.length ("data:" ++ r) - 5 = String.length r).
  { rewrite length_app. cbn. lia. }
  rewrite Hlen.
  assert (Hr : substring 5 (String.length r) ("data:" ++ r) = r).
  { change 5 with (String.length "data:" + 0). rewrite substring_app_r. apply substring_full. lia. }
  rewrite Hr.
  assert (Lr : String.length r = String.length m + 8 + String.length b).
  { rewrite Er. rewrite !length_app. cbn. lia. }
  assert (Hb1 : 1 <= String.length b) by (destruct b; [congruence | cbn; lia]).
  assert (Hm1 : 1 <= String.length m) by (destruct m; [congruence | cbn; lia]).
  assert (Hlm : last_marker r (String.length r) = Some (String.length m)).
  { replace (String.length r) with (String.length m + (8 + String.length b)) by lia.
    rewrite last_marker_skip.
    - assert (E1 : substring (String.length m) 8 r = ";base64,").
      { rewrite Er. replace (String.length m) with (String.length m + 0) at 1 by lia.
        rewrite substring_app_r. destruct b; reflexivity. }
      destruct (String.length m) as [|k] eqn:Ek; [lia|]. cbn [last_marker].
      rewrite E1, Lr. rewrite (proj2 (Nat.ltb_lt _ _)) by lia. reflexivity.
    - intros j Hj. apply String.eqb_neq. rewrite Er.
      replace j with (String.length m + (j - String.length m)) by lia. rewrite substring_app_r.
      destruct (j - String.length m) as [|k] eqn:Ek; [lia|].
      destruct k as [|[|[|[|[|[|[|k]]]]]]]; try (cbn; discriminate).
      replace (S (S (S (S (S (S (S (S k)))))))) with (String.length ";base64," + k) by reflexivity.
      rewrite substring_app_r. apply no_marker_in, Sb. }
  rewrite Hlm. f_equal. f_equal.
  - rewrite Er. apply substring_app_l.
  - rewrite Lr. rewrite Er. replace (String.length m + 8 + String.length b - (String.length m + 8))
      with (String.length b) by lia.
    replace (String.length m + 8) with (String.length (m ++ ";base64,") + 0)
      by (rewrite length_app; cbn; lia).
    rewrite append_assoc_str. rewrite substring_app_r. apply substring_full. lia.
Qed.

(** X8: [parseDataUrl] recovers the mime type and the payload of
    [data:<mime>;base64,<data>] when both parts are non-empty, contain no
    line terminator and the payload contains no [;]. *)
Theorem parseDataUrl_roundtrip m b :
  m <> "" -> b <> "" -> no_line_terminator m = true -> no_line_terminator b = true ->
  includes b ";" = false ->
  parseDataUrl ("data:" ++ m ++ ";base64," ++ b) = Some (m, b).
Proof. exact (parseDataUrl_roundtrip_aux m b). Qed.

Lemma map_entries_diagnostics B ds :
  map_entries B (map diagnostic_js ds) = Some (map (normalized_diagnostic B) ds).
Proof.
  induction ds as [|d ds IH]; cbn; [reflexivity|]. rewrite IH.
  unfold normalize_entry, normalized_diagnostic. cbn. f_equal. f_equal.
  destruct (pd_level d); reflexivity.
Qed.

Lemma normalizeAssetResult_result_js_eq B r :
  normalizeAssetResult B (result_js r) =
  Some {| na_url := url r; na_fallbackUsed := fallbackUsed r;
          na_diagnostics := map (normalized_diagnostic B) (diagnostics r) |}.
Proof.
  unfold normalizeAssetResult, result_js. cbn. rewrite map_entries_diagnostics.
  destruct (url r); destruct (fallbackUsed r); reflexivity.
Qed.

(** X9: the pipeline's [normalizeAssetResult] reads back, from the object an
    adapter builds with [buildGeneratedAssetResult], its url, its
    [fallbackUsed] flag and its diagnostics entry by entry (level, code,
    message, context, and the normalized error). *)
Theorem normalizeAssetResult_result_js B r :
  normalizeAssetResult B (result_js r) =
  Some {| na_url := url r; na_fallbackUsed := fallbackUsed r;
          na_diagnostics := map (normalized_diagnostic B) (diagnostics r) |}.
Proof. exact (normalizeAssetResult_result_js_eq B r). Qed.

(** X10: when an adapter result has no url and at least one non-[info]
    diagnostic, the pipeline's normalized result has no url and
    [selectPrimaryDiagnostic] picks one of that result's non-[info]
    diagnostics. *)
Theorem null_url_primary_diagnostic B r :
  url r = None -> (exists d, In d (diagnostics r) /\ pd_level d <> Info) ->
  exists n d, normalizeAssetResult B (result_js r) = Some n /\ na_url n = None /\
    In d (diagnostics r) /\ pd_level d <> Info /\
    selectPrimaryDiagnostic (na_diagnostics n) = Some (normalized_diagnostic B d).
Proof.
  intros Hu (d0 & Hd0 & Hl0). rewrite normalizeAssetResult_result_js_eq.
  eexists.
  cut (exists d, In d (diagnostics r) /\ pd_level d <> Info /\
    selectPrimaryDiagnostic (map (normalized_diagnostic B) (diagnostics r)) = Some (normalized_diagnostic B d)).
  { intros (d & H1 & H2 & H3). exists d. split; [reflexivity|]. cbn [na_diagnostics na_url]. auto. }
  unfold selectPrimaryDiagnostic.
  destruct (find (fun d => level_eqb (nd_level d) LError) (map (normalized_diagnostic B) (diagnostics r)))
    as [e|] eqn:Ee.
  - apply find_some in Ee as [He1 He2]. apply in_map_iff in He1 as (d & <- & Hd).
    exists d. split; [exact Hd|]. split; [|reflexivity]. cbn in He2. destruct (pd_level d); discriminate.
  - destruct (find (fun d => level_eqb (nd_level d) Warn) (map (normalized_diagnostic B) (diagnostics r)))
      as [e|] eqn:Ew.
    + apply find_some in Ew as [He1 He2]. apply in_map_iff in He1 as (d & <- & Hd).
      exists d. split; [exact Hd|]. split; [|reflexivity]. cbn in He2. destruct (pd_level d); discriminate.
    + exfalso. apply find_none with (x := normalized_diagnostic B d0) in Ee; [|apply in_map, Hd0].
      apply find_none with (x := normalized_diagnostic B d0) in Ew; [|apply in_map, Hd0].
      cbn in Ee, Ew. destruct (pd_level d0); discriminate || contradiction.
Qed.

(** X11: [generateStoryboardImage] never returns a null url without a
    non-[info] diagnostic, and when it returns a url its only possible
    diagnostic is the [warn] about an unparsable visual anchor. *)
Theorem generateStoryboardImage_diagnostics hasApiKey generateContent scene ar anchor :
  let r := generateStoryboardImage hasApiKey generateContent scene ar anchor in
  match url r with
  | None => exists d, In d (diagnostics r) /\ pd_level d <> Info
  | Some _ => Forall (fun d => pd_level d = Warn) (diagnostics r)
  end.
Proof.
  cbv zeta. unfold generateStoryboardImage.
  destruct hasApiKey; cbn [negb].
  2:{ cbn. eexists; split; [left; reflexivity | discriminate]. }
  destruct anchor as [a|]; [destruct (url_truthy (Some a)); [destruct (parseDataUrl a) as [[m b]|]|]|];
  cbv iota beta;
  (destruct (generateContent _ _) as [ps|e]; [destruct (first_inline ps) as [[m' d']|]|]);
  cbn; first [ solve [repeat constructor]
             | eexists; split; [solve [repeat (first [left; reflexivity | right])] | cbn; discriminate] ].
Qed.

(** X12: a url returned by [generateStoryboardImage] is a base64 data url
    [data:<mime>;base64,<data>] of the inline image part, which
    [parseDataUrl] reads back when the part is well formed. *)
Theorem generateStoryboardImage_url_parses hasApiKey generateContent scene ar anchor u :
  url (generateStoryboardImage hasApiKey generateContent scene ar anchor) = Some u ->
  exists mimeType data, u = "data:" ++ mimeType ++ ";base64," ++ data /\
    (mimeType <> "" -> data <> "" -> no_line_terminator mimeType = true ->
     no_line_terminator data = true -> includes data ";" = false ->
     parseDataUrl u = Some (mimeType, data)).
Proof.
  unfold generateStoryboardImage. destruct hasApiKey; cbn [negb]; [|cbn; discriminate].
  destruct anchor as [a|]; [destruct (url_truthy (Some a)); [destruct (parseDataUrl a) as [[m b]|]|]|];
  cbv iota beta;
  (destruct (generateContent _ _) as [ps|e]; [destruct (first_inline ps) as [[m' d']|]|]);
  cbn; try discriminate; intros [= <-]; exists m', d'; split; auto; intros; apply parseDataUrl_roundtrip_aux; auto.
Qed.

Lemma internalGenerateVideo_shape apiKey generateVideos getVideosOperation fetch prompt aspect label img :
  let r := internalGenerateVideo apiKey generateVideos getVideosOperation fetch prompt aspect label img in
  match va_url r with
  | None => exists d, va_diagnostics r = [d] /\ pd_level d <> Info
  | Some _ => va_diagnostics r = []
  end.
Proof.
  cbv zeta. unfold internalGenerateVideo.
  destruct (generateVideos _ _ _) as [op|e]; [|eexists; split; [reflexivity|discriminate]].
  destruct (poll_loop _ _ _ _) as [[polls|op']|e]; [..|eexists; split; [reflexivity|discriminate]].
  - eexists; split; [reflexivity|discriminate].
  - destruct (op_videoUri op') as [v|]; [|eexists; split; [reflexivity|discriminate]].
    destruct (url_truthy (Some v)); [|eexists; split; [reflexivity|discriminate]].
    destruct (fetch _) as [resp|e]; [|eexists; split; [reflexivity|discriminate]].
    destruct (fr_ok resp); cbn [negb]; [|eexists; split; [reflexivity|discriminate]].
    destruct (fr_objectUrl resp); [reflexivity|eexists; split; [reflexivity|discriminate]].
Qed.

(** X13: a Veo attempt returns either a url and no diagnostics, or no url and
    exactly one diagnostic, of level [warn] or [error]. *)
Theorem internalGenerateVideo_diagnostics apiKey generateVideos getVideosOperation fetch prompt aspect label img :
  let r := internalGenerateVideo apiKey generateVideos getVideosOperation fetch prompt aspect label img in
  match va_url r with
  | None => exists d, va_diagnostics r = [d] /\ pd_level d <> Info
  | Some _ => va_diagnostics r = []
  end.
Proof. exact (internalGenerateVideo_shape apiKey generateVideos getVideosOperation fetch prompt aspect label img).
Qed.

Lemma poll_loop_ext (g1 g2 : nat -> Operation -> outcome Operation) n polls op :
  (forall k o, polls < k <= polls + n -> g1 k o = g2 k o) ->
  poll_loop g1 n polls op = poll_loop g2 n polls op.
Proof.
  revert polls op. induction n as [|n IH]; intros polls op H; cbn; [reflexivity|].
  destruct (op_done op); [reflexivity|].
  rewrite (H (S polls) op) by lia.
  destruct (g2 (S polls) op); [|reflexivity].
  apply IH. intros k o Hk. apply H. lia.
Qed.

(** X14: a Veo attempt polls the operation at most 90 times: two pollers
    that agree on polls 1 to 90 give the same result. *)
Theorem internalGenerateVideo_polls_at_most_90 apiKey generateVideos g1 g2 fetch prompt aspect label img :
  (forall k o, 1 <= k <= 90 -> g1 k o = g2 k o) ->
  internalGenerateVideo apiKey generateVideos g1 fetch prompt aspect label img =
  internalGenerateVideo apiKey generateVideos g2 fetch prompt aspect label img.
Proof.
  intros H. unfold internalGenerateVideo.
  destruct (generateVideos _ _ _) as [op|e]; [|reflexivity].
  rewrite (poll_loop_ext g1 g2 90 0); [reflexivity|].
  intros k o Hk. apply H. lia.
Qed.

Lemma poll_loop_never_done (g : nat -> Operation -> outcome Operation) n polls op :
  (forall k o, exists o', g k o = Returns o' /\ op_done o' = false) ->
  op_done op = false ->
  poll_loop g n polls op = Returns (inl (S (polls + n))).
Proof.
  intros Hg. revert polls op. induction n as [|n IH]; intros polls op Hd; cbn; rewrite Hd.
  - rewrite Nat.add_0_r. reflexivity.
  - destruct (Hg (S polls) op) as (o' & -> & Ho'). rewrite IH by exact Ho'.
    do 2 f_equal. lia.
Qed.

(** X15: if the Veo operation never finishes, the attempt gives up after the
    90th poll with no url and the single [warn] diagnostic
    VEO_POLL_TIMEOUT, whose context records 91 polls. *)
Theorem internalGenerateVideo_timeout apiKey generateVideos getVideosOperation fetch prompt aspect label img op0 :
  generateVideos prompt aspect img = Returns op0 ->
  op_done op0 = false ->
  (forall k o, exists o', getVideosOperation k o = Returns o' /\ op_done o' = false) ->
  internalGenerateVideo apiKey generateVideos getVideosOperation fetch prompt aspect label img =
  {| va_url := None;
     va_diagnostics :=
       [diagnostic Warn "VEO_POLL_TIMEOUT"
          "Video generation timed out while polling the Veo operation."
          (JObj [("attemptLabel", JStr label); ("polls", JNum 91)])] |}.
Proof.
  intros Hg Hd Hp. unfold internalGenerateVideo. rewrite Hg.
  rewrite (poll_loop_never_done getVideosOperation 90 0 op0 Hp Hd). reflexivity.
Qed.

Lemma internalGenerateVideo_codes apiKey generateVideos getVideosOperation fetch prompt aspect label img :
  Forall (fun d => In (pd_code d) ["VEO_REQUEST_FAILED"; "VEO_POLL_TIMEOUT"; "VEO_EMPTY_VIDEO_URI"; "VEO_DOWNLOAD_FAILED"])
    (va_diagnostics (internalGenerateVideo apiKey generateVideos getVideosOperation fetch prompt aspect label img)).
Proof.
  unfold internalGenerateVideo.
  destruct (generateVideos _ _ _) as [op|e]; [|cbn; auto 10].
  destruct (poll_loop _ _ _ _) as [[polls|op']|e]; [cbn; auto 10| |cbn; auto 10].
  destruct (op_videoUri op') as [v|]; [|cbn; auto 10].
  destruct (url_truthy (Some v)); [|cbn; auto 10].
  destruct (fetch _) as [resp|e]; [|cbn; auto 10].
  destruct (fr_ok resp); cbn [negb]; [|cbn; auto 10].
  destruct (fr_objectUrl resp); cbn; auto 10.
Qed.


(** X16: with the modelled Veo attempts, [generateVideoClip] never returns a
    null url without a non-[info] diagnostic. *)
Theorem generateVideoClip_null_url hasApiKey apiKey generateVideos getVideosOperation fetch scene ar src :
  let r := generateVideoClip hasApiKey
             (internalGenerateVideo apiKey generateVideos getVideosOperation fetch) scene ar src in
  url r = None -> exists d, In d (diagnostics r) /\ pd_level d <> Info.
Proof.
  cbv zeta. unfold generateVideoClip.
  destruct hasApiKey; cbn [negb]; [|cbn; intros _; eexists; split; [left; reflexivity|discriminate]].
  set (iv := internalGenerateVideo apiKey generateVideos getVideosOperation fetch).
  assert (Htext : forall a b c d, va_url (iv a b c d) = None ->
            exists x, In x (va_diagnostics (iv a b c d)) /\ pd_level x <> Info).
  { intros a b c d Hn. pose proof (internalGenerateVideo_shape apiKey generateVideos getVideosOperation fetch a b c d) as Hs.
    cbv zeta in Hs. fold iv in Hs. rewrite Hn in Hs. destruct Hs as (x & -> & Hx). exists x. split; [left|]; auto. }
  destruct src as [s|]; [destruct (url_truthy (Some s)); [destruct (parseDataUrl s) as [parsed|]|]|];
  cbv iota beta;
  [ destruct (url_truthy (va_url (iv _ _ _ (Some parsed)))) eqn:Et; cbv iota beta | ..];
  cbn [url buildGeneratedAssetResult diagnostics];
  try (intros Hn; rewrite Hn in Et; discriminate);
  intros Hn; destruct (Htext _ _ _ _ Hn) as (x & Hx & Hl); exists x; split; auto; apply in_or_app; right; exact Hx.
Qed.

(** X17: with the modelled Veo attempts, [generateVideoClip] sets
    [fallbackUsed] exactly when its diagnostics contain
    VEO_IMAGE_TO_VIDEO_FAILED or VEO_SOURCE_IMAGE_PARSE_FAILED. *)
Theorem generateVideoClip_fallback_flag hasApiKey apiKey generateVideos getVideosOperation fetch scene ar src :
  let r := generateVideoClip hasApiKey
             (internalGenerateVideo apiKey generateVideos getVideosOperation fetch) scene ar src in
  fallbackUsed r = true <->
  exists d, In d (diagnostics r) /\
    (pd_code d = "VEO_IMAGE_TO_VIDEO_FAILED" \/ pd_code d = "VEO_SOURCE_IMAGE_PARSE_FAILED").
Proof.
  cbv zeta. unfold generateVideoClip.
  set (iv := internalGenerateVideo apiKey generateVideos getVideosOperation fetch).
  assert (Hc : forall a b c d x, In x (va_diagnostics (iv a b c d)) ->
            In (pd_code x) ["VEO_REQUEST_FAILED"; "VEO_POLL_TIMEOUT"; "VEO_EMPTY_VIDEO_URI"; "VEO_DOWNLOAD_FAILED"]).
  { intros a b c d x Hx. pose proof (internalGenerateVideo_codes apiKey generateVideos getVideosOperation fetch a b c d) as Hs.
    fold iv in Hs. rewrite Forall_forall in Hs. exact (Hs x Hx). }
  assert (Hno : forall a b c d x, In x (va_diagnostics (iv a b c d)) ->
            ~ (pd_code x = "VEO_IMAGE_TO_VIDEO_FAILED" \/ pd_code x = "VEO_SOURCE_IMAGE_PARSE_FAILED")).
  { intros a b c d x Hx Hcx. apply Hc in Hx. cbn in Hx.
    destruct Hcx as [E|E]; rewrite E in Hx; intuition discriminate. }
  destruct hasApiKey; cbn [negb].
  2:{ cbn. split; [discriminate|]. intros (d & [<-|[]] & [E|E]); discriminate. }
  destruct src as [s|]; [destruct (url_truthy (Some s)); [destruct (parseDataUrl s) as [parsed|]|]|];
  cbv iota beta;
  [ destruct (url_truthy (va_url (iv _ _ _ (Some parsed)))) eqn:Et; cbv iota beta | ..];
  cbn [fallbackUsed buildGeneratedAssetResult diagnostics app].
  - split; [discriminate|]. intros (d & Hd & Hcd). destruct (Hno _ _ _ _ _ Hd Hcd).
  - split; [intros _|reflexivity].
    eexists; split; [apply in_or_app; left; apply in_or_app; right; left; reflexivity|left; reflexivity].
  - split; [intros _|reflexivity].
    eexists; split; [left; reflexivity|right; reflexivity].
  - split; [discriminate|]. intros (d & Hd & Hcd). destruct (Hno _ _ _ _ _ Hd Hcd).
  - split; [discriminate|]. intros (d & Hd & Hcd). destruct (Hno _ _ _ _ _ Hd Hcd).
Qed.

Lemma string_app_nil_r s : (s ++ "") = s.
Proof. induction s as [|c s IH]; cbn; [reflexivity|]. rewrite IH; reflexivity. Qed.

Lemma prefix_extend p t s : String.prefix p t = true -> String.prefix p (t ++ s) = true.
Proof.
  revert t; induction p as [|c p IH]; intros t H; [destruct (t ++ s); reflexivity|].
  destruct t as [|d t]; [discriminate|]. cbn in *.
  destruct (ascii_dec c d); [apply IH, H|discriminate].
Qed.

Lemma prefix_diverge key t s :
  String.prefix key t = false -> String.prefix t key = false -> String.prefix key (t ++ s) = false.
Proof.
  revert key; induction t as [|c t IH]; intros key H1 H2.
  - destruct key; discriminate.
  - destruct key as [|k key]; [discriminate|]. cbn in *.
    destruct (ascii_dec k c) as [->|]; [|reflexivity].
    destruct (ascii_dec c c); [|congruence]. apply IH; auto.
Qed.

Lemma match_digits_after_eq key s :
  match_digits_after key s =
  let here :=
    if String.prefix key s
    then digits_prefix (substring (String.length key) (String.length s - String.length key) s)
    else EmptyString in
  if negb (String.eqb here "") then Some here
  else match s with EmptyString => None | String _ s' => match_digits_after key s' end.
Proof. destruct s; reflexivity. Qed.

Lemma match_digits_after_skip key p s :
  skips key p = true -> match_digits_after key (p ++ s) = match_digits_after key s.
Proof.
  induction p as [|c p IH]; intros H; [reflexivity|].
  cbn [skips] in H. apply andb_prop in H as [H H3]. apply andb_prop in H as [H1 H2].
  apply negb_true_iff in H1, H2.
  rewrite match_digits_after_eq. cbv zeta.
  rewrite (prefix_diverge key (String c p) s H1 H2). cbn [String.eqb negb].
  change (String c p ++ s) with (String c (p ++ s)).
  apply IH, H3.
Qed.

Lemma digits_prefix_all ds : all_digits ds = true -> digits_prefix ds = ds.
Proof.
  induction ds as [|c ds IH]; intros H; [reflexivity|]. cbn in *.
  apply andb_prop in H as [H1 H2]. rewrite H1, IH by exact H2. reflexivity.
Qed.

Lemma match_digits_after_found key ds :
  key <> "" -> ds <> "" -> all_digits ds = true -> match_digits_after key (key ++ ds) = Some ds.
Proof.
  intros Hk Hd Ha. rewrite match_digits_after_eq. cbv zeta. rewrite prefix_app.
  pose proof (substring_app_r key ds 0 (String.length ds)) as E. rewrite Nat.add_0_r in E.
  rewrite length_app. replace (String.length key + String.length ds - String.length key)
    with (String.length ds) by lia.
  rewrite E, substring_full by lia. rewrite digits_prefix_all by exact Ha.
  destruct ds; [congruence|reflexivity].
Qed.

Lemma match_digits_after_empty key : key <> "" -> match_digits_after key "" = None.
Proof. destruct key; [congruence|reflexivity]. Qed.

Lemma skips_digits k key ds :
  is_digit k = false -> all_digits ds = true -> skips (String k key) ds = true.
Proof.
  intros Hk. induction ds as [|c ds IH]; intros H; [reflexivity|].
  cbn [all_digits list_ascii_of_string forallb] in H. apply andb_prop in H as [H1 H2].
  cbn [skips]. rewrite IH by exact H2. cbn.
  destruct (ascii_dec k c) as [->|]; [congruence|]. destruct (ascii_dec c k); [congruence|]. reflexivity.
Qed.

Lemma toLowerCase_app a b : toLowerCase (a ++ b) = toLowerCase a ++ toLowerCase b.
Proof. induction a as [|c a IH]; cbn; [reflexivity|]. rewrite IH. reflexivity. Qed.

Lemma toLowerCase_digits ds : all_digits ds = true -> toLowerCase ds = ds.
Proof.
  induction ds as [|c ds IH]; intros H; [reflexivity|]. cbn in H.
  apply andb_prop in H as [H1 H2]. cbn. rewrite IH by exact H2. f_equal.
  unfold is_digit, lower_char in *. apply andb_prop in H1 as [H1 H3].
  apply Nat.leb_le in H1, H3.
  destruct (Nat.leb 65 (nat_of_ascii c)) eqn:E1; destruct (Nat.leb (nat_of_ascii c) 90) eqn:E2; cbn; try reflexivity.
  apply Nat.leb_le in E1. lia.
Qed.

Lemma includes_extend a b sub : includes a sub = true -> includes (a ++ b) sub = true.
Proof.
  induction a as [|c a IH]; intros H.
  - destruct sub; [destruct b; reflexivity|discriminate].
  - change (String c a ++ b) with (String c (a ++ b)). cbn [includes] in *.
    apply orb_true_iff in H as [H|H]; apply orb_true_iff.
    + left. exact (prefix_extend sub (String c a) b H).
    + right. apply IH, H.
Qed.

Lemma parsePcmMimeType_gemini ds :
  ds <> "" -> all_digits ds = true ->
  parsePcmMimeType (Some ("audio/L16;codec=pcm;rate=" ++ ds)) = Some (decimal_value ds, 1%Z).
Proof.
  intros Hd Ha. unfold parsePcmMimeType.
  change (String.eqb ("audio/L16;codec=pcm;rate=" ++ ds) "") with false. cbv iota.
  assert (E : toLowerCase ("audio/L16;codec=pcm;rate=" ++ ds) = "audio/l16;codec=pcm;" ++ ("rate=" ++ ds)).
  { rewrite toLowerCase_app, (toLowerCase_digits ds Ha). reflexivity. }
  rewrite E. cbv zeta.
  rewrite (includes_extend "audio/l16;codec=pcm;" ("rate=" ++ ds) "l16") by reflexivity.
  cbn [negb andb].
  rewrite (match_digits_after_skip "rate=" "audio/l16;codec=pcm;" ("rate=" ++ ds)) by reflexivity.
  rewrite match_digits_after_found by (auto; discriminate).
  change ("audio/l16;codec=pcm;" ++ ("rate=" ++ ds)) with ("audio/l16;codec=pcm;rate=" ++ ds).
  rewrite (match_digits_after_skip "channels=" "audio/l16;codec=pcm;rate=" ds) by reflexivity.
  assert (Hc : match_digits_after "channels=" ds = None).
  { rewrite <- (string_app_nil_r ds).
    rewrite (match_digits_after_skip "channels=" ds "") by (apply skips_digits; [reflexivity|exact Ha]).
    reflexivity. }
  rewrite Hc. reflexivity.
Qed.

(** X18: for the TTS mime type [audio/L16;codec=pcm;rate=<digits>],
    [parsePcmMimeType] gives that sample rate and the default of one
    channel. *)
Theorem parsePcmMimeType_gemini_rate ds :
  ds <> "" -> all_digits ds = true ->
  parsePcmMimeType (Some ("audio/L16;codec=pcm;rate=" ++ ds)) = Some (decimal_value ds, 1%Z).
Proof. exact (parsePcmMimeType_gemini ds). Qed.

Lemma byte_land x : Z.land x 255 = (x mod 256)%Z.
Proof. change 255%Z with (Z.ones 8). rewrite Z.land_ones by lia. reflexivity. Qed.

Lemma u32_bytes v :
  let w := (v mod 2 ^ 32)%Z in
  (Z.land w 255 + 256 * Z.land (Z.shiftr w 8) 255 + 65536 * Z.land (Z.shiftr w 16) 255
   + 16777216 * Z.land (Z.shiftr w 24) 255)%Z = w.
Proof.
  cbv zeta. set (w := (v mod 2 ^ 32)%Z).
  assert (Hw : (0 <= w < 2 ^ 32)%Z) by (apply Z.mod_pos_bound; lia).
  rewrite !byte_land, !Z.shiftr_div_pow2 by lia.
  change (2 ^ 8)%Z with 256%Z. change (2 ^ 16)%Z with (256 * 256)%Z. change (2 ^ 24)%Z with (256 * 256 * 256)%Z.
  rewrite <- !Z.div_div by lia.
  change (2 ^ 32)%Z with (256 * 256 * 256 * 256)%Z in Hw.
  assert (H3 : (0 <= w / 256 / 256 / 256 < 256)%Z).
  { split; [apply Z.div_pos; [apply Z.div_pos; [apply Z.div_pos|]|]; lia|].
    apply Z.div_lt_upper_bound; [lia|]. apply Z.div_lt_upper_bound; [lia|].
    apply Z.div_lt_upper_bound; lia. }
  rewrite (Z.mod_small (w / 256 / 256 / 256)) by exact H3.
  pose proof (Z.div_mod w 256 ltac:(lia)).
  pose proof (Z.div_mod (w / 256) 256 ltac:(lia)).
  pose proof (Z.div_mod (w / 256 / 256) 256 ltac:(lia)).
  lia.
Qed.

Lemma u16_bytes v :
  let w := (v mod 2 ^ 16)%Z in (Z.land w 255 + 256 * Z.land (Z.shiftr w 8) 255)%Z = w.
Proof.
  cbv zeta. set (w := (v mod 2 ^ 16)%Z).
  assert (Hw : (0 <= w < 2 ^ 16)%Z) by (apply Z.mod_pos_bound; lia).
  rewrite !byte_land, !Z.shiftr_div_pow2 by lia. change (2 ^ 8)%Z with 256%Z.
  change (2 ^ 16)%Z with (256 * 256)%Z in Hw.
  assert (H1 : (0 <= w / 256 < 256)%Z).
  { split; [apply Z.div_pos; lia|]. apply Z.div_lt_upper_bound; lia. }
  rewrite (Z.mod_small (w / 256)) by exact H1.
  pose proof (Z.div_mod w 256 ltac:(lia)). lia.
Qed.

Lemma createWavHeader_bytes sampleRate numChannels numFrames :
  createWavHeader sampleRate numChannels numFrames =
  let b32 v := let w := (v mod 2 ^ 32)%Z in
               [Z.land w 255; Z.land (Z.shiftr w 8) 255; Z.land (Z.shiftr w 16) 255; Z.land (Z.shiftr w 24) 255]%Z in
  let b16 v := let w := (v mod 2 ^ 16)%Z in [Z.land w 255; Z.land (Z.shiftr w 8) 255]%Z in
  (char_codes "RIFF" ++ b32 (36 + numFrames * (numChannels * 2))%Z ++ char_codes "WAVE" ++
   char_codes "fmt " ++ b32 16%Z ++ b16 1%Z ++ b16 numChannels ++ b32 sampleRate ++
   b32 (sampleRate * (numChannels * 2))%Z ++ b16 (numChannels * 2)%Z ++ b16 16%Z ++
   char_codes "data" ++ b32 (numFrames * (numChannels * 2))%Z)%list.
Proof. reflexivity. Qed.

Lemma u32_bytes_eq v :
  (Z.land (v mod 2 ^ 32) 255 + 256 * Z.land (Z.shiftr (v mod 2 ^ 32) 8) 255
   + 65536 * Z.land (Z.shiftr (v mod 2 ^ 32) 16) 255
   + 16777216 * Z.land (Z.shiftr (v mod 2 ^ 32) 24) 255)%Z = (v mod 2 ^ 32)%Z.
Proof. exact (u32_bytes v). Qed.

Lemma u16_bytes_eq v :
  (Z.land (v mod 2 ^ 16) 255 + 256 * Z.land (Z.shiftr (v mod 2 ^ 16) 8) 255)%Z = (v mod 2 ^ 16)%Z.
Proof. exact (u16_bytes v). Qed.

Lemma land_255_range x : (0 <= Z.land x 255 < 256)%Z.
Proof. rewrite byte_land. apply Z.mod_pos_bound. lia. Qed.

(** X19: [createWavHeader] builds 44 bytes, each in [0, 255], holding the
    RIFF/WAVE/fmt/data tags and, little-endian, the chunk size
    [36 + dataSize], PCM format 1, the channel count, the sample rate, the
    byte rate, the block align, 16 bits per sample and the data size, each
    reduced modulo 2^32 or 2^16 as [DataView] does. *)
Theorem createWavHeader_fields sampleRate numChannels numFrames :
  let h := createWavHeader sampleRate numChannels numFrames in
  List.length h = 44 /\ Forall (fun b => 0 <= b < 256)%Z h /\
  read_tag h 0 = char_codes "RIFF" /\
  read_u32 h 4 = ((36 + numFrames * (numChannels * 2)) mod 2 ^ 32)%Z /\
  read_tag h 8 = char_codes "WAVE" /\ read_tag h 12 = char_codes "fmt " /\
  read_u32 h 16 = 16%Z /\ read_u16 h 20 = 1%Z /\
  read_u16 h 22 = (numChannels mod 2 ^ 16)%Z /\
  read_u32 h 24 = (sampleRate mod 2 ^ 32)%Z /\
  read_u32 h 28 = ((sampleRate * (numChannels * 2)) mod 2 ^ 32)%Z /\
  read_u16 h 32 = ((numChannels * 2) mod 2 ^ 16)%Z /\ read_u16 h 34 = 16%Z /\
  read_tag h 36 = char_codes "data" /\
  read_u32 h 40 = ((numFrames * (numChannels * 2)) mod 2 ^ 32)%Z.
Proof.
  cbv zeta. rewrite createWavHeader_bytes.
  unfold read_u16, read_u32, read_tag.
  cbn -[Z.land Z.shiftr Z.modulo Z.pow Z.add Z.mul].
  repeat split;
    first [ reflexivity
          | apply u32_bytes_eq | apply u16_bytes_eq
          | rewrite u32_bytes_eq; reflexivity | rewrite u16_bytes_eq; reflexivity
          | repeat (apply Forall_cons; [first [apply land_255_range | lia] |]); apply Forall_nil ].
Qed.

Lemma existsb_eqb_in x seen : existsb (String.eqb x) seen = true <-> In x seen.
Proof.
  rewrite existsb_exists. split.
  - intros (y & Hy & E). apply String.eqb_eq in E. subst. exact Hy.
  - intros H. exists x. split; [exact H|]. apply String.eqb_refl.
Qed.

Lemma unique_from_in seen xs x :
  In x (unique_from seen xs) <-> In x xs /\ ~ In x seen.
Proof.
  revert seen. induction xs as [|y xs IH]; intros seen; cbn; [tauto|].
  destruct (existsb (String.eqb y) seen) eqn:E.
  - apply existsb_eqb_in in E. rewrite IH. split; [tauto|].
    intros [[<-|H] H']; [contradiction|tauto].
  - assert (E' : ~ In y seen) by (rewrite <- existsb_eqb_in; congruence). clear E. rename E' into E.
    cbn. rewrite IH. cbn. split.
    + intros [<-|[H1 H2]]; [tauto|]. split; [right; exact H1|tauto].
    + intros [[<-|H1] H2]; [left; reflexivity|].
      destruct (String.eqb_spec y x) as [->|Hne]; [left; reflexivity|right; split; [exact H1|]].
      intros [->|H]; [congruence|contradiction].
Qed.

Lemma unique_from_nodup seen xs : NoDup (unique_from seen xs).
Proof.
  revert seen. induction xs as [|y xs IH]; intros seen; cbn; [constructor|].
  destruct (existsb (String.eqb y) seen); [apply IH|].
  constructor; [|apply IH]. rewrite unique_from_in. cbn. tauto.
Qed.

Lemma speakerVoiceConfigs_fst idx l : map fst (speakerVoiceConfigs_from idx l) = l.
Proof. revert idx; induction l as [|x l IH]; intros idx; cbn; [reflexivity|]. rewrite IH. reflexivity. Qed.

Lemma speakerVoiceConfigs_snd idx l :
  map snd (speakerVoiceConfigs_from idx l) =
  map (fun i => nth (i mod 6) availableVoices "") (seq idx (List.length l)).
Proof. revert idx; induction l as [|x l IH]; intros idx; cbn; [reflexivity|]. rewrite IH. reflexivity. Qed.

Lemma tts_request_multi text voice ds :
  1 < List.length (unique_from [] (map speaker ds)) ->
  tts_request text voice (Some ds) =
  (join nl (map dialogue_line ds),
   MultiSpeakerVoiceConfig (speakerVoiceConfigs_from 0 (unique_from [] (map speaker ds)))).
Proof.
  intros H. unfold tts_request.
  destruct ds as [|d ds']; [cbn in H; lia|]. cbn [List.length Nat.eqb negb].
  apply Nat.ltb_lt in H. rewrite H. reflexivity.
Qed.

(** X20: for a dialogue with more than one distinct speaker, the TTS request
    is the dialogue as [speaker: text] lines joined by newlines, with one
    voice config per distinct speaker (no duplicates, every speaker
    covered); the i-th speaker gets voice [i mod 6] of the six prebuilt
    voices, so up to six speakers get pairwise different voices. *)
Theorem tts_request_multi_speaker text voice ds :
  1 < List.length (unique_from [] (map speaker ds)) ->
  exists configs,
    tts_request text voice (Some ds) = (join nl (map dialogue_line ds), MultiSpeakerVoiceConfig configs) /\
    NoDup (map fst configs) /\
    (forall sp, In sp (map fst configs) <-> In sp (map speaker ds)) /\
    (forall i, i < List.length configs -> nth_error (map snd configs) i = Some (nth (i mod 6) availableVoices "")) /\
    (List.length configs <= 6 -> NoDup (map snd configs)).
Proof.
  intros H. eexists. split; [exact (tts_request_multi text voice ds H)|].
  rewrite speakerVoiceConfigs_fst, speakerVoiceConfigs_snd.
  split; [apply unique_from_nodup|]. split.
  { intros sp. rewrite unique_from_in. cbn. tauto. }
  rewrite <- (length_map fst (speakerVoiceConfigs_from 0 _)), speakerVoiceConfigs_fst. split.
  - intros i Hi. rewrite nth_error_map, nth_error_seq. apply Nat.ltb_lt in Hi. rewrite Hi. reflexivity.
  - intros Hle. remember (List.length (unique_from [] (map speaker ds))) as n.
    destruct n as [|[|[|[|[|[|[|n]]]]]]]; [..|lia]; cbn;
      repeat constructor; cbn; intuition discriminate.
Qed.

(** X21: without a dialogue, or with a dialogue of at most one distinct
    speaker, the TTS request is [text] with the chosen prebuilt voice;
    the dialogue lines are then not sent. *)
Theorem tts_request_single_speaker text voice dialogue :
  match dialogue with Some ds => List.length (unique_from [] (map speaker ds)) <= 1 | None => True end ->
  tts_request text voice dialogue = (text, VoiceConfig (voice_name voice)).
Proof.
  intros H. unfold tts_request. destruct dialogue as [ds|]; [|reflexivity].
  destruct (negb (Nat.eqb (List.length ds) 0)); [|reflexivity].
  destruct (Nat.ltb_spec 1 (List.length (unique_from [] (map speaker ds)))); [lia|reflexivity].
Qed.

(** X22: [generateVoiceover] returns either a url and no diagnostics, or no
    url and exactly one diagnostic of level [warn] or [error]. *)
Theorem generateVoiceover_diagnostics hasApiKey generateSpeech base64ToUint8Array createObjectURL text voice dialogue :
  let r := generateVoiceover hasApiKey generateSpeech base64ToUint8Array createObjectURL text voice dialogue in
  match url r with
  | None => exists d, diagnostics r = [d] /\ pd_level d <> Info
  | Some _ => diagnostics r = []
  end.
Proof.
  cbv zeta. unfold generateVoiceover.
  destruct hasApiKey; cbn [negb]; [|cbn; eexists; split; [reflexivity|discriminate]].
  destruct (String.eqb text "" && _); [cbn; eexists; split; [reflexivity|discriminate]|].
  destruct (tts_request text voice dialogue) as [pc cfg].
  destruct (generateSpeech pc cfg) as [ia|e]; [|cbn; eexists; split; [reflexivity|discriminate]].
  destruct ia as [[m [b|]]|]; try (cbn; eexists; split; [reflexivity|discriminate]).
  destruct (url_truthy (Some b)); [|cbn; eexists; split; [reflexivity|discriminate]].
  destruct (base64ToUint8Array b) as [raw|e]; [|cbn; eexists; split; [reflexivity|discriminate]].
  destruct (parsePcmMimeType m) as [[sr ch]|]; reflexivity.
Qed.



(** X23: when the key is set, there is something to say, and the TTS model
    answers with PCM audio [audio/L16;codec=pcm;rate=<digits>] that
    decodes, [generateVoiceover] returns the object url of a WAV blob of
    that audio at that rate with one channel, and no diagnostics. *)
Theorem generateVoiceover_pcm_to_wav hasApiKey generateSpeech base64ToUint8Array createObjectURL
    text voice dialogue rate base64Audio rawAudio :
  hasApiKey = true ->
  (text <> "" \/ exists d ds, dialogue = Some (d :: ds)) ->
  generateSpeech (fst (tts_request text voice dialogue)) (snd (tts_request text voice dialogue)) =
    Returns (Some (Some ("audio/L16;codec=pcm;rate=" ++ rate), Some base64Audio)) ->
  rate <> "" -> all_digits rate = true ->
  base64Audio <> "" -> base64ToUint8Array base64Audio = Returns rawAudio ->
  generateVoiceover hasApiKey generateSpeech base64ToUint8Array createObjectURL text voice dialogue =
  buildGeneratedAssetResult Gemini OpVoiceover
    (Some (createObjectURL (WavBlob rawAudio (decimal_value rate) 1%Z))) [] false.
Proof.
  intros Hk Hin Hs Hr Hd Hb Hraw. unfold generateVoiceover. rewrite Hk. cbn [negb].
  assert (Hne : (String.eqb text "" && match dialogue with None => true
                 | Some ds => Nat.eqb (List.length ds) 0 end) = false).
  { destruct Hin as [Ht|(d & ds & ->)].
    - destruct (String.eqb_spec text ""); [contradiction|reflexivity].
    - apply andb_false_r. }
  rewrite Hne. destruct (tts_request text voice dialogue) as [pc cfg]. cbn [fst snd] in Hs.
  rewrite Hs. cbv iota beta.
  destruct base64Audio as [|c b]; [congruence|]. cbn [url_truthy].
  rewrite Hraw, parsePcmMimeType_gemini by assumption. reflexivity.
Qed.

Import GeminiExamples.

Lemma parseDataUrl_roundtrip_witness :
  parseDataUrl ("data:" ++ "image/png" ++ ";base64," ++ "AAAA") = Some ("image/png", "AAAA").
Proof. apply parseDataUrl_roundtrip; (discriminate || reflexivity). Defined.

Lemma null_url_primary_diagnostic_witness :
  exists n d, normalizeAssetResult ex_builtins (result_js ex_null_result) = Some n /\ na_url n = None /\
    In d (diagnostics ex_null_result) /\ pd_level d <> Info /\
    selectPrimaryDiagnostic (na_diagnostics n) = Some (normalized_diagnostic ex_builtins d).
Proof.
  apply null_url_primary_diagnostic; [reflexivity|].
  eexists; split; [right; left; reflexivity|discriminate].
Defined.

Lemma generateStoryboardImage_url_parses_witness :
  exists mimeType data, "data:image/png;base64,AAAA" = "data:" ++ mimeType ++ ";base64," ++ data /\
    (mimeType <> "" -> data <> "" -> no_line_terminator mimeType = true ->
     no_line_terminator data = true -> includes data ";" = false ->
     parseDataUrl "data:image/png;base64,AAAA" = Some (mimeType, data)).
Proof.
  apply (generateStoryboardImage_url_parses true ex_generateContent (ex_scene "s1") SixteenNine None).
  vm_compute. reflexivity.
Defined.

Lemma internalGenerateVideo_polls_at_most_90_witness :
  internalGenerateVideo "key" ex_generateVideos ex_poll_limited ex_fetch "p" "16:9" "a" None =
  internalGenerateVideo "key" ex_generateVideos ex_poll_same ex_fetch "p" "16:9" "a" None.
Proof.
  apply internalGenerateVideo_polls_at_most_90.
  intros k op Hk. unfold ex_poll_limited, ex_poll_same.
  destruct (Nat.leb_spec k 90); [reflexivity|lia].
Defined.

Lemma internalGenerateVideo_timeout_witness :
  internalGenerateVideo "key" ex_generateVideos ex_poll_pending ex_fetch "p" "16:9" "a" None =
  {| va_url := None;
     va_diagnostics :=
       [diagnostic Warn "VEO_POLL_TIMEOUT"
          "Video generation timed out while polling the Veo operation."
          (JObj [("attemptLabel", JStr "a"); ("polls", JNum 91)])] |}.
Proof.
  apply (internalGenerateVideo_timeout _ _ _ _ _ _ _ _ ex_pending_op); [reflexivity|reflexivity|].
  intros k op. exists ex_pending_op. split; reflexivity.
Defined.

Lemma generateVideoClip_null_url_witness :
  exists d, In d (diagnostics (generateVideoClip true
      (internalGenerateVideo "key" ex_generateVideos_down ex_poll_same ex_fetch)
      (ex_scene "s1") SixteenNine None)) /\ pd_level d <> Info.
Proof. apply generateVideoClip_null_url. vm_compute. reflexivity. Defined.

Lemma parsePcmMimeType_gemini_rate_witness :
  parsePcmMimeType (Some ("audio/L16;codec=pcm;rate=" ++ "24000")) = Some (decimal_value "24000", 1%Z).
Proof. apply parsePcmMimeType_gemini_rate; [discriminate|reflexivity]. Defined.

Lemma tts_request_multi_speaker_witness :
  exists configs,
    tts_request "" Puck (Some ex_dialogue) = (join nl (map dialogue_line ex_dialogue), MultiSpeakerVoiceConfig configs) /\
    NoDup (map fst configs) /\
    (forall sp, In sp (map fst configs) <-> In sp (map speaker ex_dialogue)) /\
    (forall i, i < List.length configs -> nth_error (map snd configs) i = Some (nth (i mod 6) availableVoices "")) /\
    (List.length configs <= 6 -> NoDup (map snd configs)).
Proof. apply tts_request_multi_speaker. vm_compute. lia. Defined.

Lemma tts_request_single_speaker_witness :
  tts_request "Hello." Kore (Some [{| speaker := "Ava"; text := "Hi." |}; {| speaker := "Ava"; text := "Bye." |}]) =
  ("Hello.", VoiceConfig "Kore").
Proof. apply tts_request_single_speaker. vm_compute. lia. Defined.

Lemma generateVoiceover_pcm_to_wav_witness :
  generateVoiceover true ex_generateSpeech ex_base64ToUint8Array ex_createObjectURL "Hello." Puck None =
  buildGeneratedAssetResult Gemini OpVoiceover
    (Some (ex_createObjectURL (WavBlob [0; 0; 0]%Z (decimal_value "24000") 1%Z))) [] false.
Proof.
  apply (generateVoiceover_pcm_to_wav _ _ _ _ _ _ _ "24000" "AAAA").
  - reflexivity.
  - left; discriminate.
  - reflexivity.
  - discriminate.
  - reflexivity.
  - discriminate.
  - reflexivity.
Defined.

Lemma normalize_error_shape_witness :
  isSerializedPipelineError (normalize_error ex_builtins_json (JNum 7)) = true /\
  normalize_error ex_builtins_json (normalize_error ex_builtins_json (JNum 7)) =
  normalize_error ex_builtins_json (JNum 7).
Proof. apply (proj2 (normalize_error_shape ex_builtins_json (JNum 7))); [reflexivity|discriminate]. Defined.

End GeminiServiceProofs.
